(** * RTP/JPEG depacketisation and JFIF header synthesis (mjpeg.h)

    A shallow embedding of the classes of [MjpegReceiver/mjpeg.h]
    ([RtpHeader], [JpegRtpHeader], [Huffman], [Jfif]) and the properties
    of the specification that concern them.

    Conventions.
    - A C++ unsigned integer of [w] bits is a [Z]; every conversion to
      such a type is written out with [uint8], [uint16], [uint32] or
      [size_t].  Arithmetic on [int] is done in [Z]; for the scaled
      quantizers and for the running Huffman code, lemmas show that the
      values stay inside the [int] range.
    - A [std::vector<uint8_t>] or a [uint8_t*] buffer is a [list Z] of
      bytes; reading outside of it is undefined behaviour and is modelled
      by [None] / [Undefined].
    - A member function that mutates [this] and may throw returns an
      [outcome] that carries the state of the object at the point where
      control leaves the function. *)

From Stdlib Require Import ZArith Lia.
From stdpp Require Import base tactics option numbers list strings.

Local Open Scope Z_scope.

(** ** Fixed-width integers *)

Module Wire.

Definition uint8 (z : Z) : Z := z mod 2 ^ 8.
Definition uint16 (z : Z) : Z := z mod 2 ^ 16.
Definition uint32 (z : Z) : Z := z mod 2 ^ 32.
(** [std::size_t] of the 64-bit targets the receiver is built for. *)
Definition size_t (z : Z) : Z := z mod 2 ^ 64.

Definition is_uint8 (z : Z) : Prop := 0 <= z < 2 ^ 8.
Definition is_uint16 (z : Z) : Prop := 0 <= z < 2 ^ 16.
Definition is_uint32 (z : Z) : Prop := 0 <= z < 2 ^ 32.

(** [v[i]] on a byte buffer, [i] a signed index. *)
Definition byte_at (buffer : list Z) (i : Z) : option Z :=
  if decide (0 <= i) then buffer !! Z.to_nat i else None.

(** [buffer.size()] *)
Definition size (buffer : list Z) : Z := Z.of_nat (length buffer).

End Wire.

Import Wire.

(** ** endiautils.h *)

Module Endian.

(** Modelled from the spec: [endiautils.h], which declares [read_16],
    [read_24], [read_32], [write_16] and [write_32], is not among the
    sources.  The spec (section 6) fixes the multi-byte fields of both
    headers as big-endian; the readers take the vector and a position,
    the writers push the bytes at the back of the vector, as their
    call sites in [mjpeg.h] show. *)
Definition read_16 (buffer : list Z) (posn : Z) : option Z :=
  b0 ← byte_at buffer posn;
  b1 ← byte_at buffer (posn + 1);
  Some (uint16 (Z.lor (Z.shiftl b0 8) b1)).

Definition read_24 (buffer : list Z) (posn : Z) : option Z :=
  b0 ← byte_at buffer posn;
  b1 ← byte_at buffer (posn + 1);
  b2 ← byte_at buffer (posn + 2);
  Some (uint32 (Z.lor (Z.shiftl b0 16) (Z.lor (Z.shiftl b1 8) b2))).

Definition read_32 (buffer : list Z) (posn : Z) : option Z :=
  b0 ← byte_at buffer posn;
  b1 ← byte_at buffer (posn + 1);
  b2 ← byte_at buffer (posn + 2);
  b3 ← byte_at buffer (posn + 3);
  Some (uint32 (Z.lor (Z.shiftl b0 24)
                 (Z.lor (Z.shiftl b1 16) (Z.lor (Z.shiftl b2 8) b3)))).

Definition write_16 (val : Z) (buf : list Z) : list Z :=
  buf ++ [uint8 (Z.shiftr val 8); uint8 val].

Definition write_32 (val : Z) (buf : list Z) : list Z :=
  buf ++ [uint8 (Z.shiftr val 24); uint8 (Z.shiftr val 16);
          uint8 (Z.shiftr val 8); uint8 val].

End Endian.

Import Endian.

(** ** Exceptions and outcomes *)

(** Every failure of the module is a [throw std::runtime_error(msg)]. *)
Inductive exn : Type :=
| runtime_error (what : string).

Inductive outcome (S : Type) : Type :=
| Returns (this : S)
| Throws (this : S) (e : exn)
| Undefined.

Arguments Returns {S} this.
Arguments Throws {S} this e.
Arguments Undefined {S}.

(** An out-of-bounds read makes the whole call undefined. *)
Notation "x ⟵ o ; k" :=
  (match o with Some x => k | None => Undefined end)
  (at level 20, o at level 100, k at level 200, only parsing).

(** ** class RtpHeader *)

Module RtpHeader.

Definition RTP_VERSION : Z := 2.
Definition RTP_MINIMUM_HEADER_LENGTH : Z := 12.

Record t : Type := mk {
  Version : Z;              (* uint8_t,  2 bits *)
  PaddingFlag : Z;          (* uint8_t,  1 bit *)
  HeaderExtensionFlag : Z;  (* uint8_t,  1 bit *)
  CSRCCount : Z;            (* uint8_t,  4 bits *)
  MarkerBit : Z;            (* uint8_t,  1 bit *)
  PayloadType : Z;          (* uint16_t, 7 bits *)
  SeqNum : Z;               (* uint16_t *)
  Timestamp : Z;            (* uint32_t *)
  SyncSource : Z            (* uint32_t *)
}.

(** The default member initialisers. *)
Definition init : t := mk RTP_VERSION 0 0 0 0 0 0 0 0.

Definition truncated : exn :=
  runtime_error
    "The available buffer size was less than the minimum RTP header length.".

Definition Serialise (this : t) (buf : list Z) : list Z :=
  let buf := buf ++ [uint8 (Z.lor (Z.lor (Z.lor
                       (Z.land (Z.shiftl (Version this) 6) 0xc0)
                       (Z.land (Z.shiftl (PaddingFlag this) 5) 0x20))
                       (Z.land (Z.shiftl (HeaderExtensionFlag this) 4) 0x10))
                       (Z.land (CSRCCount this) 0x0f))] in
  let buf := buf ++ [uint8 (Z.lor (Z.land (Z.shiftl (MarkerBit this) 7) 0x80)
                                  (Z.land (PayloadType this) 0x7f))] in
  let buf := write_16 (SeqNum this) buf in
  let buf := write_32 (Timestamp this) buf in
  write_32 (SyncSource this) buf.

Definition Deserialise (this : t) (buffer : list Z) (startPosn : Z)
  : outcome t :=
  if decide (size_t (size buffer - startPosn) < RTP_MINIMUM_HEADER_LENGTH)
  then Throws this truncated
  else
    let rawBuffer i := byte_at buffer (startPosn + i) in
    b0 ⟵ rawBuffer 0;
    b1 ⟵ rawBuffer 1;
    seq ⟵ read_16 buffer (startPosn + 2);
    ts ⟵ read_32 buffer (startPosn + 4);
    ssrc ⟵ read_32 buffer (startPosn + 8);
    Returns {| Version := uint8 (Z.land (Z.shiftr b0 6) 0x03);
               PaddingFlag := uint8 (Z.land (Z.shiftr b0 5) 0x01);
               HeaderExtensionFlag := uint8 (Z.land (Z.shiftr b0 4) 0x01);
               CSRCCount := uint8 (Z.land b0 0x0f);
               MarkerBit := uint8 (Z.land (Z.shiftr b1 7) 0x01);
               PayloadType := uint16 (Z.land b1 0x7f);
               SeqNum := seq;
               Timestamp := ts;
               SyncSource := ssrc |}.

(** The declared bit widths of the fields (section 3 of the spec). *)
Definition within_widths (h : t) : Prop :=
  0 <= Version h < 2 ^ 2 /\
  0 <= PaddingFlag h < 2 ^ 1 /\
  0 <= HeaderExtensionFlag h < 2 ^ 1 /\
  0 <= CSRCCount h < 2 ^ 4 /\
  0 <= MarkerBit h < 2 ^ 1 /\
  0 <= PayloadType h < 2 ^ 7 /\
  0 <= SeqNum h < 2 ^ 16 /\
  0 <= Timestamp h < 2 ^ 32 /\
  0 <= SyncSource h < 2 ^ 32.

(** The version bits of the first byte of a serialised header. *)
Definition wire_version (bytes : list Z) : option Z :=
  b0 ← bytes !! 0%nat; Some (uint8 (Z.land (Z.shiftr b0 6) 0x03)).

End RtpHeader.

(** ** class JpegRtpHeader *)

Module JpegRtpHeader.

Definition JPEG_MIN_HEADER_LENGTH : Z := 8.
Definition JPEG_DEFAULT_TYPE_SPECIFIER : Z := 0.
Definition JPEG_TYPE_RESTART_MARKER_START : Z := 64.
Definition JPEG_TYPE_RESTART_MARKER_END : Z := 127.
Definition JPEG_QUANTIZATION_HEADER_LENGTH : Z := 4.
Definition Q_TABLE_INBAND_MINIMUM : Z := 128.

(** [Type] is reserved in Rocq: the field is [Type_]. *)
Record t : Type := mk {
  TypeSpecifier : Z;   (* uint8_t *)
  Offset : Z;          (* uint32_t, 24 bits *)
  Type_ : Z;           (* uint8_t *)
  Q : Z;               (* uint8_t *)
  Width : Z;           (* uint8_t *)
  Height : Z;          (* uint8_t *)
  Mbz : Z;             (* uint8_t *)
  Precision : Z;       (* uint8_t *)
  Length : Z;          (* uint16_t *)
  QTable : list Z      (* std::vector<uint8_t> *)
}.

(** The six assignments of the base header. *)
Definition set_base (this : t) (ts off ty q w h : Z) : t :=
  {| TypeSpecifier := ts; Offset := off; Type_ := ty; Q := q;
     Width := w; Height := h;
     Mbz := Mbz this; Precision := Precision this; Length := Length this;
     QTable := QTable this |}.

(** The three assignments of the quantization table header. *)
Definition set_quantization (this : t) (mbz prec len : Z) : t :=
  {| TypeSpecifier := TypeSpecifier this; Offset := Offset this;
     Type_ := Type_ this; Q := Q this;
     Width := Width this; Height := Height this;
     Mbz := mbz; Precision := prec; Length := len;
     QTable := QTable this |}.

(** [std::copy(first, last, std::back_inserter(QTable))] *)
Definition append_QTable (this : t) (data : list Z) : t :=
  {| TypeSpecifier := TypeSpecifier this; Offset := Offset this;
     Type_ := Type_ this; Q := Q this;
     Width := Width this; Height := Height this;
     Mbz := Mbz this; Precision := Precision this; Length := Length this;
     QTable := QTable this ++ data |}.

(** The iterator range [buffer.begin() + first, buffer.begin() + last). *)
Definition range (buffer : list Z) (first last : Z) : option (list Z) :=
  if decide (0 <= first /\ first <= last /\ last <= size buffer)
  then Some (take (Z.to_nat (last - first)) (drop (Z.to_nat first) buffer))
  else None.

Definition truncated_header : exn :=
  runtime_error
    "The available buffer size was less than the minimum JPEG RTP header length.".
Definition unsupported_type_specifier : exn :=
  runtime_error
    "This implementation does not support a non default RTP JPEG type specifier.".
Definition unsupported_restarts : exn :=
  runtime_error "This implementation does not support JPEG restarts.".
Definition truncated_quantization : exn :=
  runtime_error
    "The available buffer size is shorter than the JPEG Quantization header length.".

Definition Deserialise (this : t) (buffer : list Z) (startPosn : Z)
  : outcome t :=
  if decide (size_t (size buffer - startPosn) < JPEG_MIN_HEADER_LENGTH)
  then Throws this truncated_header
  else
    let rawBuffer i := byte_at buffer (startPosn + i) in
    ts ⟵ rawBuffer 0;
    off ⟵ read_24 buffer (startPosn + 1);
    ty ⟵ rawBuffer 4;
    q ⟵ rawBuffer 5;
    w ⟵ rawBuffer 6;
    h ⟵ rawBuffer 7;
    let this := set_base this ts off ty q w h in
    if decide (TypeSpecifier this <> JPEG_DEFAULT_TYPE_SPECIFIER)
    then Throws this unsupported_type_specifier
    else if decide (Type_ this >= JPEG_TYPE_RESTART_MARKER_START /\
                    Type_ this <= JPEG_TYPE_RESTART_MARKER_END)
    then Throws this unsupported_restarts
    else if decide (Offset this = 0 /\ Q this >= Q_TABLE_INBAND_MINIMUM)
    then
      if decide (size_t (size buffer - startPosn - JPEG_MIN_HEADER_LENGTH)
                 < JPEG_QUANTIZATION_HEADER_LENGTH)
      then Throws this truncated_header
      else
        mbz ⟵ rawBuffer 8;
        prec ⟵ rawBuffer 9;
        len ⟵ read_16 buffer (startPosn + 10);
        let this := set_quantization this mbz prec len in
        if decide (Length this > 0)
        then
          if decide (size_t (size buffer - startPosn - JPEG_MIN_HEADER_LENGTH
                             - JPEG_QUANTIZATION_HEADER_LENGTH) < Length this)
          then Throws this truncated_quantization
          else
            let first := startPosn + JPEG_MIN_HEADER_LENGTH
                         + JPEG_QUANTIZATION_HEADER_LENGTH in
            data ⟵ range buffer first (first + Length this);
            Returns (append_QTable this data)
        else Returns this
    else Returns this.

(** [Deserialise] leaves with exception [e]. *)
Definition raises (this : t) (buffer : list Z) (startPosn : Z) (e : exn)
  : Prop :=
  exists this', Deserialise this buffer startPosn = Throws this' e.

(** What follows the 8-byte base header of [buffer] is read as a
    quantization extension: on every buffer that has this base header
    and holds, after it, an extension header and the table that header
    announces, the call returns with [Mbz], [Precision] and [Length]
    taken from the four bytes after the base header and with the
    [Length] bytes that follow them appended to [QTable]. *)
Definition parses_extension (this : t) (buffer : list Z) (startPosn : Z)
  : Prop :=
  forall buffer' mbz prec len,
    size buffer' < 2 ^ 64 ->
    take (Z.to_nat (startPosn + JPEG_MIN_HEADER_LENGTH)) buffer'
    = take (Z.to_nat (startPosn + JPEG_MIN_HEADER_LENGTH)) buffer ->
    byte_at buffer' (startPosn + 8) = Some mbz ->
    byte_at buffer' (startPosn + 9) = Some prec ->
    read_16 buffer' (startPosn + 10) = Some len ->
    startPosn + 12 + len <= size buffer' ->
    exists this',
      Deserialise this buffer' startPosn = Returns this' /\
      Mbz this' = mbz /\ Precision this' = prec /\ Length this' = len /\
      QTable this'
      = QTable this
        ++ take (Z.to_nat len) (drop (Z.to_nat (startPosn + 12)) buffer').

(** A header object whose fields are all zero and whose table is empty. *)
Definition zero : t := mk 0 0 0 0 0 0 0 0 0 [].

End JpegRtpHeader.

(** ** class Huffman *)

Module Huffman.

Definition avpriv_mjpeg_bits_dc_luminance : list Z :=
  [ 0; 0; 1; 5; 1; 1; 1; 1; 1; 1; 0; 0; 0; 0; 0; 0; 0 ].
Definition avpriv_mjpeg_val_dc : list Z :=
  [ 0; 1; 2; 3; 4; 5; 6; 7; 8; 9; 10; 11 ].

Definition avpriv_mjpeg_bits_dc_chrominance : list Z :=
  [ 0; 0; 3; 1; 1; 1; 1; 1; 1; 1; 1; 1; 0; 0; 0; 0; 0 ].

Definition avpriv_mjpeg_bits_ac_luminance : list Z :=
  [ 0; 0; 2; 1; 3; 3; 2; 4; 3; 5; 5; 4; 4; 0; 0; 1; 0x7d ].
Definition avpriv_mjpeg_val_ac_luminance : list Z :=
  [ 0x01; 0x02; 0x03; 0x00; 0x04; 0x11; 0x05; 0x12;
    0x21; 0x31; 0x41; 0x06; 0x13; 0x51; 0x61; 0x07;
    0x22; 0x71; 0x14; 0x32; 0x81; 0x91; 0xa1; 0x08;
    0x23; 0x42; 0xb1; 0xc1; 0x15; 0x52; 0xd1; 0xf0;
    0x24; 0x33; 0x62; 0x72; 0x82; 0x09; 0x0a; 0x16;
    0x17; 0x18; 0x19; 0x1a; 0x25; 0x26; 0x27; 0x28;
    0x29; 0x2a; 0x34; 0x35; 0x36; 0x37; 0x38; 0x39;
    0x3a; 0x43; 0x44; 0x45; 0x46; 0x47; 0x48; 0x49;
    0x4a; 0x53; 0x54; 0x55; 0x56; 0x57; 0x58; 0x59;
    0x5a; 0x63; 0x64; 0x65; 0x66; 0x67; 0x68; 0x69;
    0x6a; 0x73; 0x74; 0x75; 0x76; 0x77; 0x78; 0x79;
    0x7a; 0x83; 0x84; 0x85; 0x86; 0x87; 0x88; 0x89;
    0x8a; 0x92; 0x93; 0x94; 0x95; 0x96; 0x97; 0x98;
    0x99; 0x9a; 0xa2; 0xa3; 0xa4; 0xa5; 0xa6; 0xa7;
    0xa8; 0xa9; 0xaa; 0xb2; 0xb3; 0xb4; 0xb5; 0xb6;
    0xb7; 0xb8; 0xb9; 0xba; 0xc2; 0xc3; 0xc4; 0xc5;
    0xc6; 0xc7; 0xc8; 0xc9; 0xca; 0xd2; 0xd3; 0xd4;
    0xd5; 0xd6; 0xd7; 0xd8; 0xd9; 0xda; 0xe1; 0xe2;
    0xe3; 0xe4; 0xe5; 0xe6; 0xe7; 0xe8; 0xe9; 0xea;
    0xf1; 0xf2; 0xf3; 0xf4; 0xf5; 0xf6; 0xf7; 0xf8;
    0xf9; 0xfa ].

Definition avpriv_mjpeg_bits_ac_chrominance : list Z :=
  [ 0; 0; 2; 1; 2; 4; 4; 3; 4; 7; 5; 4; 4; 0; 1; 2; 0x77 ].
Definition avpriv_mjpeg_val_ac_chrominance : list Z :=
  [ 0x00; 0x01; 0x02; 0x03; 0x11; 0x04; 0x05; 0x21;
    0x31; 0x06; 0x12; 0x41; 0x51; 0x07; 0x61; 0x71;
    0x13; 0x22; 0x32; 0x81; 0x08; 0x14; 0x42; 0x91;
    0xa1; 0xb1; 0xc1; 0x09; 0x23; 0x33; 0x52; 0xf0;
    0x15; 0x62; 0x72; 0xd1; 0x0a; 0x16; 0x24; 0x34;
    0xe1; 0x25; 0xf1; 0x17; 0x18; 0x19; 0x1a; 0x26;
    0x27; 0x28; 0x29; 0x2a; 0x35; 0x36; 0x37; 0x38;
    0x39; 0x3a; 0x43; 0x44; 0x45; 0x46; 0x47; 0x48;
    0x49; 0x4a; 0x53; 0x54; 0x55; 0x56; 0x57; 0x58;
    0x59; 0x5a; 0x63; 0x64; 0x65; 0x66; 0x67; 0x68;
    0x69; 0x6a; 0x73; 0x74; 0x75; 0x76; 0x77; 0x78;
    0x79; 0x7a; 0x82; 0x83; 0x84; 0x85; 0x86; 0x87;
    0x88; 0x89; 0x8a; 0x92; 0x93; 0x94; 0x95; 0x96;
    0x97; 0x98; 0x99; 0x9a; 0xa2; 0xa3; 0xa4; 0xa5;
    0xa6; 0xa7; 0xa8; 0xa9; 0xaa; 0xb2; 0xb3; 0xb4;
    0xb5; 0xb6; 0xb7; 0xb8; 0xb9; 0xba; 0xc2; 0xc3;
    0xc4; 0xc5; 0xc6; 0xc7; 0xc8; 0xc9; 0xca; 0xd2;
    0xd3; 0xd4; 0xd5; 0xd6; 0xd7; 0xd8; 0xd9; 0xda;
    0xe2; 0xe3; 0xe4; 0xe5; 0xe6; 0xe7; 0xe8; 0xe9;
    0xea; 0xf2; 0xf3; 0xf4; 0xf5; 0xf6; 0xf7; 0xf8;
    0xf9; 0xfa ].

(** [a[i] = v] through a pointer: outside the array it is undefined. *)
Definition store (a : list Z) (i v : Z) : option (list Z) :=
  if decide (0 <= i < size a) then Some (<[Z.to_nat i := v]> a) else None.

(** The variables the two loops of [ff_mjpeg_build_huffman_codes] work
    on: the two output arrays, [k] and [code]. *)
Record vars : Type := mkvars {
  huff_size : list Z;   (* uint8_t*  *)
  huff_code : list Z;   (* uint16_t* *)
  k : Z;                (* int *)
  code : Z              (* int *)
}.

(** [huff_size[sym] = i; huff_code[sym] = code;] *)
Definition set_symbol (v : vars) (sym i : Z) : option vars :=
  hs ← store (huff_size v) sym (uint8 i);
  hc ← store (huff_code v) sym (uint16 (code v));
  Some (mkvars hs hc (k v) (code v)).

(** The body of the inner loop, lines 292-297. *)
Definition inner_body (val_table : list Z) (i : Z) (v : vars)
  : option vars :=
  sym ← byte_at val_table (k v);
  let v := mkvars (huff_size v) (huff_code v) (k v + 1) (code v) in
  v ← (if decide (sym <> 0) then set_symbol v sym i
       else
         s ← byte_at (huff_size v) sym;
         if decide (s = 0) then set_symbol v sym i else Some v);
  Some (mkvars (huff_size v) (huff_code v) (k v) (code v + 1)).

(** [for (j = 0; j < nb; j++) body] *)
Fixpoint repeat_body (body : vars -> option vars) (nb : nat) (v : vars)
  : option vars :=
  match nb with
  | O => Some v
  | S nb => v ← body v; repeat_body body nb v
  end.

(** The body of the outer loop, lines 290-299, over an inner body. *)
Definition outer_body (bits_table : list Z)
    (body : Z -> vars -> option vars) (i : Z) (v : vars) : option vars :=
  nb ← byte_at bits_table i;
  v ← repeat_body (body i) (Z.to_nat nb) v;
  Some (mkvars (huff_size v) (huff_code v) (k v) (Z.shiftl (code v) 1)).

(** [for (i = first; ...; i++) body] over the values [range] of [i]. *)
Fixpoint for_each (range : list Z) (body : Z -> vars -> option vars)
    (v : vars) : option vars :=
  match range with
  | [] => Some v
  | i :: range => v ← body i v; for_each range body v
  end.

Definition build_with (body : Z -> vars -> option vars)
    (huff_size huff_code bits_table : list Z) : option (list Z * list Z) :=
  hs ← store huff_size 0 0;
  v ← for_each (seqZ 1 16) (outer_body bits_table body)
        (mkvars hs huff_code 0 0);
  Some (Huffman.huff_size v, Huffman.huff_code v).

(** The function returns the two arrays as they are after the call. *)
Definition ff_mjpeg_build_huffman_codes
    (huff_size huff_code bits_table val_table : list Z)
  : option (list Z * list Z) :=
  build_with (inner_body val_table) huff_size huff_code bits_table.

(** *** Reference definitions for the code assignment *)

(** The canonical assignment as section 4.4 of the spec words it: walk
    the code lengths 1..16; at each length give [bitsTable[length]]
    consecutive codes, then shift the running code left by one.  The
    result lists, position by position of the value table, the length
    and the code of that position.  [lens] is [bitsTable[i..16]]. *)
Fixpoint consecutive (i code : Z) (nb : nat) : list (Z * Z) :=
  match nb with
  | O => []
  | S nb => (i, code) :: consecutive i (code + 1) nb
  end.

Fixpoint canonical_from (i : Z) (lens : list Z) (code : Z)
  : list (Z * Z) :=
  match lens with
  | [] => []
  | nb :: lens =>
      consecutive i code (Z.to_nat nb)
      ++ canonical_from (i + 1) lens (Z.shiftl (code + nb) 1)
  end.

Definition canonical (bits_table : list Z) : list (Z * Z) :=
  canonical_from 1 (take 16 (drop 1 bits_table)) 0.

(** One position of the value table: symbol [sym] is given length
    [len] and code [c].  With [guarded], a symbol 0 whose length is
    already set is left alone. *)
Definition assign (guarded : bool) (a : list Z * list Z)
    (e : Z * (Z * Z)) : list Z * list Z :=
  let '(sym, (len, c)) := e in
  if guarded && bool_decide (sym = 0 /\ a.1 !! 0%nat <> Some 0)
  then a
  else (<[Z.to_nat sym := uint8 len]> a.1, <[Z.to_nat sym := uint16 c]> a.2).

(** The arrays after the symbols of [val_table] have been given, in
    order, the lengths and codes of [canonical bits_table]. *)
Definition assign_all (guarded : bool) (huff_size huff_code : list Z)
    (bits_table val_table : list Z) : list Z * list Z :=
  foldl (assign guarded) (<[0%nat := 0]> huff_size, huff_code)
        (zip val_table (canonical bits_table)).

(** The symbols of a list of assignments are array indices. *)
Definition symbols_ok (es : list (Z * (Z * Z))) : Prop :=
  Forall (fun e => 0 <= e.1) es.

Definition arrays (v : vars) : list Z * list Z :=
  (huff_size v, huff_code v).
Definition with_arrays (a : list Z * list Z) (k code : Z) : vars :=
  mkvars a.1 a.2 k code.

(** What one turn of an inner loop does when it follows [assign]: it
    takes the next symbol of the value table, assigns it the current
    length and code, and advances [k] and [code]. *)
Definition follows (val_table : list Z) (guarded : bool)
    (body : Z -> vars -> option vars) : Prop :=
  forall i v sym,
    byte_at val_table (k v) = Some sym ->
    length (huff_size v) = 256%nat -> length (huff_code v) = 256%nat ->
    body i v
    = Some (with_arrays (assign guarded (arrays v) (sym, (i, code v)))
              (k v + 1) (code v + 1)).

(** The inner body without the guard on symbol 0: every occurrence
    assigns.  It is what the source would do "if the duplicate had been
    assigned", and is only used to compare with [inner_body]. *)
Definition inner_body_unguarded (val_table : list Z) (i : Z) (v : vars)
  : option vars :=
  sym ← byte_at val_table (k v);
  let v := mkvars (huff_size v) (huff_code v) (k v + 1) (code v) in
  v ← set_symbol v sym i;
  Some (mkvars (huff_size v) (huff_code v) (k v) (code v + 1)).

Definition build_unguarded
    (huff_size huff_code bits_table val_table : list Z)
  : option (list Z * list Z) :=
  build_with (inner_body_unguarded val_table) huff_size huff_code bits_table.

(** A malformed table: one code of length 1 and two of length 2, and a
    value table in which symbol 0 occurs at positions 0 and 2. *)
Definition duplicate_zero_bits : list Z :=
  [ 0; 1; 2; 0; 0; 0; 0; 0; 0; 0; 0; 0; 0; 0; 0; 0; 0 ].
Definition duplicate_zero_vals : list Z := [ 0; 5; 0 ].

(** A value table for the same counts in which a symbol follows the
    second occurrence of symbol 0. *)
Definition skipped_zero_vals : list Z := [ 0; 0; 5 ].

End Huffman.

(** ** The bounded byte writer *)

Module ByteStream.

(** Modelled from the spec: the [PutByteContext] writer
    ([bytestream2_init_writer], [bytestream2_put_byte],
    [bytestream2_put_be16], [bytestream2_put_buffer],
    [bytestream2_tell_p], [AV_WB16]) is not among the sources.  Section
    4.5 of the spec has the builder emit its bytes, in order, into an
    output buffer and return the number of bytes written; 16-bit
    quantities are big-endian (section 6).  The writer is given the
    buffer and its [size]: a write that does not fit is not performed
    (a byte or a word is dropped as a whole and sets [eof]; a block is
    cut to the room that is left).  The context holds the bytes written
    so far, [buffer_end] is the capacity. *)
Record PutByteContext : Type := mkctx {
  written : list Z;
  buffer_end : Z;
  eof : bool
}.

Definition bytestream2_init_writer (size : Z) : PutByteContext :=
  mkctx [] size false.

Definition room (p : PutByteContext) : Z := buffer_end p - size (written p).

Definition bytestream2_put_byte (p : PutByteContext) (value : Z)
  : PutByteContext :=
  if negb (eof p) && bool_decide (1 <= room p)
  then mkctx (written p ++ [uint8 value]) (buffer_end p) (eof p)
  else mkctx (written p) (buffer_end p) true.

Definition bytestream2_put_be16 (p : PutByteContext) (value : Z)
  : PutByteContext :=
  if negb (eof p) && bool_decide (2 <= room p)
  then mkctx (written p ++ [uint8 (Z.shiftr value 8); uint8 value])
             (buffer_end p) (eof p)
  else mkctx (written p) (buffer_end p) true.

Definition bytestream2_put_buffer (p : PutByteContext) (src : list Z)
  : PutByteContext :=
  if eof p then p
  else
    let size2 := Z.min (room p) (size src) in
    mkctx (written p ++ take (Z.to_nat size2) src) (buffer_end p)
          (bool_decide (size2 <> size src)).

Definition bytestream2_tell_p (p : PutByteContext) : Z := size (written p).

(** [AV_WB16(ptr, value)] where [ptr] is the value [p.buffer] had when
    [at_] bytes were written: a raw two-byte store, undefined when it
    does not fall on bytes of the buffer that were written. *)
Definition AV_WB16 (p : PutByteContext) (at_ : Z) (value : Z)
  : option PutByteContext :=
  if decide (0 <= at_ /\ at_ + 2 <= size (written p))
  then Some (mkctx (<[Z.to_nat at_ := uint8 (Z.shiftr value 8)]>
                     (<[Z.to_nat (at_ + 1) := uint8 value]> (written p)))
                   (buffer_end p) (eof p))
  else None.

(** [n] bytes at [src + from]; outside the source array it is undefined. *)
Definition bytes_at (src : list Z) (from n : Z) : option (list Z) :=
  if decide (0 <= from /\ 0 <= n /\ from + n <= size src)
  then Some (take (Z.to_nat n) (drop (Z.to_nat from) src))
  else None.

End ByteStream.

Import ByteStream.

(** ** class Jfif *)

Module Jfif.

(** The JPEG marker codes of [enum JpegMarker] the builder uses. *)
Definition SOF0 : Z := 0xc0.
Definition DHT : Z := 0xc4.
Definition SOI : Z := 0xd8.
Definition SOS : Z := 0xda.
Definition DQT : Z := 0xdb.
Definition DRI : Z := 0xdd.
Definition APP0 : Z := 0xe0.

(** A loop that threads the writer and an accumulator and may run into
    undefined behaviour. *)
Fixpoint for_each {A : Type} (range : list Z)
    (body : Z -> A * PutByteContext -> option (A * PutByteContext))
    (s : A * PutByteContext) : option (A * PutByteContext) :=
  match range with
  | [] => Some s
  | i :: range => s ← body i s; for_each range body s
  end.

(** Returns [n + 17] and the writer. *)
Definition jpeg_create_huffman_table (p : PutByteContext)
    (table_class table_id : Z) (bits_table value_table : list Z)
  : option (Z * PutByteContext) :=
  let p := bytestream2_put_byte p (Z.lor (Z.shiftl table_class 4) table_id) in
  '(n, p) ← for_each (seqZ 1 16)
              (fun i '(n, p) =>
                 b ← byte_at bits_table i;
                 Some (n + b, bytestream2_put_byte p b))
              (0, p);
  '(_, p) ← for_each (seqZ 0 n)
              (fun i '(u, p) =>
                 b ← byte_at value_table i;
                 Some (u, bytestream2_put_byte p b))
              (tt, p);
  Some (n + 17, p).

Definition jpeg_put_marker (pbc : PutByteContext) (code : Z)
  : PutByteContext :=
  let pbc := bytestream2_put_byte pbc 0xff in
  bytestream2_put_byte pbc code.

(** ["JFIF"] with its terminating NUL: [bytestream2_put_buffer(&pbc,
    "JFIF", 5)]. *)
Definition JFIF_id : list Z := [74; 70; 73; 70; 0].

(** Returns the bytes written into [buf] and the [int] result.  [type],
    [w] and [h] are [uint32_t], [nb_qtable] and [dri] are [int]. *)
Definition jpeg_create_header (size : Z) (type w h : Z) (qtable : list Z)
    (nb_qtable dri : Z) : option (list Z * Z) :=
  let pbc := bytestream2_init_writer size in

  (* Convert from blocks to pixels. *)
  let w := uint32 (Z.shiftl w 3) in
  let h := uint32 (Z.shiftl h 3) in

  (* SOI *)
  let pbc := jpeg_put_marker pbc SOI in

  (* JFIF header *)
  let pbc := jpeg_put_marker pbc APP0 in
  let pbc := bytestream2_put_be16 pbc 16 in
  let pbc := bytestream2_put_buffer pbc JFIF_id in
  let pbc := bytestream2_put_be16 pbc 0x0201 in
  let pbc := bytestream2_put_byte pbc 0 in
  let pbc := bytestream2_put_be16 pbc 1 in
  let pbc := bytestream2_put_be16 pbc 1 in
  let pbc := bytestream2_put_byte pbc 0 in
  let pbc := bytestream2_put_byte pbc 0 in

  let pbc :=
    if decide (dri <> 0) then
      let pbc := jpeg_put_marker pbc DRI in
      let pbc := bytestream2_put_be16 pbc 4 in
      bytestream2_put_be16 pbc dri
    else pbc in

  (* DQT *)
  let pbc := jpeg_put_marker pbc DQT in
  let pbc := bytestream2_put_be16 pbc (2 + nb_qtable * (1 + 64)) in
  '(_, pbc) ← for_each (seqZ 0 nb_qtable)
                (fun i '(u, pbc) =>
                   let pbc := bytestream2_put_byte pbc i in
                   table ← bytes_at qtable (64 * i) 64;
                   Some (u, bytestream2_put_buffer pbc table))
                (tt, pbc);

  (* DHT *)
  let pbc := jpeg_put_marker pbc DHT in
  let dht_size_ptr := bytestream2_tell_p pbc in
  let pbc := bytestream2_put_be16 pbc 0 in

  let dht_size := 2 in
  '(n, pbc) ← jpeg_create_huffman_table pbc 0 0
                Huffman.avpriv_mjpeg_bits_dc_luminance
                Huffman.avpriv_mjpeg_val_dc;
  let dht_size := dht_size + n in
  '(n, pbc) ← jpeg_create_huffman_table pbc 0 1
                Huffman.avpriv_mjpeg_bits_dc_chrominance
                Huffman.avpriv_mjpeg_val_dc;
  let dht_size := dht_size + n in
  '(n, pbc) ← jpeg_create_huffman_table pbc 1 0
                Huffman.avpriv_mjpeg_bits_ac_luminance
                Huffman.avpriv_mjpeg_val_ac_luminance;
  let dht_size := dht_size + n in
  '(n, pbc) ← jpeg_create_huffman_table pbc 1 1
                Huffman.avpriv_mjpeg_bits_ac_chrominance
                Huffman.avpriv_mjpeg_val_ac_chrominance;
  let dht_size := dht_size + n in
  pbc ← AV_WB16 pbc dht_size_ptr dht_size;

  (* SOF0 *)
  let pbc := jpeg_put_marker pbc SOF0 in
  let pbc := bytestream2_put_be16 pbc 17 in
  let pbc := bytestream2_put_byte pbc 8 in
  let pbc := bytestream2_put_be16 pbc h in
  let pbc := bytestream2_put_be16 pbc w in
  let pbc := bytestream2_put_byte pbc 3 in
  let pbc := bytestream2_put_byte pbc 1 in
  let pbc := bytestream2_put_byte pbc
               (Z.lor (Z.shiftl 2 4) (if decide (type <> 0) then 2 else 1)) in
  let pbc := bytestream2_put_byte pbc 0 in
  let pbc := bytestream2_put_byte pbc 2 in
  let pbc := bytestream2_put_byte pbc (Z.lor (Z.shiftl 1 4) 1) in
  let pbc := bytestream2_put_byte pbc (if decide (nb_qtable = 2) then 1 else 0) in
  let pbc := bytestream2_put_byte pbc 3 in
  let pbc := bytestream2_put_byte pbc (Z.lor (Z.shiftl 1 4) 1) in
  let pbc := bytestream2_put_byte pbc (if decide (nb_qtable = 2) then 1 else 0) in

  (* SOS *)
  let pbc := jpeg_put_marker pbc SOS in
  let pbc := bytestream2_put_be16 pbc 12 in
  let pbc := bytestream2_put_byte pbc 3 in
  let pbc := bytestream2_put_byte pbc 1 in
  let pbc := bytestream2_put_byte pbc 0 in
  let pbc := bytestream2_put_byte pbc 2 in
  let pbc := bytestream2_put_byte pbc 17 in
  let pbc := bytestream2_put_byte pbc 3 in
  let pbc := bytestream2_put_byte pbc 17 in
  let pbc := bytestream2_put_byte pbc 0 in
  let pbc := bytestream2_put_byte pbc 63 in
  let pbc := bytestream2_put_byte pbc 0 in

  (* Return the length in bytes of the JPEG header. *)
  Some (written pbc, bytestream2_tell_p pbc).

(** *** The layout of the header, segment by segment (section 4.5) *)

(** A 16-bit quantity, most significant byte first. *)
Definition be16 (v : Z) : list Z := [uint8 (Z.shiftr v 8); uint8 v].

Definition soi_segment : list Z := [0xff; SOI].

(** Marker, length 16, ["JFIF\0"], the two version bytes, units 0,
    densities 1 and 1, a 0 by 0 thumbnail. *)
Definition app0_segment (version_major version_minor : Z) : list Z :=
  [0xff; APP0] ++ be16 16 ++ JFIF_id ++ [version_major; version_minor]
  ++ [0] ++ be16 1 ++ be16 1 ++ [0; 0].

Definition dri_segment (dri : Z) : list Z :=
  if decide (dri <> 0) then [0xff; DRI] ++ be16 4 ++ be16 dri else [].

Fixpoint dqt_tables (qtable : list Z) (i : Z) (n : nat) : list Z :=
  match n with
  | O => []
  | S n => [uint8 i] ++ take 64 (drop (Z.to_nat (64 * i)) qtable)
           ++ dqt_tables qtable (i + 1) n
  end.

Definition dqt_segment (qtable : list Z) (nb_qtable : Z) : list Z :=
  [0xff; DQT] ++ be16 (2 + nb_qtable * (1 + 64))
  ++ dqt_tables qtable 0 (Z.to_nat nb_qtable).

(** Class/id byte, the 16 counts, the symbols they count. *)
Definition dht_table (table_class table_id : Z)
    (bits_table value_table : list Z) : list Z :=
  let counts := take 16 (drop 1 bits_table) in
  [uint8 (Z.lor (Z.shiftl table_class 4) table_id)]
  ++ (uint8 <$> counts)
  ++ (uint8 <$> take (Z.to_nat (foldl Z.add 0 counts)) value_table).

Definition dht_tables : list Z :=
  dht_table 0 0 Huffman.avpriv_mjpeg_bits_dc_luminance
    Huffman.avpriv_mjpeg_val_dc
  ++ dht_table 0 1 Huffman.avpriv_mjpeg_bits_dc_chrominance
       Huffman.avpriv_mjpeg_val_dc
  ++ dht_table 1 0 Huffman.avpriv_mjpeg_bits_ac_luminance
       Huffman.avpriv_mjpeg_val_ac_luminance
  ++ dht_table 1 1 Huffman.avpriv_mjpeg_bits_ac_chrominance
       Huffman.avpriv_mjpeg_val_ac_chrominance.

Definition dht_segment : list Z :=
  [0xff; DHT] ++ be16 (2 + size dht_tables) ++ dht_tables.

(** Marker, length 17, precision, height, width, the number of
    components, then for each component its number, its sampling
    factors and its quantization table. *)
Definition sof0_segment (precision height width : Z)
    (components : list (Z * Z * Z)) : list Z :=
  [0xff; SOF0] ++ be16 17 ++ [precision] ++ be16 height ++ be16 width
  ++ [Z.of_nat (length components)]
  ++ concat ((fun c => [c.1.1; c.1.2; c.2]) <$> components).

Definition sos_segment : list Z :=
  [0xff; SOS] ++ be16 12 ++ [3; 1; 0; 2; 17; 3; 17; 0; 63; 0].

(** The three components of the frame header: Y, Cb and Cr. *)
Definition components (type nb_qtable : Z) : list (Z * Z * Z) :=
  [ (1, Z.lor (Z.shiftl 2 4) (if decide (type <> 0) then 2 else 1), 0);
    (2, Z.lor (Z.shiftl 1 4) 1, if decide (nb_qtable = 2) then 1 else 0);
    (3, Z.lor (Z.shiftl 1 4) 1, if decide (nb_qtable = 2) then 1 else 0) ].

(** The whole header, for the two version bytes given. *)
Definition header_layout (version_major version_minor : Z)
    (type w h : Z) (qtable : list Z) (nb_qtable dri : Z) : list Z :=
  soi_segment ++ app0_segment version_major version_minor
  ++ dri_segment dri ++ dqt_segment qtable nb_qtable ++ dht_segment
  ++ sof0_segment 8 (uint32 (Z.shiftl h 3)) (uint32 (Z.shiftl w 3))
       (components type nb_qtable)
  ++ sos_segment.

(** Modelled from the spec: [av_clip] is not among the sources; the
    spec calls its two uses clamping to [1,99] and to [1,255]. *)
Definition av_clip (a amin amax : Z) : Z :=
  if decide (a < amin) then amin
  else if decide (a > amax) then amax
  else a.

Section DefaultQuantizers.

(** The base table [default_quantizers] is declared outside the
    sources: 128 [uint8_t] entries, the luma group followed by the
    chroma group. *)
Variable default_quantizers : list Z.

(** The entries [qtables[0..127]] the function stores; [q] is a
    [uint8_t].  Reading the base table outside of its bounds is
    undefined. *)
Definition create_default_qtables (q : Z) : option (list Z) :=
  let factor := q in
  let factor := av_clip q 1 99 in
  let S := if decide (q < 50)
           then uint16 (5000 `quot` factor)
           else uint16 (200 - factor * 2) in
  mapM (fun i =>
          base ← byte_at default_quantizers i;
          let val := (base * S + 50) `quot` 100 in
          (* Limit the quantizers to 1 <= q <= 255. *)
          let val := av_clip val 1 255 in
          Some (uint8 val))
       (seqZ 0 128).

End DefaultQuantizers.

(** The base tables of JPEG Annex K in zig-zag order, luma then chroma:
    a table to run [create_default_qtables] on. *)
Definition annex_k_quantizers : list Z :=
  [ 16; 11; 12; 14; 12; 10; 16; 14;
    13; 14; 18; 17; 16; 19; 24; 40;
    26; 24; 22; 22; 24; 49; 35; 37;
    29; 40; 58; 51; 61; 60; 57; 51;
    56; 55; 64; 72; 92; 78; 64; 68;
    87; 69; 55; 56; 80; 109; 81; 87;
    95; 98; 103; 104; 103; 62; 77; 113;
    121; 112; 100; 120; 92; 101; 103; 99;
    17; 18; 18; 24; 21; 24; 47; 26;
    26; 47; 99; 66; 56; 66; 99; 99;
    99; 99; 99; 99; 99; 99; 99; 99;
    99; 99; 99; 99; 99; 99; 99; 99;
    99; 99; 99; 99; 99; 99; 99; 99;
    99; 99; 99; 99; 99; 99; 99; 99;
    99; 99; 99; 99; 99; 99; 99; 99;
    99; 99; 99; 99; 99; 99; 99; 99 ].

End Jfif.

(** ** Further definitions used to state properties *)

Module RtpWire.

Import RtpHeader.

(** A header with every field cut to its declared bit width: what
    [Serialise] puts on the wire of a header. *)
Definition truncate (h : t) : t :=
  {| Version := Version h mod 2 ^ 2;
     PaddingFlag := PaddingFlag h mod 2 ^ 1;
     HeaderExtensionFlag := HeaderExtensionFlag h mod 2 ^ 1;
     CSRCCount := CSRCCount h mod 2 ^ 4;
     MarkerBit := MarkerBit h mod 2 ^ 1;
     PayloadType := PayloadType h mod 2 ^ 7;
     SeqNum := SeqNum h mod 2 ^ 16;
     Timestamp := Timestamp h mod 2 ^ 32;
     SyncSource := SyncSource h mod 2 ^ 32 |}.

End RtpWire.


Module JpegSegment.
Import Jfif.

(** A marker segment: [0xff], the marker code, the length of what
    follows as a 16-bit big-endian number (the two bytes of the length
    field counted in), and the payload.  There is no such segment for a
    payload whose length does not fit the field. *)
Definition segment (marker : Z) (payload : list Z) : option (list Z) :=
  if decide (2 + size payload < 2 ^ 16)
  then Some ([0xff; marker] ++ be16 (2 + size payload) ++ payload)
  else None.

(** Segments one after the other, each given by its marker and its
    payload. *)
Definition segments (l : list (Z * list Z)) : option (list Z) :=
  ss ← mapM (fun s => segment s.1 s.2) l; Some (concat ss).

End JpegSegment.

Module HuffmanCode.

(** The Kraft sum of the counts [lens] of codes of [length lens]
    successive lengths, in units of the longest of them: a code of the
    first length weighs [2 ^ (length lens - 1)], one of the last
    weighs 1. *)
Fixpoint kraft (lens : list Z) : Z :=
  match lens with
  | [] => 0
  | nb :: lens => nb * 2 ^ Z.of_nat (length lens) + kraft lens
  end.

End HuffmanCode.

(** * Properties *)

(** ** Fixed-width integers and buffers *)

Section WireFacts.

Lemma uint8_id z : is_uint8 z -> uint8 z = z.
Proof. unfold is_uint8, uint8. intros. by apply Z.mod_small. Qed.

Lemma uint16_id z : is_uint16 z -> uint16 z = z.
Proof. unfold is_uint16, uint16. intros. by apply Z.mod_small. Qed.

Lemma uint32_id z : is_uint32 z -> uint32 z = z.
Proof. unfold is_uint32, uint32. intros. by apply Z.mod_small. Qed.

Lemma uint8_is_uint8 z : is_uint8 (uint8 z).
Proof. unfold is_uint8, uint8. apply Z.mod_pos_bound. lia. Qed.

Lemma size_app (l1 l2 : list Z) : size (l1 ++ l2) = size l1 + size l2.
Proof. unfold size. rewrite length_app. lia. Qed.

Lemma size_nonneg (l : list Z) : 0 <= size l.
Proof. unfold size. lia. Qed.

Lemma byte_at_lookup (buffer : list Z) (i : nat) :
  byte_at buffer (Z.of_nat i) = buffer !! i.
Proof.
  unfold byte_at. rewrite decide_True by lia. by rewrite Nat2Z.id.
Qed.

Lemma byte_at_app_r (l1 l2 : list Z) i :
  0 <= i -> byte_at (l1 ++ l2) (size l1 + i) = byte_at l2 i.
Proof.
  intros Hi. unfold byte_at, size.
  rewrite !decide_True by lia.
  rewrite lookup_app_r by lia. f_equal. lia.
Qed.

Lemma byte_at_is_Some (buffer : list Z) i :
  0 <= i < size buffer -> exists b, byte_at buffer i = Some b.
Proof.
  unfold size, byte_at. intros Hi. rewrite decide_True by lia.
  destruct (lookup_lt_is_Some_2 buffer (Z.to_nat i)) as [b Hb]; [lia|].
  by exists b.
Qed.

Lemma byte_at_Some_inv (buffer : list Z) i b :
  byte_at buffer i = Some b -> 0 <= i < size buffer.
Proof.
  unfold byte_at, size. case_decide; [|done].
  intros Hb%lookup_lt_Some. lia.
Qed.

Lemma byte_at_uint8 (buffer : list Z) i b :
  Forall is_uint8 buffer -> byte_at buffer i = Some b -> is_uint8 b.
Proof.
  unfold byte_at. intros Hall. case_decide; [|done].
  intros Hb. by eapply Forall_lookup_1.
Qed.

(** [a << n | b] is [a * 2^n + b] when [b] has [n] bits. *)
Lemma lor_shiftl_add a b n :
  0 <= n -> 0 <= b < 2 ^ n -> Z.lor (Z.shiftl a n) b = a * 2 ^ n + b.
Proof.
  intros Hn Hb.
  rewrite Z.shiftl_mul_pow2 by done.
  assert (Hd : Z.land (a * 2 ^ n) b = 0).
  { apply Z.bits_inj'. intros m Hm. rewrite Z.land_spec, Z.bits_0.
    destruct (decide (m < n)).
    - rewrite Z.mul_pow2_bits_low by lia. done.
    - destruct (decide (b = 0)) as [->|]; [by rewrite Z.bits_0, andb_false_r|].
      rewrite (Z.bits_above_log2 b m); [apply andb_false_r|lia|].
      apply Z.log2_lt_pow2; [lia|].
      eapply Z.lt_le_trans; [apply Hb|]. apply Z.pow_le_mono_r; lia. }
  rewrite <- Z.lxor_lor by done. symmetry. by apply Z.add_nocarry_lxor.
Qed.

(** The big-endian value of two, three and four bytes. *)
Lemma be16_value b0 b1 :
  is_uint8 b0 -> is_uint8 b1 ->
  uint16 (Z.lor (Z.shiftl b0 8) b1) = b0 * 256 + b1.
Proof.
  unfold is_uint8. intros H0 H1.
  rewrite lor_shiftl_add by lia.
  apply uint16_id. unfold is_uint16. lia.
Qed.

Lemma be24_value b0 b1 b2 :
  is_uint8 b0 -> is_uint8 b1 -> is_uint8 b2 ->
  uint32 (Z.lor (Z.shiftl b0 16) (Z.lor (Z.shiftl b1 8) b2))
  = b0 * 65536 + b1 * 256 + b2.
Proof.
  unfold is_uint8. intros H0 H1 H2.
  rewrite (lor_shiftl_add b1) by lia.
  rewrite lor_shiftl_add by lia.
  rewrite uint32_id; [lia|]. unfold is_uint32. lia.
Qed.

Lemma be32_value b0 b1 b2 b3 :
  is_uint8 b0 -> is_uint8 b1 -> is_uint8 b2 -> is_uint8 b3 ->
  uint32 (Z.lor (Z.shiftl b0 24)
           (Z.lor (Z.shiftl b1 16) (Z.lor (Z.shiftl b2 8) b3)))
  = b0 * 16777216 + b1 * 65536 + b2 * 256 + b3.
Proof.
  unfold is_uint8. intros H0 H1 H2 H3.
  rewrite (lor_shiftl_add b2) by lia.
  rewrite (lor_shiftl_add b1) by lia.
  rewrite lor_shiftl_add by lia.
  rewrite uint32_id; [lia|]. unfold is_uint32. lia.
Qed.

(** The bytes of a value, most significant first, give the value back. *)
Lemma be16_bytes v :
  is_uint16 v -> uint8 (Z.shiftr v 8) * 256 + uint8 v = v.
Proof.
  unfold is_uint16, uint8. intros Hv.
  rewrite Z.shiftr_div_pow2 by lia.
  change (2 ^ 8) with 256. change (2 ^ 16) with 65536 in Hv.
  Z.div_mod_to_equations. lia.
Qed.

Lemma be32_bytes v :
  is_uint32 v ->
  uint8 (Z.shiftr v 24) * 16777216 + uint8 (Z.shiftr v 16) * 65536
  + uint8 (Z.shiftr v 8) * 256 + uint8 v = v.
Proof.
  unfold is_uint32, uint8. intros Hv.
  rewrite !Z.shiftr_div_pow2 by lia.
  change (2 ^ 8) with 256. change (2 ^ 16) with 65536.
  change (2 ^ 24) with 16777216. change (2 ^ 32) with 4294967296 in Hv.
  Z.div_mod_to_equations. lia.
Qed.

End WireFacts.

(** ** RtpHeader *)

Section RtpHeaderFacts.

Import RtpHeader.

(** A decidable property of a bounded integer is checked on each value. *)
Lemma forall_below (n : Z) (P : Z -> bool) :
  forallb P (seqZ 0 n) = true -> forall x, 0 <= x < n -> P x = true.
Proof.
  intros Hall x Hx.
  rewrite forallb_forall in Hall. apply Hall.
  apply list_elem_of_In, elem_of_seqZ. lia.
Qed.

Lemma first_byte_unpacks v p x cc :
  0 <= v < 2 ^ 2 -> 0 <= p < 2 ^ 1 -> 0 <= x < 2 ^ 1 -> 0 <= cc < 2 ^ 4 ->
  let b0 := uint8 (Z.lor (Z.lor (Z.lor
                    (Z.land (Z.shiftl v 6) 0xc0)
                    (Z.land (Z.shiftl p 5) 0x20))
                    (Z.land (Z.shiftl x 4) 0x10))
                    (Z.land cc 0x0f)) in
  uint8 (Z.land (Z.shiftr b0 6) 0x03) = v /\
  uint8 (Z.land (Z.shiftr b0 5) 0x01) = p /\
  uint8 (Z.land (Z.shiftr b0 4) 0x01) = x /\
  uint8 (Z.land b0 0x0f) = cc.
Proof.
  intros Hv Hp Hx Hcc.
  pose (ok := fun v p x cc =>
    let b0 := uint8 (Z.lor (Z.lor (Z.lor
                    (Z.land (Z.shiftl v 6) 0xc0)
                    (Z.land (Z.shiftl p 5) 0x20))
                    (Z.land (Z.shiftl x 4) 0x10))
                    (Z.land cc 0x0f)) in
    (uint8 (Z.land (Z.shiftr b0 6) 0x03) =? v) &&
    (uint8 (Z.land (Z.shiftr b0 5) 0x01) =? p) &&
    (uint8 (Z.land (Z.shiftr b0 4) 0x01) =? x) &&
    (uint8 (Z.land b0 0x0f) =? cc)).
  assert (Hok : ok v p x cc = true).
  { revert cc Hcc. apply forall_below.
    revert x Hx. apply (forall_below _ (fun x => forallb _ _)).
    revert p Hp. apply (forall_below _ (fun p => forallb _ _)).
    revert v Hv. apply (forall_below _ (fun v => forallb _ _)).
    by vm_compute. }
  unfold ok in Hok. cbv zeta.
  rewrite !andb_true_iff, !Z.eqb_eq in Hok. tauto.
Qed.

Lemma second_byte_unpacks m pt :
  0 <= m < 2 ^ 1 -> 0 <= pt < 2 ^ 7 ->
  let b1 := uint8 (Z.lor (Z.land (Z.shiftl m 7) 0x80) (Z.land pt 0x7f)) in
  uint8 (Z.land (Z.shiftr b1 7) 0x01) = m /\
  uint16 (Z.land b1 0x7f) = pt.
Proof.
  intros Hm Hpt.
  pose (ok := fun m pt =>
    let b1 := uint8 (Z.lor (Z.land (Z.shiftl m 7) 0x80) (Z.land pt 0x7f)) in
    (uint8 (Z.land (Z.shiftr b1 7) 0x01) =? m) &&
    (uint16 (Z.land b1 0x7f) =? pt)).
  assert (Hok : ok m pt = true).
  { revert pt Hpt. apply forall_below.
    revert m Hm. apply (forall_below _ (fun m => forallb _ _)).
    by vm_compute. }
  unfold ok in Hok. cbv zeta.
  rewrite !andb_true_iff, !Z.eqb_eq in Hok. tauto.
Qed.

Lemma read_16_app_r (l1 l2 : list Z) i :
  0 <= i -> read_16 (l1 ++ l2) (size l1 + i) = read_16 l2 i.
Proof.
  intros Hi. unfold read_16.
  rewrite <- !Z.add_assoc. by rewrite !byte_at_app_r by lia.
Qed.

Lemma read_24_app_r (l1 l2 : list Z) i :
  0 <= i -> read_24 (l1 ++ l2) (size l1 + i) = read_24 l2 i.
Proof.
  intros Hi. unfold read_24.
  rewrite <- !Z.add_assoc. by rewrite !byte_at_app_r by lia.
Qed.

Lemma read_32_app_r (l1 l2 : list Z) i :
  0 <= i -> read_32 (l1 ++ l2) (size l1 + i) = read_32 l2 i.
Proof.
  intros Hi. unfold read_32.
  rewrite <- !Z.add_assoc. by rewrite !byte_at_app_r by lia.
Qed.

Lemma serialise_deserialise (this h : t) (buf : list Z) :
  within_widths h ->
  Deserialise this (Serialise h buf) (size buf) = Returns h.
Proof.
  intros (Hv & Hp & Hx & Hcc & Hm & Hpt & Hseq & Hts & Hss).
  destruct h as [v p x cc m pt seq ts ss]; simpl in *.
  unfold Serialise, write_32, write_16; simpl.
  rewrite <- !app_assoc; simpl.
  unfold Deserialise.
  rewrite decide_False; last first.
  { rewrite size_app. unfold size_t, RTP_MINIMUM_HEADER_LENGTH.
    replace (size buf + _ - size buf) with 12 by (unfold size; simpl; lia).
    by vm_compute. }
  cbv zeta.
  rewrite !byte_at_app_r by lia.
  rewrite read_16_app_r, !read_32_app_r by lia.
  unfold read_16, read_32; simpl.
  rewrite be16_value, !be32_value by apply uint8_is_uint8.
  rewrite be16_bytes, !be32_bytes by done.
  destruct (first_byte_unpacks v p x cc) as (-> & -> & -> & ->); [done..|].
  destruct (second_byte_unpacks m pt) as (-> & ->); [done..|].
  done.
Qed.

Lemma rtp_throws_unchanged (this this' : t) (buffer : list Z) startPosn e :
  Deserialise this buffer startPosn = Throws this' e ->
  this' = this /\ e = truncated.
Proof.
  unfold Deserialise. case_decide; [by intros [= <- <-]|].
  cbv zeta. repeat case_match; done.
Qed.

End RtpHeaderFacts.

Section RtpHeaderClaims.

Import RtpHeader.

(** C4 (amended). For a header whose fields are within their bit
    widths, [Deserialise] applied to what [Serialise] appended gives the
    header back exactly, version included: the version bits of the
    first byte are the header's own [Version] field, which is 2 only by
    its default initialiser. *)
Theorem rtp_roundtrip (this h : t) (buf : list Z) :
  within_widths h ->
  Deserialise this (Serialise h buf) (size buf) = Returns h /\
  wire_version (drop (length buf) (Serialise h buf)) = Some (Version h) /\
  Version init = 2.
Proof.
  intros Hh. split; [by apply serialise_deserialise|]. split; [|done].
  destruct Hh as (Hv & Hp & Hx & Hcc & _).
  unfold Serialise, write_32, write_16.
  rewrite <- !app_assoc, drop_app_length. unfold wire_version. simpl.
  f_equal.
  by destruct (first_byte_unpacks (Version h) (PaddingFlag h)
                 (HeaderExtensionFlag h) (CSRCCount h)) as (? & _).
Qed.

Lemma rtp_roundtrip_witness :
  Deserialise init (Serialise (mk 2 0 1 3 1 26 4660 90000 3735928559) [7])
    (size [7])
  = Returns (mk 2 0 1 3 1 26 4660 90000 3735928559) /\
  wire_version
    (drop (length [7])
       (Serialise (mk 2 0 1 3 1 26 4660 90000 3735928559) [7]))
  = Some (Version (mk 2 0 1 3 1 26 4660 90000 3735928559)) /\
  Version init = 2.
Proof.
  apply (rtp_roundtrip init (mk 2 0 1 3 1 26 4660 90000 3735928559) [7]).
  unfold within_widths; simpl; lia.
Defined.

(** C4 (as stated, refuted). A header whose version field holds 1 is
    serialised with version bits 1, not 2, and parsed back with
    version 1. *)
Lemma rtp_version_not_forced :
  within_widths (mk 1 0 0 0 0 0 0 0 0) /\
  Serialise (mk 1 0 0 0 0 0 0 0 0) []
  = [0x40; 0; 0; 0; 0; 0; 0; 0; 0; 0; 0; 0] /\
  wire_version (Serialise (mk 1 0 0 0 0 0 0 0 0) []) = Some 1 /\
  wire_version (Serialise (mk 1 0 0 0 0 0 0 0 0) []) <> Some RTP_VERSION /\
  Deserialise init (Serialise (mk 1 0 0 0 0 0 0 0 0) []) 0
  = Returns (mk 1 0 0 0 0 0 0 0 0).
Proof.
  split; [unfold within_widths; simpl; lia|].
  repeat split; try reflexivity. discriminate.
Qed.

End RtpHeaderClaims.

(** ** JpegRtpHeader *)

Section JpegRtpHeaderFacts.

Import JpegRtpHeader.

Lemma size_t_small z : 0 <= z < 2 ^ 64 -> size_t z = z.
Proof. intros. by apply Z.mod_small. Qed.

Lemma messages_distinct :
  unsupported_type_specifier <> unsupported_restarts /\
  unsupported_type_specifier <> truncated_header /\
  unsupported_type_specifier <> truncated_quantization /\
  unsupported_restarts <> truncated_header /\
  unsupported_restarts <> truncated_quantization /\
  truncated_header <> truncated_quantization.
Proof. repeat split; discriminate. Qed.

Context (this : t) (buffer : list Z) (startPosn : Z).
Context (ts off ty q w h : Z).
Hypothesis Hpos : 0 <= startPosn.
Hypothesis Hrem : startPosn + 8 <= size buffer.
Hypothesis Hsize : size buffer < 2 ^ 64.
Hypothesis Hts : byte_at buffer startPosn = Some ts.
Hypothesis Hoff : read_24 buffer (startPosn + 1) = Some off.
Hypothesis Hty : byte_at buffer (startPosn + 4) = Some ty.
Hypothesis Hq : byte_at buffer (startPosn + 5) = Some q.
Hypothesis Hw : byte_at buffer (startPosn + 6) = Some w.
Hypothesis Hh : byte_at buffer (startPosn + 7) = Some h.

Local Abbreviation this1 := (set_base this ts off ty q w h).

Ltac enter :=
  unfold Deserialise;
  rewrite decide_False
    by (rewrite size_t_small; unfold JPEG_MIN_HEADER_LENGTH; lia);
  cbv zeta; rewrite Z.add_0_r, Hts, Hoff, Hty, Hq, Hw, Hh;
  simpl;
  unfold JPEG_DEFAULT_TYPE_SPECIFIER, JPEG_TYPE_RESTART_MARKER_START,
    JPEG_TYPE_RESTART_MARKER_END, Q_TABLE_INBAND_MINIMUM,
    JPEG_MIN_HEADER_LENGTH, JPEG_QUANTIZATION_HEADER_LENGTH.

Lemma Deserialise_type_specifier :
  ts <> 0 -> Deserialise this buffer startPosn
             = Throws this1 unsupported_type_specifier.
Proof using All. intros. enter. by rewrite decide_True. Qed.

Lemma Deserialise_restarts :
  ts = 0 -> 64 <= ty <= 127 ->
  Deserialise this buffer startPosn = Throws this1 unsupported_restarts.
Proof using All.
  intros. enter. rewrite decide_False by lia. by rewrite decide_True by lia.
Qed.

Lemma Deserialise_no_extension :
  ts = 0 -> ~ 64 <= ty <= 127 -> off <> 0 \/ q < 128 ->
  Deserialise this buffer startPosn = Returns this1.
Proof using All.
  intros. enter. by rewrite !decide_False by lia.
Qed.

Lemma Deserialise_truncated_extension :
  ts = 0 -> ~ 64 <= ty <= 127 -> off = 0 -> 128 <= q ->
  size buffer - startPosn - 8 < 4 ->
  Deserialise this buffer startPosn = Throws this1 truncated_header.
Proof using All.
  intros. enter. rewrite !decide_False by lia. rewrite decide_True by lia.
  rewrite decide_True; [done|]. rewrite size_t_small; lia.
Qed.

Lemma extension_reads :
  4 <= size buffer - startPosn - 8 ->
  exists mbz prec len,
    byte_at buffer (startPosn + 8) = Some mbz /\
    byte_at buffer (startPosn + 9) = Some prec /\
    read_16 buffer (startPosn + 10) = Some len /\
    0 <= len < 2 ^ 16.
Proof using Hpos.
  intros Hext. unfold read_16.
  destruct (byte_at_is_Some buffer (startPosn + 8)) as [mbz ->]; [lia|].
  destruct (byte_at_is_Some buffer (startPosn + 9)) as [prec ->]; [lia|].
  destruct (byte_at_is_Some buffer (startPosn + 10)) as [l0 ->]; [lia|].
  destruct (byte_at_is_Some buffer (startPosn + 10 + 1)) as [l1 ->]; [lia|].
  eexists _, _, _. repeat split; try done; simpl.
  all: unfold uint16; apply Z.mod_pos_bound; lia.
Qed.

Context (mbz prec len : Z).
Hypothesis Hext : 4 <= size buffer - startPosn - 8.
Hypothesis Hmbz : byte_at buffer (startPosn + 8) = Some mbz.
Hypothesis Hprec : byte_at buffer (startPosn + 9) = Some prec.
Hypothesis Hlen : read_16 buffer (startPosn + 10) = Some len.

Local Abbreviation this2 := (set_quantization this1 mbz prec len).

Ltac enter_extension :=
  enter; rewrite !decide_False by lia; rewrite decide_True by lia;
  rewrite decide_False by (rewrite size_t_small; lia);
  rewrite Hmbz, Hprec, Hlen; simpl.

Lemma Deserialise_truncated_table :
  ts = 0 -> ~ 64 <= ty <= 127 -> off = 0 -> 128 <= q ->
  size buffer - startPosn - 8 - 4 < len ->
  Deserialise this buffer startPosn = Throws this2 truncated_quantization.
Proof using All.
  intros. enter_extension.
  rewrite decide_True by lia.
  rewrite decide_True; [done|]. rewrite size_t_small; lia.
Qed.

Lemma Deserialise_extension :
  ts = 0 -> ~ 64 <= ty <= 127 -> off = 0 -> 128 <= q ->
  0 <= len <= size buffer - startPosn - 8 - 4 ->
  Deserialise this buffer startPosn
  = Returns (append_QTable this2
               (take (Z.to_nat len) (drop (Z.to_nat (startPosn + 12)) buffer))).
Proof using All.
  intros. enter_extension.
  destruct (decide (len > 0)) as [Hgt|Hle].
  - rewrite decide_False by (rewrite size_t_small; lia).
    unfold range. rewrite decide_True by lia.
    replace (startPosn + 8 + 4 + len - (startPosn + 8 + 4)) with len by lia.
    by replace (startPosn + 8 + 4) with (startPosn + 12) by lia.
  - assert (len = 0) as -> by lia. simpl.
    unfold append_QTable; simpl. rewrite app_nil_r. done.
Qed.

End JpegRtpHeaderFacts.

Section JpegRtpHeaderClaims.

Import JpegRtpHeader.

Lemma base_reads (buffer : list Z) startPosn :
  0 <= startPosn -> startPosn + 8 <= size buffer ->
  exists ts off ty q w h,
    byte_at buffer startPosn = Some ts /\
    read_24 buffer (startPosn + 1) = Some off /\
    byte_at buffer (startPosn + 4) = Some ty /\
    byte_at buffer (startPosn + 5) = Some q /\
    byte_at buffer (startPosn + 6) = Some w /\
    byte_at buffer (startPosn + 7) = Some h.
Proof.
  intros Hpos Hrem. unfold read_24.
  destruct (byte_at_is_Some buffer startPosn) as [ts ->]; [lia|].
  destruct (byte_at_is_Some buffer (startPosn + 1)) as [o0 ->]; [lia|].
  destruct (byte_at_is_Some buffer (startPosn + 1 + 1)) as [o1 ->]; [lia|].
  destruct (byte_at_is_Some buffer (startPosn + 1 + 2)) as [o2 ->]; [lia|].
  destruct (byte_at_is_Some buffer (startPosn + 4)) as [ty ->]; [lia|].
  destruct (byte_at_is_Some buffer (startPosn + 5)) as [q ->]; [lia|].
  destruct (byte_at_is_Some buffer (startPosn + 6)) as [w ->]; [lia|].
  destruct (byte_at_is_Some buffer (startPosn + 7)) as [h ->]; [lia|].
  by eexists _, _, _, _, _, _.
Qed.

(** Buffers that agree on their first [n] bytes agree on every read
    below [n]. *)
Lemma byte_at_take (buffer buffer' : list Z) (n : nat) i :
  take n buffer' = take n buffer -> i < Z.of_nat n ->
  byte_at buffer' i = byte_at buffer i.
Proof.
  intros Htake Hi. unfold byte_at. case_decide; [|done].
  rewrite <- (lookup_take_lt buffer' n), <- (lookup_take_lt buffer n) by lia.
  by rewrite Htake.
Qed.

Lemma read_24_take (buffer buffer' : list Z) (n : nat) i :
  take n buffer' = take n buffer -> i + 2 < Z.of_nat n ->
  read_24 buffer' i = read_24 buffer i.
Proof.
  intros Htake Hi. unfold read_24.
  by rewrite !(byte_at_take buffer buffer' n) by (done || lia).
Qed.

Lemma size_take_eq (buffer buffer' : list Z) (n : nat) :
  take n buffer' = take n buffer -> Z.of_nat n <= size buffer ->
  Z.of_nat n <= size buffer'.
Proof.
  intros Htake Hn. apply (f_equal length) in Htake.
  rewrite !length_take in Htake. unfold size in *. lia.
Qed.

(** C6. With at least 8 bytes from [startPosn], [Deserialise] throws
    the unsupported-type-specifier error when byte 0 is not 0, and
    otherwise the unsupported-restarts error when byte 4 lies in
    [64,127]; when byte 0 is 0 and byte 4 is outside [64,127] it throws
    neither of the two. *)
Theorem jpeg_unsupported_payload (this : t) (buffer : list Z)
    (startPosn ts ty : Z) :
  0 <= startPosn -> startPosn + 8 <= size buffer -> size buffer < 2 ^ 64 ->
  byte_at buffer startPosn = Some ts ->
  byte_at buffer (startPosn + 4) = Some ty ->
  (ts <> 0 -> raises this buffer startPosn unsupported_type_specifier) /\
  (ts = 0 -> 64 <= ty <= 127 ->
   raises this buffer startPosn unsupported_restarts) /\
  (ts = 0 -> ~ 64 <= ty <= 127 ->
   ~ raises this buffer startPosn unsupported_type_specifier /\
   ~ raises this buffer startPosn unsupported_restarts).
Proof.
  intros Hpos Hrem Hsize Hts Hty.
  destruct (base_reads buffer startPosn)
    as (ts' & off & ty' & q & w & h & Hts' & Hoff & Hty' & Hq & Hw & Hh);
    [done..|].
  assert (ts' = ts) as -> by congruence.
  assert (ty' = ty) as -> by congruence.
  split; [|split].
  - intros Hne. eexists. by eapply Deserialise_type_specifier.
  - intros H0 Hr. eexists. by eapply Deserialise_restarts.
  - intros H0 Hr. unfold raises.
    destruct (decide (off = 0 /\ 128 <= q)) as [[Hoff0 Hq128]|Hno].
    + destruct (decide (size buffer - startPosn - 8 < 4)) as [Hshort|Hlong].
      * rewrite (Deserialise_truncated_extension this buffer startPosn
                   ts off ty q w h) by done.
        split; intros [? [=]].
      * destruct (extension_reads buffer startPosn)
          as (mbz & prec & len & Hmbz & Hprec & Hlen & Hlen16);
          [done|lia|].
        destruct (decide (size buffer - startPosn - 8 - 4 < len)).
        -- rewrite (Deserialise_truncated_table this buffer startPosn
                      ts off ty q w h) with (mbz := mbz) (prec := prec)
                      (len := len) by (done || lia).
           split; intros [? [=]].
        -- rewrite (Deserialise_extension this buffer startPosn
                      ts off ty q w h) with (mbz := mbz) (prec := prec)
                      (len := len) by (done || lia).
           split; intros [? [=]].
    + rewrite (Deserialise_no_extension this buffer startPosn
                 ts off ty q w h) by (done || lia).
      split; intros [? [=]].
Qed.

Lemma jpeg_unsupported_payload_witness :
  raises zero [1; 0; 0; 0; 0; 0; 5; 6] 0 unsupported_type_specifier /\
  raises zero [0; 0; 0; 0; 64; 0; 5; 6] 0 unsupported_restarts /\
  ~ raises zero [0; 0; 0; 0; 63; 0; 5; 6] 0 unsupported_restarts.
Proof.
  split; [|split].
  - apply (jpeg_unsupported_payload zero [1; 0; 0; 0; 0; 0; 5; 6] 0 1 0);
      try reflexivity; try lia; by vm_compute.
  - apply (jpeg_unsupported_payload zero [0; 0; 0; 0; 64; 0; 5; 6] 0 0 64);
      try reflexivity; try lia; by vm_compute.
  - apply (jpeg_unsupported_payload zero [0; 0; 0; 0; 63; 0; 5; 6] 0 0 63);
      try reflexivity; try lia; by vm_compute.
Defined.

(** C7 (amended). With fragment offset 0 and Q >= 128: when fewer
    than 4 bytes follow the base header the call throws the exception
    of a truncated base header, message included, so that failure is
    not an error of its own; when the 4-byte extension header is there
    but fewer than [Length] bytes follow it, the call throws an
    exception with a message of its own, distinct from every other
    failure of the function; otherwise exactly [Length] bytes are
    appended to [QTable]. *)
Theorem jpeg_quantization_extension (this : t) (buffer : list Z)
    (startPosn ty q w h : Z) :
  0 <= startPosn -> startPosn + 8 <= size buffer -> size buffer < 2 ^ 64 ->
  byte_at buffer startPosn = Some 0 ->
  read_24 buffer (startPosn + 1) = Some 0 ->
  byte_at buffer (startPosn + 4) = Some ty -> ~ 64 <= ty <= 127 ->
  byte_at buffer (startPosn + 5) = Some q -> 128 <= q ->
  byte_at buffer (startPosn + 6) = Some w ->
  byte_at buffer (startPosn + 7) = Some h ->
  let this1 := set_base this 0 0 ty q w h in
  let remaining := size buffer - startPosn - 8 in
  (remaining < 4 ->
   Deserialise this buffer startPosn = Throws this1 truncated_header) /\
  (4 <= remaining ->
   exists mbz prec len,
     byte_at buffer (startPosn + 8) = Some mbz /\
     byte_at buffer (startPosn + 9) = Some prec /\
     read_16 buffer (startPosn + 10) = Some len /\
     let this2 := set_quantization this1 mbz prec len in
     (remaining - 4 < len ->
      Deserialise this buffer startPosn
      = Throws this2 truncated_quantization) /\
     (len <= remaining - 4 ->
      exists data,
        range buffer (startPosn + 12) (startPosn + 12 + len) = Some data /\
        size data = len /\
        Deserialise this buffer startPosn
        = Returns (append_QTable this2 data))) /\
  (truncated_quantization <> truncated_header /\
   truncated_quantization <> unsupported_type_specifier /\
   truncated_quantization <> unsupported_restarts).
Proof.
  intros Hpos Hrem Hsize Hts Hoff Hty Hnr Hq Hq128 Hw Hh this1 remaining.
  split; [|split].
  3: { destruct messages_distinct as (_ & _ & H1 & _ & H2 & H3).
       repeat split; congruence. }
  - intros Hshort. by eapply Deserialise_truncated_extension.
  - intros Hlong.
    destruct (extension_reads buffer startPosn)
      as (mbz & prec & len & Hmbz & Hprec & Hlen & Hlen16); [done..|].
    exists mbz, prec, len. do 3 (split; [done|]). split.
    + intros Hcut. by eapply Deserialise_truncated_table.
    + intros Hfit.
      exists (take (Z.to_nat len) (drop (Z.to_nat (startPosn + 12)) buffer)).
      split; [|split].
      * unfold range. subst remaining. rewrite decide_True by lia.
        by replace (startPosn + 12 + len - (startPosn + 12)) with len by lia.
      * subst remaining. unfold size in *.
        rewrite length_take, length_drop. lia.
      * subst remaining. eapply Deserialise_extension; (done || lia).
Qed.

Lemma jpeg_quantization_extension_witness :
  Deserialise zero [0; 0; 0; 0; 1; 255; 5; 6; 0; 0; 0; 2; 7; 9; 11] 0
  = Returns (mk 0 0 1 255 5 6 0 0 2 [7; 9]) /\
  Deserialise zero [0; 0; 0; 0; 1; 255; 5; 6; 0; 0; 0; 2; 7] 0
  = Throws (mk 0 0 1 255 5 6 0 0 2 []) truncated_quantization /\
  Deserialise zero [0; 0; 0; 0; 1; 255; 5; 6; 0; 0; 0] 0
  = Throws (mk 0 0 1 255 5 6 0 0 0 []) truncated_header /\
  truncated_quantization <> truncated_header.
Proof.
  split; [|split; [|split]].
  - destruct (jpeg_quantization_extension zero
                [0; 0; 0; 0; 1; 255; 5; 6; 0; 0; 0; 2; 7; 9; 11] 0 1 255 5 6)
      as (_ & Hext & _); [reflexivity || lia || by vm_compute ..|].
    destruct Hext as (mbz & prec & len & Hmbz & Hprec & Hlen & _ & Hcopy);
      [by vm_compute|].
    injection Hmbz as <-. injection Hprec as <-. injection Hlen as <-.
    destruct Hcopy as (data & Hdata & _ & ->); [by vm_compute|].
    injection Hdata as <-. reflexivity.
  - destruct (jpeg_quantization_extension zero
                [0; 0; 0; 0; 1; 255; 5; 6; 0; 0; 0; 2; 7] 0 1 255 5 6)
      as (_ & Hext & _); [reflexivity || lia || by vm_compute ..|].
    destruct Hext as (mbz & prec & len & Hmbz & Hprec & Hlen & Hcut & _);
      [by vm_compute|].
    injection Hmbz as <-. injection Hprec as <-. injection Hlen as <-.
    rewrite Hcut; [reflexivity|by vm_compute].
  - destruct (jpeg_quantization_extension zero
                [0; 0; 0; 0; 1; 255; 5; 6; 0; 0; 0] 0 1 255 5 6)
      as (Hshort & _); [reflexivity || lia || by vm_compute ..|].
    rewrite Hshort; [reflexivity|by vm_compute].
  - destruct (jpeg_quantization_extension zero
                [0; 0; 0; 0; 1; 255; 5; 6; 0; 0; 0] 0 1 255 5 6)
      as (_ & _ & Hdistinct & _); [reflexivity || lia || by vm_compute ..|].
    exact Hdistinct.
Defined.

(** C7 (as stated, refuted). The failure on a truncated quantization
    header is not a distinct error: it is the exception of the
    truncated base header.  (The failure on a truncated table is a
    distinct one.) *)
Lemma jpeg_truncated_extension_not_distinct :
  Deserialise zero [0; 0; 0; 0; 0; 128; 5; 6] 0
  = Throws (mk 0 0 0 128 5 6 0 0 0 []) truncated_header /\
  Deserialise zero [0; 0; 0] 0 = Throws zero truncated_header.
Proof. split; reflexivity. Qed.

Lemma read_16_range (buffer : list Z) i v :
  read_16 buffer i = Some v -> 0 <= v < 2 ^ 16.
Proof.
  unfold read_16. intros Hv.
  destruct (byte_at buffer i) as [b0|]; [|done].
  destruct (byte_at buffer (i + 1)) as [b1|]; [|done].
  injection Hv as <-. unfold uint16. apply Z.mod_pos_bound. lia.
Qed.

(** C5. With at least 8 bytes from [startPosn] (an [int], with room for
    the offsets the function adds to it), a default type specifier and
    a type outside [64,127]: what follows the base header is parsed as
    a quantization extension ([Mbz], [Precision], [Length] read from
    the next four bytes, [Length] table bytes appended to [QTable]) if
    and only if the fragment offset is 0 and Q >= 128.  Otherwise the
    call returns with only the six base fields assigned, and does so
    whatever follows the base header: [Mbz], [Precision], [Length] and
    [QTable] are as before the call.  With offset 0 and Q >= 128 the
    call on [buffer] itself, when the extension and its table are
    there, returns with the extension fields and the table stored. *)
Theorem jpeg_extension_iff (this : t) (buffer : list Z)
    (startPosn off ty q : Z) :
  0 <= startPosn -> startPosn + 11 < 2 ^ 31 ->
  startPosn + 8 <= size buffer -> size buffer < 2 ^ 64 ->
  byte_at buffer startPosn = Some 0 ->
  read_24 buffer (startPosn + 1) = Some off ->
  byte_at buffer (startPosn + 4) = Some ty -> ~ 64 <= ty <= 127 ->
  byte_at buffer (startPosn + 5) = Some q ->
  (parses_extension this buffer startPosn <-> off = 0 /\ 128 <= q) /\
  (off <> 0 \/ q < 128 ->
   exists this',
     Deserialise this buffer startPosn = Returns this' /\
     Offset this' = off /\ Q this' = q /\
     Mbz this' = Mbz this /\ Precision this' = Precision this /\
     Length this' = Length this /\ QTable this' = QTable this /\
     forall buffer',
       size buffer' < 2 ^ 64 ->
       take (Z.to_nat (startPosn + 8)) buffer'
       = take (Z.to_nat (startPosn + 8)) buffer ->
       Deserialise this buffer' startPosn = Returns this') /\
  (off = 0 /\ 128 <= q ->
   forall mbz prec len,
     byte_at buffer (startPosn + 8) = Some mbz ->
     byte_at buffer (startPosn + 9) = Some prec ->
     read_16 buffer (startPosn + 10) = Some len ->
     startPosn + 12 + len <= size buffer ->
     exists this',
       Deserialise this buffer startPosn = Returns this' /\
       Mbz this' = mbz /\ Precision this' = prec /\ Length this' = len /\
       QTable this'
       = QTable this
         ++ take (Z.to_nat len) (drop (Z.to_nat (startPosn + 12)) buffer)).
Proof.
  intros Hpos Hint Hrem Hsize Hts Hoff Hty Hnr Hq.
  destruct (base_reads buffer startPosn)
    as (ts' & off' & ty' & q' & w & h & Hts' & Hoff' & Hty' & Hq' & Hw & Hh);
    [done..|].
  clear Hts' Hoff' Hty' Hq'.
  unfold parses_extension, JPEG_MIN_HEADER_LENGTH.
  assert (Hno : off <> 0 \/ q < 128 ->
               forall buffer', size buffer' < 2 ^ 64 ->
                 take (Z.to_nat (startPosn + 8)) buffer'
                 = take (Z.to_nat (startPosn + 8)) buffer ->
                 Deserialise this buffer' startPosn
                 = Returns (set_base this 0 off ty q w h)).
  { intros Hcase buffer' Hsize' Htake.
    pose proof (size_take_eq _ _ _ Htake) as Hrem'.
    eapply Deserialise_no_extension; try done; try lia.
    - by rewrite (byte_at_take buffer _ _ _ Htake) by lia.
    - by rewrite (read_24_take buffer _ _ _ Htake) by lia.
    - by rewrite (byte_at_take buffer _ _ _ Htake) by lia.
    - by rewrite (byte_at_take buffer _ _ _ Htake) by lia.
    - by rewrite (byte_at_take buffer _ _ _ Htake) by lia.
    - by rewrite (byte_at_take buffer _ _ _ Htake) by lia. }
  assert (Hyes : off = 0 /\ 128 <= q ->
            forall buffer' mbz prec len,
              size buffer' < 2 ^ 64 ->
              take (Z.to_nat (startPosn + 8)) buffer'
              = take (Z.to_nat (startPosn + 8)) buffer ->
              byte_at buffer' (startPosn + 8) = Some mbz ->
              byte_at buffer' (startPosn + 9) = Some prec ->
              read_16 buffer' (startPosn + 10) = Some len ->
              startPosn + 12 + len <= size buffer' ->
              exists this',
                Deserialise this buffer' startPosn = Returns this' /\
                Mbz this' = mbz /\ Precision this' = prec /\
                Length this' = len /\
                QTable this'
                = QTable this
                  ++ take (Z.to_nat len)
                       (drop (Z.to_nat (startPosn + 12)) buffer')).
  { intros [Hoff0 Hq128] buffer' mbz prec len Hsize' Htake Hmbz Hprec Hlen
      Hfit.
    pose proof (read_16_range _ _ _ Hlen) as Hlen16.
    exists (append_QTable
              (set_quantization (set_base this 0 off ty q w h) mbz prec len)
              (take (Z.to_nat len)
                 (drop (Z.to_nat (startPosn + 12)) buffer'))).
    split; [|done].
    eapply (Deserialise_extension this buffer' startPosn 0 off ty q w h)
      with (mbz := mbz) (prec := prec) (len := len); try done; try lia.
    - by rewrite (byte_at_take buffer _ _ _ Htake) by lia.
    - by rewrite (read_24_take buffer _ _ _ Htake) by lia.
    - by rewrite (byte_at_take buffer _ _ _ Htake) by lia.
    - by rewrite (byte_at_take buffer _ _ _ Htake) by lia.
    - by rewrite (byte_at_take buffer _ _ _ Htake) by lia.
    - by rewrite (byte_at_take buffer _ _ _ Htake) by lia. }
  split; [split|split].
  - (* an extension that is parsed forces offset 0 and Q >= 128: if not,
       a byte after the base header that differs from [Mbz] would have
       to be stored and to be left alone *)
    intros Hparses.
    destruct (decide (off = 0 /\ 128 <= q)) as [|Hcase]; [done|].
    exfalso.
    set (base := take (Z.to_nat (startPosn + 8)) buffer).
    assert (Hbase_size : size base = startPosn + 8).
    { unfold base, size in *. rewrite length_take. lia. }
    set (m := if decide (Mbz this = 0) then 1 else 0).
    destruct (Hparses (base ++ [m; 0; 0; 0]) m 0 0)
      as (this' & Hret & Hm & _).
    + rewrite size_app, Hbase_size. unfold size; simpl. lia.
    + rewrite take_app_le; [|unfold size in *; lia].
      unfold base. by rewrite take_take, Nat.min_id.
    + replace (startPosn + 8) with (size base + 0) by lia.
      by rewrite byte_at_app_r.
    + replace (startPosn + 9) with (size base + 1) by lia.
      by rewrite byte_at_app_r.
    + replace (startPosn + 10) with (size base + 2) by lia.
      by rewrite read_16_app_r.
    + rewrite size_app, Hbase_size. unfold size; simpl. lia.
    + rewrite (Hno ltac:(lia) (base ++ [m; 0; 0; 0])) in Hret.
      * injection Hret as <-. simpl in Hm. subst m. case_decide; lia.
      * rewrite size_app, Hbase_size. unfold size; simpl. lia.
      * rewrite take_app_le; [|unfold size in *; lia].
        unfold base. by rewrite take_take, Nat.min_id.
  - apply Hyes.
  - intros Hcase. exists (set_base this 0 off ty q w h).
    split; [by apply (Hno Hcase buffer)|].
    do 6 (split; [done|]). by apply Hno.
  - intros Hcase mbz prec len Hmbz Hprec Hlen Hfit.
    by apply (Hyes Hcase buffer).
Qed.

Lemma jpeg_extension_iff_witness :
  (parses_extension zero [0; 0; 0; 0; 1; 255; 5; 6; 0; 0; 0; 1; 9] 0 /\
   exists this',
     Deserialise zero [0; 0; 0; 0; 1; 255; 5; 6; 0; 0; 0; 1; 9] 0
     = Returns this' /\
     Mbz this' = 0 /\ Precision this' = 0 /\ Length this' = 1 /\
     QTable this' = [9]) /\
  (~ parses_extension zero [0; 0; 0; 10; 1; 255; 5; 6; 0; 0; 0; 1; 9] 0 /\
   exists this',
     Deserialise zero [0; 0; 0; 10; 1; 255; 5; 6; 0; 0; 0; 1; 9] 0
     = Returns this' /\
     Offset this' = 10 /\ Q this' = 255 /\
     Mbz this' = 0 /\ Precision this' = 0 /\ Length this' = 0 /\
     QTable this' = []).
Proof.
  split.
  - destruct (jpeg_extension_iff zero
                [0; 0; 0; 0; 1; 255; 5; 6; 0; 0; 0; 1; 9] 0 0 1 255)
      as (Hiff & _ & Hyes); [reflexivity || lia || by vm_compute ..|].
    assert (Hcase : 0 = 0 /\ 128 <= 255) by (split; [reflexivity|lia]).
    split; [by apply Hiff|].
    apply (Hyes Hcase 0 0 1);
      [reflexivity|reflexivity|reflexivity|by vm_compute].
  - destruct (jpeg_extension_iff zero
                [0; 0; 0; 10; 1; 255; 5; 6; 0; 0; 0; 1; 9] 0 10 1 255)
      as (Hiff & Hno & _); [reflexivity || lia || by vm_compute ..|].
    split; [intros Hparses; apply Hiff in Hparses; lia|].
    destruct Hno as (this' & Hret & Ho & Hq & Hm & Hp & Hl & Ht & _);
      [left; lia|].
    exists this'. exact (conj Hret (conj Ho (conj Hq (conj Hm
                          (conj Hp (conj Hl Ht)))))).
Defined.

(** What a throwing call leaves in the header object. *)
Lemma jpeg_throws_state (this this' : t) (buffer : list Z) startPosn e :
  Deserialise this buffer startPosn = Throws this' e ->
  (this' = this /\ e = truncated_header /\
   size_t (size buffer - startPosn) < 8) \/
  (exists ts off ty q w h,
     byte_at buffer startPosn = Some ts /\
     read_24 buffer (startPosn + 1) = Some off /\
     byte_at buffer (startPosn + 4) = Some ty /\
     byte_at buffer (startPosn + 5) = Some q /\
     byte_at buffer (startPosn + 6) = Some w /\
     byte_at buffer (startPosn + 7) = Some h /\
     ((this' = set_base this ts off ty q w h /\
       (e = unsupported_type_specifier \/ e = unsupported_restarts \/
        e = truncated_header)) \/
      (exists mbz prec len,
         byte_at buffer (startPosn + 8) = Some mbz /\
         byte_at buffer (startPosn + 9) = Some prec /\
         read_16 buffer (startPosn + 10) = Some len /\
         this' = set_quantization (set_base this ts off ty q w h)
                   mbz prec len /\
         e = truncated_quantization))).
Proof.
  unfold Deserialise. case_decide as Hshort.
  { intros [= <- <-]. by left. }
  cbv zeta. rewrite Z.add_0_r.
  destruct (byte_at buffer startPosn) as [ts|]; [|done].
  destruct (read_24 buffer (startPosn + 1)) as [off|]; [|done].
  destruct (byte_at buffer (startPosn + 4)) as [ty|]; [|done].
  destruct (byte_at buffer (startPosn + 5)) as [q|]; [|done].
  destruct (byte_at buffer (startPosn + 6)) as [w|]; [|done].
  destruct (byte_at buffer (startPosn + 7)) as [h|]; [|done].
  intros Hthrow. right. exists ts, off, ty, q, w, h.
  do 6 (split; [done|]).
  revert Hthrow.
  case_decide; [intros [= <- <-]; left; by auto|].
  case_decide; [intros [= <- <-]; left; by auto|].
  case_decide; [|done].
  case_decide; [intros [= <- <-]; left; by auto|].
  destruct (byte_at buffer (startPosn + 8)) as [mbz|]; [|done].
  destruct (byte_at buffer (startPosn + 9)) as [prec|]; [|done].
  destruct (read_16 buffer (startPosn + 10)) as [len|]; [|done].
  case_decide; [|done].
  case_decide; [|by case_match].
  intros [= <- <-]. right. by exists mbz, prec, len.
Qed.

(** C9 (amended). A failing [RtpHeader::Deserialise] leaves the header
    as it was.  A failing [JpegRtpHeader::Deserialise] leaves the header
    as it was only when it fails on a truncated base header; in every
    other failure the six base fields have been assigned from the
    buffer, and on a truncated table [Mbz], [Precision] and [Length] as
    well.  [QTable] is untouched by every failing call. *)
Theorem deserialise_failure_state :
  (forall (this this' : RtpHeader.t) (buffer : list Z) startPosn e,
     RtpHeader.Deserialise this buffer startPosn = Throws this' e ->
     this' = this) /\
  (forall (this this' : t) (buffer : list Z) startPosn e,
     Deserialise this buffer startPosn = Throws this' e ->
     QTable this' = QTable this /\
     ((this' = this /\ e = truncated_header /\
       size_t (size buffer - startPosn) < 8) \/
      (exists ts off ty q w h,
         byte_at buffer startPosn = Some ts /\
         read_24 buffer (startPosn + 1) = Some off /\
         byte_at buffer (startPosn + 4) = Some ty /\
         byte_at buffer (startPosn + 5) = Some q /\
         byte_at buffer (startPosn + 6) = Some w /\
         byte_at buffer (startPosn + 7) = Some h /\
         ((this' = set_base this ts off ty q w h /\
           (e = unsupported_type_specifier \/ e = unsupported_restarts \/
            e = truncated_header)) \/
          (exists mbz prec len,
             byte_at buffer (startPosn + 8) = Some mbz /\
             byte_at buffer (startPosn + 9) = Some prec /\
             read_16 buffer (startPosn + 10) = Some len /\
             this' = set_quantization (set_base this ts off ty q w h)
                       mbz prec len /\
             e = truncated_quantization))))).
Proof.
  split.
  - intros this this' buffer startPosn e Hthrow.
    by apply rtp_throws_unchanged in Hthrow as [-> _].
  - intros this this' buffer startPosn e Hthrow.
    split; [|by apply jpeg_throws_state].
    apply jpeg_throws_state in Hthrow
      as [(-> & _)
         |(ts & off & ty & q & w & h & _ & _ & _ & _ & _ & _
           & [[-> _]|(mbz & prec & len & _ & _ & _ & -> & _)])];
      done.
Qed.

Lemma deserialise_failure_state_witness :
  RtpHeader.mk 1 1 1 1 1 1 1 1 1 = RtpHeader.mk 1 1 1 1 1 1 1 1 1 /\
  QTable (mk 1 0 0 0 5 6 0 0 0 [3]) = QTable (mk 9 9 9 9 9 9 0 0 0 [3]).
Proof.
  destruct deserialise_failure_state as [Hrtp Hjpeg]. split.
  - apply (Hrtp (RtpHeader.mk 1 1 1 1 1 1 1 1 1) _ [0x80; 0] 0
             RtpHeader.truncated).
    reflexivity.
  - apply (Hjpeg (mk 9 9 9 9 9 9 0 0 0 [3]) _ [1; 0; 0; 0; 0; 0; 5; 6] 0
             unsupported_type_specifier).
    reflexivity.
Defined.

(** C9 (as stated, refuted). A payload header with a non-default type
    specifier makes the call throw after the base fields of the object
    have been overwritten. *)
Lemma jpeg_failure_overwrites_fields :
  Deserialise zero [1; 0; 0; 0; 0; 0; 5; 6] 0
  = Throws (mk 1 0 0 0 5 6 0 0 0 []) unsupported_type_specifier /\
  mk 1 0 0 0 5 6 0 0 0 [] <> zero.
Proof. split; [reflexivity|discriminate]. Qed.

End JpegRtpHeaderClaims.

(** ** Jfif: the default quantization tables *)

Section QuantizerClaims.

Import Jfif.

Lemma av_clip_bounds a amin amax :
  amin <= amax -> amin <= av_clip a amin amax <= amax.
Proof. intros. unfold av_clip. repeat case_decide; lia. Qed.

(** A loop that reads [l[i]] for [i = 0 .. length l - 1] and stores a
    function of it yields the image of [l]. *)
Lemma mapM_byte_at (l : list Z) (g : Z -> Z) :
  mapM (fun i => base ← byte_at l i; Some (g base)) (seqZ 0 (size l))
  = Some (g <$> l).
Proof.
  apply mapM_Some. apply Forall2_same_length_lookup_2.
  - unfold size. rewrite length_seqZ, length_fmap. lia.
  - intros i x y Hx Hy.
    apply lookup_seqZ in Hx as [-> Hi].
    rewrite list_lookup_fmap in Hy.
    rewrite Z.add_0_l, byte_at_lookup.
    destruct (l !! i) as [base|]; simpl in *; congruence.
Qed.

(** C1. The quality is clamped to [1,99]; the scale factor is
    [5000 / quality] below 50 and [200 - 2 * quality] from 50 on; each
    of the 128 entries of the base table, in the order of the table,
    becomes [(base * S + 50) / 100], truncated, then clamped to
    [1,255].  Quality 50 gives S = 100, quality 1 gives S = 5000, and
    all 128 outputs lie in [1,255].  No product leaves the [int]
    range. *)
Theorem default_qtables_scaling (default_quantizers : list Z) (q : Z) :
  length default_quantizers = 128%nat ->
  Forall is_uint8 default_quantizers ->
  is_uint8 q ->
  let quality := av_clip q 1 99 in
  let S := if decide (quality < 50)
           then 5000 `quot` quality else 200 - 2 * quality in
  1 <= quality <= 99 /\
  (exists qtables,
     create_default_qtables default_quantizers q = Some qtables /\
     qtables = (fun base => av_clip ((base * S + 50) `quot` 100) 1 255)
               <$> default_quantizers /\
     length qtables = 128%nat /\
     Forall (fun v => 1 <= v <= 255) qtables) /\
  Forall (fun base => 0 <= base * S + 50 < 2 ^ 31) default_quantizers /\
  (q = 50 -> S = 100) /\
  (q = 1 -> S = 5000).
Proof.
  intros Hlen Hbytes Hq quality S.
  assert (Hquality : 1 <= quality <= 99) by (by apply av_clip_bounds).
  assert (HS : 2 <= S <= 5000).
  { subst S. case_decide.
    - rewrite Z.quot_div_nonneg by lia.
      split; [apply Z.div_le_lower_bound|apply Z.div_le_upper_bound]; lia.
    - lia. }
  split; [done|]. split; [|split; [|split]].
  - eexists. split; [|split; [reflexivity|split]].
    + unfold create_default_qtables.
      replace 128 with (size default_quantizers)
        by (unfold size; rewrite Hlen; done).
      rewrite mapM_byte_at. f_equal.
      apply list_fmap_ext. intros _ base _.
      fold quality.
      assert (HSeq : (if decide (q < 50)
                      then uint16 (5000 `quot` quality)
                      else uint16 (200 - quality * 2)) = S).
      { subst S quality. unfold av_clip in *.
        unfold is_uint8 in Hq.
        repeat case_decide; try lia;
          (rewrite uint16_id; [lia|]); unfold is_uint16; lia. }
      rewrite HSeq. apply uint8_id.
      pose proof (av_clip_bounds ((base * S + 50) `quot` 100) 1 255).
      unfold is_uint8. lia.
    + by rewrite length_fmap.
    + apply Forall_fmap, Forall_true. intros base. simpl.
      apply av_clip_bounds. lia.
  - eapply Forall_impl; [apply Hbytes|]. unfold is_uint8.
    intros base Hbase. simpl in Hbase. nia.
  - intros ->. reflexivity.
  - intros ->. reflexivity.
Qed.

Lemma default_qtables_scaling_witness :
  exists qtables,
    create_default_qtables annex_k_quantizers 50 = Some qtables /\
    qtables = (fun base => av_clip ((base * 100 + 50) `quot` 100) 1 255)
              <$> annex_k_quantizers /\
    length qtables = 128%nat /\
    Forall (fun v => 1 <= v <= 255) qtables.
Proof.
  apply (default_qtables_scaling annex_k_quantizers 50).
  - reflexivity.
  - unfold annex_k_quantizers, is_uint8.
    repeat (apply Forall_cons; split; [lia|]). apply Forall_nil_2.
  - unfold is_uint8. lia.
Defined.

End QuantizerClaims.

(** ** Huffman: the code assignment *)

Section HuffmanLoops.

Import Huffman.

Context (val_table : list Z).
Hypothesis val_bytes : Forall is_uint8 val_table.


Local Arguments assign : simpl never.
Local Arguments seqZ : simpl never.

Lemma arrays_with_arrays a k c : arrays (with_arrays a k c) = a.
Proof. by destruct a. Qed.

Lemma assign_length g a e :
  length (assign g a e).1 = length a.1 /\
  length (assign g a e).2 = length a.2.
Proof.
  destruct e as [sym [len c]]. unfold assign.
  case_match; simpl; by rewrite ?length_insert.
Qed.

Lemma foldl_assign_length g es a :
  length (foldl (assign g) a es).1 = length a.1 /\
  length (foldl (assign g) a es).2 = length a.2.
Proof.
  revert a. induction es as [|e es IH]; intros a; simpl; [done|].
  destruct (IH (assign g a e)) as [-> ->]. apply assign_length.
Qed.

Lemma store_in_range (a : list Z) i v :
  0 <= i < size a -> store a i v = Some (<[Z.to_nat i := v]> a).
Proof. intros. unfold store. by rewrite decide_True. Qed.

Lemma inner_body_follows : follows val_table true (inner_body val_table).
Proof using val_bytes.
  intros i v sym Hsym Hhs Hhc.
  pose proof (byte_at_uint8 _ _ _ val_bytes Hsym) as Hb.
  unfold is_uint8 in Hb.
  unfold inner_body. rewrite Hsym. simpl.
  unfold assign, set_symbol; simpl.
  destruct (decide (sym <> 0)) as [Hne|Heq].
  - rewrite bool_decide_eq_false_2 by (intros []; done). simpl.
    rewrite !store_in_range by (unfold size; lia). done.
  - assert (sym = 0) as -> by lia.
    destruct (byte_at_is_Some (huff_size v) 0) as [s Hs];
      [unfold size; lia|].
    assert (Hs' : huff_size v !! 0%nat = Some s) by exact Hs.
    rewrite Hs. simpl. rewrite Hs'.
    destruct (decide (s = 0)) as [->|Hs0].
    + rewrite bool_decide_eq_false_2 by (intros []; done). simpl.
      rewrite !store_in_range by (unfold size; lia). done.
    + rewrite bool_decide_eq_true_2 by (split; congruence). done.
Qed.

Lemma inner_body_unguarded_follows :
  follows val_table false (inner_body_unguarded val_table).
Proof using val_bytes.
  intros i v sym Hsym Hhs Hhc.
  pose proof (byte_at_uint8 _ _ _ val_bytes Hsym) as Hb.
  unfold is_uint8 in Hb.
  unfold inner_body_unguarded. rewrite Hsym. simpl.
  unfold assign, set_symbol; simpl.
  rewrite !store_in_range by (unfold size; lia). done.
Qed.

Lemma consecutive_length i c n : length (consecutive i c n) = n.
Proof. revert c. induction n; intros; simpl; by rewrite ?IHn. Qed.

Context (g : bool) (body : Z -> vars -> option vars).
Hypothesis body_follows : follows val_table g body.

(** The inner loop gives the next [nb] symbols consecutive codes. *)
Lemma repeat_body_assign i nb v :
  0 <= k v -> (Z.to_nat (k v) + nb <= length val_table)%nat ->
  length (huff_size v) = 256%nat -> length (huff_code v) = 256%nat ->
  repeat_body (body i) nb v
  = Some (with_arrays
            (foldl (assign g) (arrays v)
               (zip (take nb (drop (Z.to_nat (k v)) val_table))
                    (consecutive i (code v) nb)))
            (k v + Z.of_nat nb) (code v + Z.of_nat nb)).
Proof using body_follows.
  revert v. induction nb as [|nb IH]; intros v Hk Hfit Hhs Hhc; simpl.
  { rewrite !Z.add_0_r. by destruct v. }
  destruct (byte_at_is_Some val_table (k v)) as [sym Hsym];
    [unfold size; lia|].
  rewrite (body_follows i v sym) by done. simpl.
  destruct (assign_length g (arrays v) (sym, (i, code v))) as [Hl1 Hl2].
  rewrite IH; simpl; try lia.
  - assert (Hdrop : drop (Z.to_nat (k v)) val_table
                    = sym :: drop (Z.to_nat (k v + 1)) val_table).
    { unfold byte_at in Hsym. rewrite decide_True in Hsym by done.
      rewrite (drop_S _ _ _ Hsym). do 2 f_equal. lia. }
    rewrite Hdrop. simpl. rewrite arrays_with_arrays.
    do 2 f_equal; lia.
  - by rewrite Hl1.
  - by rewrite Hl2.
Qed.

Lemma zip_app_r (l : list Z) (k1 k2 : list (Z * Z)) :
  (length k1 <= length l)%nat ->
  zip l (k1 ++ k2)
  = zip (take (length k1) l) k1 ++ zip (drop (length k1) l) k2.
Proof.
  intros Hlen. rewrite <- (take_drop (length k1) l) at 1.
  apply zip_with_app. rewrite length_take. lia.
Qed.

Lemma for_each_cons i range (f : Z -> vars -> option vars) v :
  for_each (i :: range) f v = f i v ≫= for_each range f.
Proof. done. Qed.

(** The outer loop walks the lengths [i, i+1, ...] whose counts are
    [lens] and follows [canonical_from]. *)
Lemma for_each_assign (bits_table lens : list Z) i v :
  0 <= i -> Forall is_uint8 lens ->
  (forall (j : nat) nb,
     lens !! j = Some nb -> byte_at bits_table (i + Z.of_nat j) = Some nb) ->
  0 <= k v ->
  (Z.to_nat (k v) + length (canonical_from i lens (code v))
   <= length val_table)%nat ->
  length (huff_size v) = 256%nat -> length (huff_code v) = 256%nat ->
  exists v',
    for_each (seqZ i (Z.of_nat (length lens)))
      (outer_body bits_table body) v = Some v' /\
    arrays v'
    = foldl (assign g) (arrays v)
        (zip (drop (Z.to_nat (k v)) val_table)
             (canonical_from i lens (code v))) /\
    code v' = foldl (fun c nb => Z.shiftl (c + nb) 1) (code v) lens.
Proof using body_follows.
  revert i v.
  induction lens as [|nb lens IH]; intros i v Hi Hbytes Hbits Hk Hfit Hhs Hhc.
  { exists v. simpl. by rewrite zip_with_nil_r. }
  apply Forall_cons in Hbytes as [Hnb Hbytes]. unfold is_uint8 in Hnb.
  simpl in Hfit. rewrite length_app, consecutive_length in Hfit.
  specialize (Hbits 0%nat nb eq_refl) as Hnb_at.
  rewrite Z.add_0_r in Hnb_at.
  set (a1 := foldl (assign g) (arrays v)
               (zip (take (Z.to_nat nb) (drop (Z.to_nat (k v)) val_table))
                    (consecutive i (code v) (Z.to_nat nb)))).
  assert (Hstep : outer_body bits_table body i v
                  = Some (mkvars a1.1 a1.2 (k v + nb)
                            (Z.shiftl (code v + nb) 1))).
  { unfold outer_body. rewrite Hnb_at. simpl.
    rewrite repeat_body_assign by (done || lia). simpl.
    by rewrite Z2Nat.id by lia. }
  destruct (foldl_assign_length g
              (zip (take (Z.to_nat nb) (drop (Z.to_nat (k v)) val_table))
                   (consecutive i (code v) (Z.to_nat nb)))
              (arrays v)) as [Hl1 Hl2].
  fold a1 in Hl1, Hl2. simpl in Hl1, Hl2.
  destruct (IH (i + 1) (mkvars a1.1 a1.2 (k v + nb)
                          (Z.shiftl (code v + nb) 1)))
    as (v' & Hrun & Harr & Hcode); simpl; try lia; try congruence.
  { intros j nb' Hj. rewrite <- Z.add_assoc.
    replace (1 + Z.of_nat j) with (Z.of_nat (S j)) by lia.
    by apply Hbits. }
  change (length (nb :: lens)) with (S (length lens)).
  rewrite Nat2Z.inj_succ, seqZ_cons by lia.
  rewrite for_each_cons, Hstep. simpl.
  exists v'. rewrite Z.pred_succ. split; [done|]. split; [|done].
  rewrite Harr. simpl.
  rewrite zip_app_r by (rewrite consecutive_length, length_drop; lia).
  rewrite foldl_app, consecutive_length, drop_drop.
  replace (Z.to_nat (k v + nb)) with (Z.to_nat (k v) + Z.to_nat nb)%nat
    by lia.
  f_equal. unfold arrays; simpl. symmetry. apply surjective_pairing.
Qed.

(** The whole function is [assign_all]. *)
Lemma build_with_assign_all (huff_size huff_code bits_table : list Z) :
  length huff_size = 256%nat -> length huff_code = 256%nat ->
  length bits_table = 17%nat -> Forall is_uint8 bits_table ->
  (length (canonical bits_table) <= length val_table)%nat ->
  build_with body huff_size huff_code bits_table
  = Some (assign_all g huff_size huff_code bits_table val_table).
Proof using body_follows.
  intros Hhs Hhc Hbits Hbytes Hfit.
  unfold build_with. rewrite store_in_range by (unfold size; lia).
  cbn [mbind option_bind]. change (Z.to_nat 0) with 0%nat.
  destruct (for_each_assign bits_table (take 16 (drop 1 bits_table)) 1
              (mkvars (<[0%nat := 0]> huff_size) huff_code 0 0))
    as (v' & Hrun & Harr & _).
  - lia.
  - by apply Forall_take, Forall_drop.
  - intros j nb Hj. apply lookup_take_Some in Hj as [Hj _].
    rewrite lookup_drop in Hj.
    replace (1 + Z.of_nat j) with (Z.of_nat (1 + j)) by lia.
    by rewrite byte_at_lookup.
  - done.
  - exact Hfit.
  - simpl. by rewrite length_insert.
  - done.
  - rewrite length_take, length_drop, Hbits in Hrun.
    change (Z.of_nat (16 `min` (17 - 1))) with 16 in Hrun.
    rewrite Hrun. cbn [mbind option_bind].
    f_equal. transitivity (arrays v'); [done|].
    rewrite Harr. reflexivity.
Qed.

(** The running code after the last shift. *)
Lemma running_code_bound (lens : list Z) c :
  Forall is_uint8 lens -> 0 <= c ->
  0 <= foldl (fun c nb => Z.shiftl (c + nb) 1) c lens
    <= 2 ^ Z.of_nat (length lens) * (c + 510) - 510.
Proof using Type.
  revert c. induction lens as [|nb lens IH]; intros c Hbytes Hc.
  { simpl. lia. }
  apply Forall_cons in Hbytes as [Hnb Hbytes]. unfold is_uint8 in Hnb.
  cbn [foldl length]. rewrite Nat2Z.inj_succ, Z.pow_succ_r by lia.
  assert (Hpow : 0 < 2 ^ Z.of_nat (length lens))
    by (apply Z.pow_pos_nonneg; lia).
  rewrite Z.shiftl_mul_pow2 by lia.
  specialize (IH ((c + nb) * 2 ^ 1) Hbytes ltac:(lia)). nia.
Qed.

(** The loops end with [code] inside the [int] range. *)
Lemma running_code_in_int_range (huff_size huff_code bits_table : list Z) :
  length huff_size = 256%nat -> length huff_code = 256%nat ->
  length bits_table = 17%nat -> Forall is_uint8 bits_table ->
  (length (canonical bits_table) <= length val_table)%nat ->
  exists v',
    for_each (seqZ 1 16) (outer_body bits_table body)
      (mkvars (<[0%nat := 0]> huff_size) huff_code 0 0) = Some v' /\
    0 <= code v' < 2 ^ 31.
Proof using body_follows.
  intros Hhs Hhc Hbits Hbytes Hfit.
  destruct (for_each_assign bits_table (take 16 (drop 1 bits_table)) 1
              (mkvars (<[0%nat := 0]> huff_size) huff_code 0 0))
    as (v' & Hrun & _ & Hcode).
  - lia.
  - by apply Forall_take, Forall_drop.
  - intros j nb Hj. apply lookup_take_Some in Hj as [Hj _].
    rewrite lookup_drop in Hj.
    replace (1 + Z.of_nat j) with (Z.of_nat (1 + j)) by lia.
    by rewrite byte_at_lookup.
  - done.
  - exact Hfit.
  - simpl. by rewrite length_insert.
  - done.
  - rewrite length_take, length_drop, Hbits in Hrun.
    change (Z.of_nat (16 `min` (17 - 1))) with 16 in Hrun.
    exists v'. split; [done|]. rewrite Hcode. simpl code.
    pose proof (running_code_bound (take 16 (drop 1 bits_table)) 0
                  ltac:(by apply Forall_take, Forall_drop) ltac:(lia))
      as Hbound.
    rewrite length_take, length_drop, Hbits in Hbound.
    change (Z.of_nat (16 `min` (17 - 1))) with 16 in Hbound.
    change (2 ^ 16 * (0 + 510) - 510) with 33422850 in Hbound.
    change (2 ^ 31) with 2147483648. lia.
Qed.

End HuffmanLoops.

Section HuffmanAssign.

Import Huffman.

Local Arguments assign : simpl never.

Lemma assign_other g a e sym :
  0 <= sym -> 0 <= e.1 -> e.1 <> sym ->
  (assign g a e).1 !! Z.to_nat sym = a.1 !! Z.to_nat sym /\
  (assign g a e).2 !! Z.to_nat sym = a.2 !! Z.to_nat sym.
Proof.
  destruct e as [sym' [len c]]. simpl. intros Hsym Hsym' Hne.
  unfold assign. case_match; [done|]. simpl.
  by rewrite !list_lookup_insert_ne by lia.
Qed.

(** A symbol that does not occur keeps its entries. *)
Lemma foldl_assign_absent g es a sym :
  0 <= sym -> symbols_ok es -> Forall (fun e => e.1 <> sym) es ->
  (foldl (assign g) a es).1 !! Z.to_nat sym = a.1 !! Z.to_nat sym /\
  (foldl (assign g) a es).2 !! Z.to_nat sym = a.2 !! Z.to_nat sym.
Proof.
  intros Hsym. revert a.
  induction es as [|e es IH]; intros a Hok Hne; simpl; [done|].
  apply Forall_cons in Hok as [He Hok]. apply Forall_cons in Hne as [Hn Hne].
  destruct (IH (assign g a e) Hok Hne) as [-> ->].
  by apply assign_other.
Qed.

(** For a symbol other than 0, its last occurrence decides. *)
Lemma foldl_assign_last g es1 es2 a sym len c :
  0 < sym -> (Z.to_nat sym < length a.1)%nat ->
  (Z.to_nat sym < length a.2)%nat ->
  symbols_ok es2 -> Forall (fun e => e.1 <> sym) es2 ->
  let r := foldl (assign g) a (es1 ++ (sym, (len, c)) :: es2) in
  r.1 !! Z.to_nat sym = Some (uint8 len) /\
  r.2 !! Z.to_nat sym = Some (uint16 c).
Proof.
  intros Hsym Hl1 Hl2 Hok Hne r. subst r.
  rewrite foldl_app. simpl.
  set (a1 := foldl (assign g) a es1).
  destruct (foldl_assign_length g es1 a) as [Hl1' Hl2']. fold a1 in Hl1', Hl2'.
  destruct (foldl_assign_absent g es2 (assign g a1 (sym, (len, c))) sym)
    as [-> ->]; [lia|done..|].
  unfold assign.
  rewrite bool_decide_eq_false_2 by (intros []; lia).
  rewrite andb_false_r. simpl.
  by rewrite !list_lookup_insert_eq by lia.
Qed.

(** Once the length of symbol 0 is set, the guard keeps its entries. *)
Lemma foldl_assign_frozen es a x :
  a.1 !! 0%nat = Some x -> x <> 0 -> symbols_ok es ->
  (foldl (assign true) a es).1 !! 0%nat = Some x /\
  (foldl (assign true) a es).2 !! 0%nat = a.2 !! 0%nat.
Proof.
  intros Hx Hx0. revert a Hx.
  induction es as [|e es IH]; intros a Hx Hok; simpl; [done|].
  apply Forall_cons in Hok as [He Hok].
  destruct e as [sym [len c]]. simpl in He.
  destruct (decide (sym = 0)) as [->|Hsym].
  - unfold assign at 2 4. rewrite bool_decide_eq_true_2; [by apply IH|].
    split; congruence.
  - destruct (assign_other true a (sym, (len, c)) 0) as [H1 H2];
      [done..|].
    change (Z.to_nat 0) with 0%nat in H1, H2.
    destruct (IH (assign true a (sym, (len, c)))) as [-> ->];
      [congruence|done|].
    by rewrite H2.
Qed.

(** For symbol 0, its first occurrence decides. *)
Lemma foldl_assign_first es1 es2 a len c :
  a.1 !! 0%nat = Some 0 -> (0 < length a.2)%nat ->
  symbols_ok es1 -> symbols_ok es2 ->
  Forall (fun e => e.1 <> 0) es1 -> uint8 len <> 0 ->
  let r := foldl (assign true) a (es1 ++ (0, (len, c)) :: es2) in
  r.1 !! 0%nat = Some (uint8 len) /\ r.2 !! 0%nat = Some (uint16 c).
Proof.
  intros H0 Hl2 Hok1 Hok2 Hne Hlen r. subst r.
  rewrite foldl_app. simpl.
  set (a1 := foldl (assign true) a es1).
  destruct (foldl_assign_length true es1 a) as [Hl1' Hl2'].
  fold a1 in Hl1', Hl2'.
  destruct (foldl_assign_absent true es1 a 0) as [H1 H2]; [done..|].
  change (Z.to_nat 0) with 0%nat in H1, H2. fold a1 in H1, H2.
  assert (Hl1 : (0 < length a1.1)%nat).
  { apply lookup_lt_is_Some. rewrite H1, H0. by eexists. }
  assert (Hset : assign true a1 (0, (len, c))
                 = (<[0%nat := uint8 len]> a1.1, <[0%nat := uint16 c]> a1.2)).
  { unfold assign. rewrite bool_decide_eq_false_2; [done|].
    intros [_ Hn]. apply Hn. by rewrite H1. }
  rewrite Hset.
  destruct (foldl_assign_frozen es2
              (<[0%nat := uint8 len]> a1.1, <[0%nat := uint16 c]> a1.2)
              (uint8 len)) as [-> ->]; simpl; try done.
  - by rewrite list_lookup_insert_eq by lia.
  - by rewrite !list_lookup_insert_eq by lia.
Qed.

(** With and without the guard, the entries of every symbol other than
    0 are the same. *)
Lemma foldl_assign_agree es a a' :
  length a.1 = length a'.1 -> length a.2 = length a'.2 ->
  symbols_ok es ->
  (forall sym, 0 < sym ->
     a.1 !! Z.to_nat sym = a'.1 !! Z.to_nat sym /\
     a.2 !! Z.to_nat sym = a'.2 !! Z.to_nat sym) ->
  forall sym, 0 < sym ->
    (foldl (assign true) a es).1 !! Z.to_nat sym
    = (foldl (assign false) a' es).1 !! Z.to_nat sym /\
    (foldl (assign true) a es).2 !! Z.to_nat sym
    = (foldl (assign false) a' es).2 !! Z.to_nat sym.
Proof.
  revert a a'.
  induction es as [|e es IH]; intros a a' Hl1 Hl2 Hok Hagree; simpl;
    [done|].
  apply Forall_cons in Hok as [He Hok].
  destruct (assign_length true a e) as [Hl1t Hl2t].
  destruct (assign_length false a' e) as [Hl1f Hl2f].
  apply IH; [congruence..|done|].
  intros sym Hsym. destruct (Hagree sym Hsym) as [H1 H2].
  destruct e as [sym' [len c]]. simpl in He.
  destruct (decide (sym' = sym)) as [->|Hne].
  - unfold assign.
    rewrite bool_decide_eq_false_2 by (intros []; lia). simpl.
    destruct (decide (Z.to_nat sym < length a.1)%nat).
    + rewrite !list_lookup_insert_eq by lia.
      destruct (decide (Z.to_nat sym < length a.2)%nat).
      * by rewrite !list_lookup_insert_eq by lia.
      * by rewrite !list_insert_ge by lia.
    + rewrite !(list_insert_ge a.1), !(list_insert_ge a'.1) by lia.
      destruct (decide (Z.to_nat sym < length a.2)%nat).
      * by rewrite !list_lookup_insert_eq by lia.
      * by rewrite !list_insert_ge by lia.
  - destruct (assign_other true a (sym', (len, c)) sym) as [-> ->];
      [lia|done..|].
    by destruct (assign_other false a' (sym', (len, c)) sym) as [-> ->];
      [lia|done..|].
Qed.

End HuffmanAssign.

Section HuffmanClaims.

Import Huffman.

(** Lengths are those walked, codes stay far below the [int] range. *)
Lemma canonical_from_bound lens i code len c :
  Forall is_uint8 lens -> 0 <= code ->
  (len, c) ∈ canonical_from i lens code ->
  i <= len < i + Z.of_nat (length lens) /\
  0 <= c < 2 ^ Z.of_nat (length lens) * (code + 510).
Proof.
  revert i code.
  induction lens as [|nb lens IH]; intros i code Hbytes Hcode Hin; simpl in *.
  { by apply elem_of_nil in Hin. }
  apply Forall_cons in Hbytes as [Hnb Hbytes]. unfold is_uint8 in Hnb.
  assert (Hpow : 0 < 2 ^ Z.of_nat (length lens)) by (apply Z.pow_pos_nonneg; lia).
  rewrite Nat2Z.inj_succ, Z.pow_succ_r by lia.
  apply elem_of_app in Hin as [Hin|Hin].
  - assert (Hrun : forall n code', 0 <= code' ->
              (len, c) ∈ consecutive i code' n ->
              len = i /\ code' <= c < code' + Z.of_nat n).
    { clear. induction n as [|n IHn]; intros code' Hc Hin; simpl in Hin.
      - by apply elem_of_nil in Hin.
      - apply elem_of_cons in Hin as [[= -> ->]|Hin]; [lia|].
        apply IHn in Hin; lia. }
    apply Hrun in Hin as [-> Hc]; [|done]. nia.
  - apply IH in Hin as [Hlen Hc]; [|done|].
    + rewrite Z.shiftl_mul_pow2 in Hc by lia. nia.
    + rewrite Z.shiftl_mul_pow2 by lia. lia.
Qed.

Lemma canonical_bound bits_table len c :
  Forall is_uint8 bits_table -> (len, c) ∈ canonical bits_table ->
  1 <= len <= 16 /\ 0 <= c < 2 ^ 31.
Proof.
  intros Hbytes Hin. unfold canonical in Hin.
  apply canonical_from_bound in Hin as [Hlen Hc];
    [|by apply Forall_take, Forall_drop|done].
  rewrite length_take in *.
  assert (Hle : 0 <= Z.of_nat (16 `min` length (drop 1 bits_table)) <= 16)
    by lia.
  split; [lia|]. split; [lia|].
  eapply Z.lt_le_trans; [apply Hc|].
  transitivity (2 ^ 16 * 510); [|done].
  apply Z.mul_le_mono_nonneg_r; [lia|].
  apply Z.pow_le_mono_r; lia.
Qed.

Lemma zip_symbols_ok (val_table : list Z) (codes : list (Z * Z)) :
  Forall is_uint8 val_table -> symbols_ok (zip val_table codes).
Proof.
  intros Hbytes. apply Forall_lookup_2. intros p [sym e] Hp.
  apply lookup_zip_with_Some in Hp as (x & y & [= <- <-] & Hx & _).
  simpl. by destruct (Forall_lookup_1 _ _ _ _ Hbytes Hx).
Qed.

Lemma set_symbol_keeps v sym i w :
  set_symbol v sym i = Some w -> k w = k v /\ code w = code v.
Proof.
  unfold set_symbol.
  destruct (store (huff_size v) sym _); [|done]. simpl.
  destruct (store (huff_code v) sym _); [|done]. simpl.
  by intros [= <-].
Qed.

(** The loop body advances [k] and [code] by one, whether or not it
    assigns. *)
Lemma inner_body_advances val_table i v v' :
  inner_body val_table i v = Some v' ->
  k v' = k v + 1 /\ code v' = code v + 1.
Proof.
  unfold inner_body.
  destruct (byte_at val_table (k v)) as [sym|]; [|done]. simpl.
  case_decide.
  - destruct (set_symbol _ sym i) as [w|] eqn:Hw; [|done].
    apply set_symbol_keeps in Hw as [Hk Hc]. simpl in *.
    intros [= <-]. simpl. lia.
  - destruct (byte_at (huff_size v) sym) as [s|]; [|done]. simpl.
    case_decide.
    + destruct (set_symbol _ sym i) as [w|] eqn:Hw; [|done].
      apply set_symbol_keeps in Hw as [Hk Hc]. simpl in *.
      intros [= <-]. simpl. lia.
    + simpl. by intros [= <-].
Qed.

Lemma zip_lookup (val_table : list Z) (codes : list (Z * Z)) p sym len c :
  val_table !! p = Some sym -> codes !! p = Some (len, c) ->
  zip val_table codes !! p = Some (sym, (len, c)).
Proof.
  intros Hsym Hcode. apply lookup_zip_with_Some. by exists sym, (len, c).
Qed.

(** C2. With 256-entry output arrays, a 17-entry bit-length table and a
    value table that holds the symbols counted by it, the function
    returns, and its result is the canonical assignment of the spec
    applied in value-table order ([assign_all]).  Position by position:
    the lengths are in 1..16 and the running code stays in the [int]
    range; a symbol other than 0 ends with the length and the (16-bit)
    code of its last position; symbol 0 ends with the length and code
    of its first position, so later occurrences of 0 leave them
    unchanged. *)
Theorem huffman_build_codes
    (huff_size huff_code bits_table val_table : list Z) :
  length huff_size = 256%nat -> length huff_code = 256%nat ->
  length bits_table = 17%nat -> Forall is_uint8 bits_table ->
  Forall is_uint8 val_table ->
  (length (canonical bits_table) <= length val_table)%nat ->
  exists hs hc,
    ff_mjpeg_build_huffman_codes huff_size huff_code bits_table val_table
    = Some (hs, hc) /\
    (hs, hc) = assign_all true huff_size huff_code bits_table val_table /\
    forall p sym len c,
      val_table !! p = Some sym ->
      canonical bits_table !! p = Some (len, c) ->
      1 <= len <= 16 /\ 0 <= c < 2 ^ 31 /\
      (sym <> 0 ->
       (forall p', (p < p' < length (canonical bits_table))%nat ->
                   val_table !! p' <> Some sym) ->
       hs !! Z.to_nat sym = Some len /\
       hc !! Z.to_nat sym = Some (uint16 c)) /\
      (sym = 0 ->
       (forall p', (p' < p)%nat -> val_table !! p' <> Some 0) ->
       hs !! 0%nat = Some len /\ hc !! 0%nat = Some (uint16 c)).
Proof.
  intros Hhs Hhc Hbits Hbytes Hvals Hfit.
  destruct (assign_all true huff_size huff_code bits_table val_table)
    as [hs hc] eqn:Hall.
  exists hs, hc. split; [|split; [done|]].
  { unfold ff_mjpeg_build_huffman_codes.
    rewrite (build_with_assign_all val_table true); try done.
    - by rewrite Hall.
    - by apply inner_body_follows. }
  intros p sym len c Hsym Hcode.
  destruct (canonical_bound bits_table len c) as [Hlen Hc]; [done|..].
  { by eapply list_elem_of_lookup_2. }
  split; [done|]. split; [done|].
  pose proof (Forall_lookup_1 _ _ _ _ Hvals Hsym) as Hb.
  unfold is_uint8 in Hb.
  pose proof (zip_lookup _ _ _ _ _ _ Hsym Hcode) as Hp.
  pose proof (take_drop_middle _ _ _ Hp) as Hsplit.
  pose proof (zip_symbols_ok val_table (canonical bits_table) Hvals) as Hok.
  unfold assign_all in Hall. rewrite <- Hsplit in Hall, Hok.
  apply Forall_app in Hok as [Hok1 Hok2].
  apply Forall_cons in Hok2 as [_ Hok2].
  assert (Hlen8 : uint8 len = len) by (apply uint8_id; unfold is_uint8; lia).
  split.
  - intros Hne Hlast.
    destruct (foldl_assign_last true
                (take p (zip val_table (canonical bits_table)))
                (drop (S p) (zip val_table (canonical bits_table)))
                (<[0%nat := 0]> huff_size, huff_code) sym len c)
      as [H1 H2]; simpl; rewrite ?length_insert; try lia; try done.
    + apply Forall_lookup_2. intros j [sym' e] Hj. simpl. intros ->.
      rewrite lookup_drop in Hj.
      apply lookup_zip_with_Some in Hj as (x & y & [= <- <-] & Hx & Hy).
      apply lookup_lt_Some in Hy.
      by apply (Hlast (S p + j)%nat); [lia|].
    + rewrite Hall in H1, H2. simpl in H1, H2. by rewrite <- Hlen8 at 1.
  - intros -> Hfirst.
    destruct (foldl_assign_first
                (take p (zip val_table (canonical bits_table)))
                (drop (S p) (zip val_table (canonical bits_table)))
                (<[0%nat := 0]> huff_size, huff_code) len c)
      as [H1 H2]; simpl; rewrite ?length_insert; try lia; try done.
    + by rewrite list_lookup_insert_eq by lia.
    + apply Forall_lookup_2. intros j [sym' e] Hj. simpl. intros ->.
      apply lookup_take_Some in Hj as [Hj Hjp].
      apply lookup_zip_with_Some in Hj as (x & y & [= <- <-] & Hx & Hy).
      by apply (Hfirst j).
    + rewrite Hall in H1, H2. simpl in H1, H2. by rewrite <- Hlen8 at 1.
Qed.

Lemma huffman_build_codes_witness :
  exists hs hc,
    ff_mjpeg_build_huffman_codes (replicate 256 7) (replicate 256 9)
      duplicate_zero_bits duplicate_zero_vals = Some (hs, hc) /\
    hs !! 0%nat = Some 1 /\ hc !! 0%nat = Some (uint16 0) /\
    hs !! 5%nat = Some 2 /\ hc !! 5%nat = Some (uint16 2).
Proof.
  destruct (huffman_build_codes (replicate 256 7) (replicate 256 9)
              duplicate_zero_bits duplicate_zero_vals)
    as (hs & hc & Hrun & _ & Hpos).
  - reflexivity.
  - reflexivity.
  - reflexivity.
  - unfold duplicate_zero_bits, is_uint8.
    repeat (apply Forall_cons; split; [lia|]). apply Forall_nil_2.
  - unfold duplicate_zero_vals, is_uint8.
    repeat (apply Forall_cons; split; [lia|]). apply Forall_nil_2.
  - vm_compute. lia.
  - exists hs, hc. split; [exact Hrun|].
    destruct (Hpos 0%nat 0 1 0) as (_ & _ & _ & H0); [reflexivity..|].
    destruct H0 as [H0s H0c]; [reflexivity|intros p' Hp'; lia|].
    destruct (Hpos 1%nat 5 2 2) as (_ & _ & H5 & _); [reflexivity..|].
    destruct H5 as [H5s H5c]; [done| |].
    { intros p' Hp'. vm_compute in Hp'.
      assert (p' = 2%nat) as -> by lia. discriminate. }
    exact (conj H0s (conj H0c (conj H5s H5c))).
Defined.

Lemma consecutive_lookup i code nb (j : nat) len c :
  consecutive i code nb !! j = Some (len, c) ->
  len = i /\ c = code + Z.of_nat j /\ (j < nb)%nat.
Proof.
  revert code j. induction nb as [|nb IH]; intros code j Hj; [done|].
  destruct j as [|j]; simpl in Hj.
  - injection Hj as <- <-. lia.
  - apply IH in Hj. lia.
Qed.

(** The first code handed out from a running code is that running
    code, shifted to the length at which it is handed out. *)
Lemma canonical_from_first lens i code len c :
  Forall is_uint8 lens ->
  canonical_from i lens code !! 0%nat = Some (len, c) ->
  i <= len /\ c = code * 2 ^ (len - i).
Proof.
  revert i code.
  induction lens as [|nb lens IH]; intros i code Hbytes Hfirst;
    simpl in *; [done|].
  apply Forall_cons in Hbytes as [Hnb Hbytes]. unfold is_uint8 in Hnb.
  destruct (Z.to_nat nb) as [|n] eqn:Hn; simpl in Hfirst.
  - assert (nb = 0) as -> by lia.
    apply IH in Hfirst as [Hlen ->]; [|done].
    split; [lia|].
    rewrite Z.add_0_r, Z.shiftl_mul_pow2 by lia.
    replace (len - i) with (Z.succ (len - (i + 1))) by lia.
    rewrite Z.pow_succ_r by lia. change (2 ^ 1) with 2. lia.
  - injection Hfirst as <- <-. rewrite Z.sub_diag. simpl. lia.
Qed.

(** From one position to the next the code goes up by one, and is
    shifted left when the length grows: every position takes a code,
    whatever symbol the value table holds there. *)
Lemma canonical_from_next lens i code (p : nat) len c len' c' :
  Forall is_uint8 lens ->
  canonical_from i lens code !! p = Some (len, c) ->
  canonical_from i lens code !! S p = Some (len', c') ->
  len <= len' /\ c' = (c + 1) * 2 ^ (len' - len).
Proof.
  revert i code p.
  induction lens as [|nb lens IH]; intros i code p Hbytes Hp Hq;
    simpl in *; [done|].
  apply Forall_cons in Hbytes as [Hnb Hbytes]. unfold is_uint8 in Hnb.
  apply lookup_app_Some in Hp as [Hp|[Hpl Hp]];
    apply lookup_app_Some in Hq as [Hq|[Hql Hq]].
  - apply consecutive_lookup in Hp as (-> & -> & _).
    apply consecutive_lookup in Hq as (-> & -> & _).
    rewrite Z.sub_diag. simpl. lia.
  - apply consecutive_lookup in Hp as (-> & -> & Hp).
    rewrite consecutive_length in Hql.
    replace (S p - length (consecutive i code (Z.to_nat nb)))%nat
      with 0%nat in Hq by (rewrite consecutive_length; lia).
    apply canonical_from_first in Hq as [Hlen ->]; [|done].
    split; [lia|].
    rewrite Z.shiftl_mul_pow2 by lia.
    replace (len' - i) with (Z.succ (len' - (i + 1))) by lia.
    rewrite Z.pow_succ_r by lia. change (2 ^ 1) with 2.
    replace (code + Z.of_nat p + 1) with (code + nb) by lia. lia.
  - apply lookup_lt_Some in Hq. lia.
  - replace (S p - length (consecutive i code (Z.to_nat nb)))%nat
      with (S (p - length (consecutive i code (Z.to_nat nb)))) in Hq by lia.
    by eapply IH.
Qed.

(** A symbol other than 0 ends with the length and code of the last
    position that holds it, with the guard on symbol 0 or without. *)
Lemma assign_all_last g (huff_size huff_code bits_table val_table : list Z)
    (p : nat) sym len c :
  length huff_size = 256%nat -> length huff_code = 256%nat ->
  Forall is_uint8 bits_table -> Forall is_uint8 val_table ->
  0 < sym -> val_table !! p = Some sym ->
  canonical bits_table !! p = Some (len, c) ->
  (forall p', (p < p' < length (canonical bits_table))%nat ->
              val_table !! p' <> Some sym) ->
  (assign_all g huff_size huff_code bits_table val_table).1
    !! Z.to_nat sym = Some len /\
  (assign_all g huff_size huff_code bits_table val_table).2
    !! Z.to_nat sym = Some (uint16 c).
Proof.
  intros Hhs Hhc Hbytes Hvals Hpos Hsym Hcode Hlast.
  destruct (canonical_bound bits_table len c) as [Hlen Hc]; [done|..].
  { by eapply list_elem_of_lookup_2. }
  pose proof (Forall_lookup_1 _ _ _ _ Hvals Hsym) as Hb.
  unfold is_uint8 in Hb.
  pose proof (zip_lookup _ _ _ _ _ _ Hsym Hcode) as Hp.
  pose proof (take_drop_middle _ _ _ Hp) as Hsplit.
  pose proof (zip_symbols_ok val_table (canonical bits_table) Hvals) as Hok.
  unfold assign_all. rewrite <- Hsplit. rewrite <- Hsplit in Hok.
  apply Forall_app in Hok as [Hok1 Hok2].
  apply Forall_cons in Hok2 as [_ Hok2].
  assert (Hlen8 : uint8 len = len) by (apply uint8_id; unfold is_uint8; lia).
  destruct (foldl_assign_last g
              (take p (zip val_table (canonical bits_table)))
              (drop (S p) (zip val_table (canonical bits_table)))
              (<[0%nat := 0]> huff_size, huff_code) sym len c)
    as [H1 H2]; simpl; rewrite ?length_insert; try lia; try done.
  - apply Forall_lookup_2. intros j [sym' e] Hj. simpl. intros ->.
    rewrite lookup_drop in Hj.
    apply lookup_zip_with_Some in Hj as (x & y & [= <- <-] & Hx & Hy).
    apply lookup_lt_Some in Hy.
    by apply (Hlast (S p + j)%nat); [lia|].
  - rewrite Hlen8 in H1. exact (conj H1 H2).
Qed.

(** C10. A skipped occurrence of symbol 0 still takes its code.  The
    loop body advances [k] and [code] by one whether or not it
    assigns.  The codes go by position in the value table: the code of
    a position is the code of the position before it plus one (shifted
    left when the length grows), whatever symbol that position holds, a
    skipped 0 included.  Every symbol other than 0 ends with the length
    and the code of its (last) position, and these are the entries it
    has in the arrays built without the guard, "as if the duplicate
    had been assigned". *)
Theorem huffman_skipped_duplicate_keeps_slot
    (huff_size huff_code bits_table val_table : list Z) :
  length huff_size = 256%nat -> length huff_code = 256%nat ->
  length bits_table = 17%nat -> Forall is_uint8 bits_table ->
  Forall is_uint8 val_table ->
  (length (canonical bits_table) <= length val_table)%nat ->
  (forall i v v',
     inner_body val_table i v = Some v' ->
     k v' = k v + 1 /\ code v' = code v + 1) /\
  (forall (p : nat) len c len' c',
     canonical bits_table !! p = Some (len, c) ->
     canonical bits_table !! S p = Some (len', c') ->
     len <= len' /\ c' = (c + 1) * 2 ^ (len' - len)) /\
  exists hs hc hs' hc',
    ff_mjpeg_build_huffman_codes huff_size huff_code bits_table val_table
    = Some (hs, hc) /\
    build_unguarded huff_size huff_code bits_table val_table
    = Some (hs', hc') /\
    (forall sym, 0 < sym ->
       hs !! Z.to_nat sym = hs' !! Z.to_nat sym /\
       hc !! Z.to_nat sym = hc' !! Z.to_nat sym) /\
    (forall (p : nat) sym len c,
       0 < sym -> val_table !! p = Some sym ->
       canonical bits_table !! p = Some (len, c) ->
       (forall p', (p < p' < length (canonical bits_table))%nat ->
                   val_table !! p' <> Some sym) ->
       hs !! Z.to_nat sym = Some len /\
       hc !! Z.to_nat sym = Some (uint16 c)).
Proof.
  intros Hhs Hhc Hbits Hbytes Hvals Hfit.
  split; [apply inner_body_advances|].
  split.
  { intros p len c len' c' Hp Hq. unfold canonical in Hp, Hq.
    eapply canonical_from_next; [|exact Hp|exact Hq].
    by apply Forall_take, Forall_drop. }
  destruct (assign_all true huff_size huff_code bits_table val_table)
    as [hs hc] eqn:Hguarded.
  destruct (assign_all false huff_size huff_code bits_table val_table)
    as [hs' hc'] eqn:Hunguarded.
  exists hs, hc, hs', hc'. split; [|split; [|split]].
  - unfold ff_mjpeg_build_huffman_codes.
    rewrite (build_with_assign_all val_table true); try done.
    + by rewrite Hguarded.
    + by apply inner_body_follows.
  - unfold build_unguarded.
    rewrite (build_with_assign_all val_table false); try done.
    + by rewrite Hunguarded.
    + by apply inner_body_unguarded_follows.
  - intros sym Hsym.
    pose proof (foldl_assign_agree
                  (zip val_table (canonical bits_table))
                  (<[0%nat := 0]> huff_size, huff_code)
                  (<[0%nat := 0]> huff_size, huff_code)
                  eq_refl eq_refl
                  (zip_symbols_ok _ _ Hvals)
                  (fun _ _ => conj eq_refl eq_refl) sym Hsym) as Hagree.
    unfold assign_all in Hguarded, Hunguarded.
    by rewrite Hguarded, Hunguarded in Hagree.
  - intros p sym len c Hsym Hp Hcode Hlast.
    pose proof (assign_all_last true huff_size huff_code bits_table
                  val_table p sym len c Hhs Hhc Hbytes Hvals Hsym Hp Hcode
                  Hlast) as Hentry.
    by rewrite Hguarded in Hentry.
Qed.

Lemma huffman_skipped_duplicate_keeps_slot_witness :
  exists hs hc hs' hc',
    ff_mjpeg_build_huffman_codes (replicate 256 7) (replicate 256 9)
      duplicate_zero_bits skipped_zero_vals = Some (hs, hc) /\
    build_unguarded (replicate 256 7) (replicate 256 9)
      duplicate_zero_bits skipped_zero_vals = Some (hs', hc') /\
    hs !! 5%nat = Some 2 /\ hc !! 5%nat = Some 3 /\
    hs' !! 5%nat = Some 2 /\ hc' !! 5%nat = Some 3.
Proof.
  destruct (huffman_skipped_duplicate_keeps_slot
              (replicate 256 7) (replicate 256 9)
              duplicate_zero_bits skipped_zero_vals)
    as (_ & _ & hs & hc & hs' & hc' & Hguarded & Hunguarded & Hagree & Hpos).
  - reflexivity.
  - reflexivity.
  - reflexivity.
  - unfold duplicate_zero_bits, is_uint8.
    repeat (apply Forall_cons; split; [lia|]). apply Forall_nil_2.
  - unfold skipped_zero_vals, is_uint8.
    repeat (apply Forall_cons; split; [lia|]). apply Forall_nil_2.
  - vm_compute. lia.
  - exists hs, hc, hs', hc'.
    destruct (Hpos 2%nat 5 2 3) as [H1 H2];
      [lia|reflexivity|reflexivity| |].
    { intros p' Hp'. vm_compute in Hp'. lia. }
    destruct (Hagree 5) as [A1 A2]; [lia|].
    pose proof (eq_trans (eq_sym A1) H1) as H1'.
    pose proof (eq_trans (eq_sym A2) H2) as H2'.
    exact (conj Hguarded (conj Hunguarded
             (conj H1 (conj H2 (conj H1' H2'))))).
Defined.

End HuffmanClaims.

(** ** Jfif: the header builder *)

Section WriterFacts.

Import Jfif.

Local Arguments seqZ : simpl never.

Lemma size_cons (x : Z) (l : list Z) : size (x :: l) = 1 + size l.
Proof. unfold size. simpl length. lia. Qed.

Lemma size_nil : size (@nil Z) = 0.
Proof. done. Qed.

Context (cap : Z).

(** A writer that has not run out of room: [bs] written so far. *)
Local Abbreviation writer bs := (mkctx bs cap false).

Lemma put_byte_room bs v :
  size bs + 1 <= cap ->
  bytestream2_put_byte (writer bs) v = writer (bs ++ [uint8 v]).
Proof.
  intros Hroom. unfold bytestream2_put_byte, room. simpl.
  by rewrite bool_decide_eq_true_2 by lia.
Qed.

Lemma put_be16_room bs v :
  size bs + 2 <= cap ->
  bytestream2_put_be16 (writer bs) v = writer (bs ++ be16 v).
Proof.
  intros Hroom. unfold bytestream2_put_be16, room. simpl.
  by rewrite bool_decide_eq_true_2 by lia.
Qed.

Lemma put_buffer_room bs src :
  size bs + size src <= cap ->
  bytestream2_put_buffer (writer bs) src = writer (bs ++ src).
Proof.
  intros Hroom. unfold bytestream2_put_buffer, room. simpl.
  pose proof (size_nonneg src).
  rewrite Z.min_r by lia.
  rewrite bool_decide_eq_false_2 by (intros Hne; by apply Hne).
  unfold size. by rewrite Nat2Z.id, firstn_all.
Qed.

Lemma put_marker_room bs code :
  size bs + 2 <= cap ->
  jpeg_put_marker (writer bs) code = writer (bs ++ [0xff; uint8 code]).
Proof.
  intros Hroom. unfold jpeg_put_marker.
  rewrite put_byte_room by lia.
  rewrite put_byte_room by (rewrite size_app, size_cons, size_nil; lia).
  by rewrite <- app_assoc.
Qed.

(** A loop that puts the bytes [table[from .. from + n - 1]] one by one
    and folds them into an accumulator. *)
Lemma for_each_put_bytes {A : Type} (f : A -> Z -> A) (table : list Z)
    (n : nat) from acc bs :
  0 <= from -> from + Z.of_nat n <= size table ->
  size bs + Z.of_nat n <= cap ->
  let slice := take n (drop (Z.to_nat from) table) in
  for_each (seqZ from (Z.of_nat n))
    (fun i '(acc, p) =>
       b ← byte_at table i; Some (f acc b, bytestream2_put_byte p b))
    (acc, writer bs)
  = Some (foldl f acc slice, writer (bs ++ (uint8 <$> slice))).
Proof.
  revert from acc bs.
  induction n as [|n IH]; intros from acc bs Hfrom Hin Hroom slice;
    subst slice.
  { simpl. by rewrite app_nil_r. }
  rewrite Nat2Z.inj_succ, seqZ_cons by lia.
  destruct (byte_at_is_Some table from) as [b Hb]; [lia|].
  cbn [for_each]. rewrite Hb. cbn [mbind option_bind].
  rewrite put_byte_room by lia.
  rewrite Z.pred_succ, IH; try lia.
  - unfold byte_at in Hb. rewrite decide_True in Hb by done.
    rewrite (drop_S _ _ _ Hb). simpl.
    replace (Z.to_nat (Z.succ from)) with (S (Z.to_nat from)) by lia.
    by rewrite <- app_assoc.
  - rewrite size_app, size_cons, size_nil. lia.
Qed.

Lemma foldl_add_nonneg (l : list Z) acc :
  Forall is_uint8 l -> 0 <= acc -> 0 <= foldl Z.add acc l.
Proof.
  revert acc. induction l as [|x l IH]; intros acc Hl Hacc; simpl; [done|].
  apply Forall_cons in Hl as [Hx Hl]. unfold is_uint8 in Hx.
  apply IH; [done|lia].
Qed.

(** One Huffman table of the DHT segment. *)
Lemma jpeg_create_huffman_table_room bs table_class table_id
    (bits_table value_table : list Z) :
  length bits_table = 17%nat -> Forall is_uint8 bits_table ->
  let n := foldl Z.add 0 (take 16 (drop 1 bits_table)) in
  n <= size value_table ->
  size bs + 17 + n <= cap ->
  jpeg_create_huffman_table (writer bs) table_class table_id
    bits_table value_table
  = Some (n + 17,
          writer (bs ++ dht_table table_class table_id
                          bits_table value_table)).
Proof.
  intros Hlen Hbytes n Hvals Hroom.
  assert (Hn : 0 <= n).
  { apply foldl_add_nonneg; [|done]. by apply Forall_take, Forall_drop. }
  unfold jpeg_create_huffman_table.
  rewrite put_byte_room by lia.
  pose proof (for_each_put_bytes Z.add bits_table 16 1 0
                (bs ++ [uint8 (Z.lor (Z.shiftl table_class 4) table_id)]))
    as Hcounts.
  cbv zeta in Hcounts. change (Z.of_nat 16) with 16 in Hcounts.
  change (Z.to_nat 1) with 1%nat in Hcounts.
  rewrite Hcounts; cycle 1.
  { lia. }
  { unfold size. rewrite Hlen. lia. }
  { rewrite size_app, size_cons, size_nil. lia. }
  cbn [mbind option_bind]. fold n.
  pose proof (for_each_put_bytes (fun (u : unit) _ => u) value_table
                (Z.to_nat n) 0 tt
                (bs ++ [uint8 (Z.lor (Z.shiftl table_class 4) table_id)]
                 ++ (uint8 <$> take 16 (drop 1 bits_table))))
    as Hsyms.
  cbv zeta in Hsyms. rewrite Z2Nat.id in Hsyms by done.
  rewrite <- app_assoc.
  rewrite Hsyms; cycle 1.
  { lia. }
  { lia. }
  { rewrite !size_app, size_cons, size_nil.
    unfold size at 2. rewrite length_fmap, length_take, length_drop, Hlen.
    simpl. lia. }
  cbn [mbind option_bind]. unfold dht_table. fold n.
  change (Z.to_nat 0) with 0%nat. rewrite drop_0.
  by rewrite <- !app_assoc.
Qed.

(** The loop of the DQT segment. *)
Lemma dqt_loop_room (qtable : list Z) (n : nat) from bs :
  0 <= from -> 64 * (from + Z.of_nat n) <= size qtable ->
  size bs + 65 * Z.of_nat n <= cap ->
  for_each (seqZ from (Z.of_nat n))
    (fun i '(u, pbc) =>
       let pbc := bytestream2_put_byte pbc i in
       table ← bytes_at qtable (64 * i) 64;
       Some (u, bytestream2_put_buffer pbc table))
    (tt, writer bs)
  = Some (tt, writer (bs ++ dqt_tables qtable from n)).
Proof.
  revert from bs.
  induction n as [|n IH]; intros from bs Hfrom Hin Hroom.
  { simpl. by rewrite app_nil_r. }
  rewrite Nat2Z.inj_succ, seqZ_cons by lia.
  cbn [for_each]. cbv zeta.
  unfold bytes_at. rewrite decide_True by lia.
  cbn [mbind option_bind].
  rewrite put_byte_room by lia.
  assert (Htable : size (take (Z.to_nat 64)
                           (drop (Z.to_nat (64 * from)) qtable)) = 64).
  { unfold size in *. rewrite length_take, length_drop. lia. }
  rewrite put_buffer_room
    by (rewrite Htable, size_app, size_cons, size_nil; lia).
  rewrite Z.pred_succ, IH; try lia.
  - simpl. by rewrite <- !app_assoc.
  - rewrite !size_app, Htable, size_cons, size_nil. lia.
Qed.

Lemma dqt_tables_size (qtable : list Z) (n : nat) from :
  0 <= from -> 64 * (from + Z.of_nat n) <= size qtable ->
  size (dqt_tables qtable from n) = 65 * Z.of_nat n.
Proof.
  revert from. induction n as [|n IH]; intros from Hfrom Hin; [done|].
  cbn [dqt_tables]. rewrite !size_app, size_cons, size_nil, IH by lia.
  unfold size in *. rewrite length_take, length_drop. lia.
Qed.

(** The length of the DHT segment is patched in after the tables. *)
Lemma AV_WB16_patch (pre post : list Z) a b v :
  AV_WB16 (writer (pre ++ [a; b] ++ post)) (size pre) v
  = Some (writer (pre ++ be16 v ++ post)).
Proof.
  unfold AV_WB16. simpl.
  rewrite decide_True; last first.
  { rewrite size_app, !size_cons. pose proof (size_nonneg pre).
    pose proof (size_nonneg post). lia. }
  unfold size.
  replace (Z.to_nat (Z.of_nat (length pre) + 1)) with (length pre + 1)%nat
    by lia.
  replace (Z.to_nat (Z.of_nat (length pre))) with (length pre + 0)%nat
    by lia.
  by rewrite !insert_app_r.
Qed.

End WriterFacts.

Section HeaderLayout.

Import Jfif.

Local Arguments seqZ : simpl never.

Lemma dht_tables_size : size dht_tables = 416.
Proof. by vm_compute. Qed.

Lemma standard_tables_bytes :
  Forall is_uint8 Huffman.avpriv_mjpeg_bits_dc_luminance /\
  Forall is_uint8 Huffman.avpriv_mjpeg_bits_dc_chrominance /\
  Forall is_uint8 Huffman.avpriv_mjpeg_bits_ac_luminance /\
  Forall is_uint8 Huffman.avpriv_mjpeg_bits_ac_chrominance.
Proof.
  unfold is_uint8. repeat split.
  all: repeat (apply Forall_cons; split; [lia|]); apply Forall_nil_2.
Qed.

Lemma bind_Some {A B : Type} (x : A) (f : A -> option B) :
  Some x ≫= f = f x.
Proof. done. Qed.

Lemma tell_p_writer bs cap :
  bytestream2_tell_p (mkctx bs cap false) = size bs.
Proof. done. Qed.

Lemma written_writer bs cap : written (mkctx bs cap false) = bs.
Proof. done. Qed.

Lemma size_be16 v : size (be16 v) = 2.
Proof. done. Qed.

Lemma dht_table_sizes :
  size (dht_table 0 0 Huffman.avpriv_mjpeg_bits_dc_luminance
          Huffman.avpriv_mjpeg_val_dc) = 29 /\
  size (dht_table 0 1 Huffman.avpriv_mjpeg_bits_dc_chrominance
          Huffman.avpriv_mjpeg_val_dc) = 29 /\
  size (dht_table 1 0 Huffman.avpriv_mjpeg_bits_ac_luminance
          Huffman.avpriv_mjpeg_val_ac_luminance) = 179 /\
  size (dht_table 1 1 Huffman.avpriv_mjpeg_bits_ac_chrominance
          Huffman.avpriv_mjpeg_val_ac_chrominance) = 179.
Proof. by vm_compute. Qed.

Lemma symbol_counts :
  foldl Z.add 0 (take 16 (drop 1 Huffman.avpriv_mjpeg_bits_dc_luminance))
  = 12 /\
  foldl Z.add 0 (take 16 (drop 1 Huffman.avpriv_mjpeg_bits_dc_chrominance))
  = 12 /\
  foldl Z.add 0 (take 16 (drop 1 Huffman.avpriv_mjpeg_bits_ac_luminance))
  = 162 /\
  foldl Z.add 0 (take 16 (drop 1 Huffman.avpriv_mjpeg_bits_ac_chrominance))
  = 162.
Proof. by vm_compute. Qed.

Ltac room :=
  rewrite ?size_app, ?size_be16, ?size_cons, ?size_nil;
  unfold JFIF_id; rewrite ?size_cons, ?size_nil;
  repeat match goal with
         | H : size ?x = _ |- context [size ?x] => rewrite H
         end;
  lia.

Ltac put :=
  first [ rewrite put_marker_room by room
        | rewrite put_be16_room by room
        | rewrite put_byte_room by room
        | rewrite put_buffer_room by room ].

Lemma dri_segment_size dri :
  size (dri_segment dri) = if decide (dri <> 0) then 6 else 0.
Proof. unfold dri_segment. by case_decide. Qed.

Context (buf_size type w h : Z) (qtable : list Z) (nb_qtable dri : Z).
Hypothesis Hnb : 0 <= nb_qtable.
Hypothesis Hqtable : 64 * nb_qtable <= size qtable.
Hypothesis Hroom :
  size (header_layout 2 1 type w h qtable nb_qtable dri) <= buf_size.

Lemma header_size :
  size (header_layout 2 1 type w h qtable nb_qtable dri)
  = 477 + size (dri_segment dri) + 65 * nb_qtable.
Proof using Hnb Hqtable.
  unfold header_layout, dqt_segment, dht_segment.
  rewrite !size_app, dht_tables_size, dqt_tables_size by lia.
  rewrite Z2Nat.id by lia.
  change (size soi_segment) with 2.
  change (size (app0_segment 2 1)) with 18.
  change (size [255; DQT]) with 2. change (size [255; DHT]) with 2.
  change (size (be16 _)) with 2.
  change (size (sof0_segment _ _ _ _)) with 19.
  change (size sos_segment) with 14.
  lia.
Qed.

(** The builder emits the segments of section 4.5, in order, and
    returns their total length. *)
Lemma jpeg_create_header_layout :
  jpeg_create_header buf_size type w h qtable nb_qtable dri
  = Some (header_layout 2 1 type w h qtable nb_qtable dri,
          size (header_layout 2 1 type w h qtable nb_qtable dri)).
Proof using All.
  pose proof header_size as Hsize. rewrite Hsize in Hroom.
  rewrite dri_segment_size in Hroom.
  unfold jpeg_create_header, bytestream2_init_writer.
  cbv zeta.
  assert (Hn : nb_qtable = Z.of_nat (Z.to_nat nb_qtable)) by lia.
  revert Hn Hroom Hqtable. generalize (Z.to_nat nb_qtable). intros n -> Hroom Hqtable.
  destruct (decide (dri <> 0)) as [Hdri|Hdri].
  all: repeat put.
  all: rewrite dqt_loop_room by room.
  all: rewrite bind_Some; cbv beta iota.
  all: pose proof (dqt_tables_size qtable n 0 ltac:(lia) ltac:(lia)) as Hdqt.
  all: match goal with
       | |- context [mkctx ?bs buf_size false] => set (pre := bs)
       end.
  1: assert (Hpre : size pre = 30 + 65 * Z.of_nat n) by (subst pre; room).
  2: assert (Hpre : size pre = 24 + 65 * Z.of_nat n) by (subst pre; room).
  all: rewrite put_marker_room by room.
  all: set (P := pre ++ [255; uint8 DHT]).
  all: assert (HP : size P = size pre + 2) by (subst P; room).
  all: rewrite tell_p_writer.
  all: put.
  all: destruct dht_table_sizes as (Hs1 & Hs2 & Hs3 & Hs4).
  all: destruct symbol_counts as (Hc1 & Hc2 & Hc3 & Hc4).
  all: destruct standard_tables_bytes as (Hb1 & Hb2 & Hb3 & Hb4).
  all: rewrite jpeg_create_huffman_table_room;
    [|reflexivity|done|by vm_compute|rewrite Hc1; room].
  all: rewrite bind_Some; cbv beta iota.
  all: rewrite jpeg_create_huffman_table_room;
    [|reflexivity|done|by vm_compute|rewrite Hc2; room].
  all: rewrite bind_Some; cbv beta iota.
  all: rewrite jpeg_create_huffman_table_room;
    [|reflexivity|done|by vm_compute|rewrite Hc3; room].
  all: rewrite bind_Some; cbv beta iota.
  all: rewrite jpeg_create_huffman_table_room;
    [|reflexivity|done|by vm_compute|rewrite Hc4; room].
  all: rewrite bind_Some; cbv beta iota.
  all: rewrite Hc1, Hc2, Hc3, Hc4.
  all: rewrite <- !app_assoc.
  all: change (be16 0) with [uint8 (Z.shiftr 0 8); uint8 0].
  all: rewrite AV_WB16_patch.
  all: rewrite bind_Some; cbv beta iota.
  all: set (tables := dht_table 0 0 _ _ ++ _).
  all: assert (Htables : size tables = 416) by (subst tables; room).
  all: repeat put.
  all: rewrite tell_p_writer, written_writer.
  all: match goal with
       | |- Some (?l, _) = Some (?r, _) =>
           assert (Hlayout : l = r); [|by rewrite Hlayout]
       end.
  all: subst tables P pre.
  all: unfold header_layout, soi_segment, app0_segment, dri_segment,
         dqt_segment, sof0_segment, components.
  all: rewrite ?(decide_True (P := dri <> 0)) by done.
  all: rewrite ?(decide_False (P := dri <> 0)) by done.
  all: rewrite Nat2Z.id.
  all: destruct (decide (type <> 0)), (decide (Z.of_nat n = 2)).
  all: rewrite <- !app_assoc.
  all: generalize (be16 dri) (be16 (2 + Z.of_nat n * (1 + 64)))
         (dqt_tables qtable 0 n)
         (be16 (uint32 (Z.shiftl h 3))) (be16 (uint32 (Z.shiftl w 3))).
  all: intros bdri blen tabs bh bw.
  all: vm_compute; reflexivity.
Qed.

End HeaderLayout.

Section HeaderClaims.

Import Jfif.

(** The two bytes of [be16] depend on the low 16 bits only. *)
Lemma be16_mod v : be16 v = be16 (v mod 2 ^ 16).
Proof.
  unfold be16, uint8. rewrite !Z.shiftr_div_pow2 by lia.
  change (2 ^ 8) with 256. change (2 ^ 16) with 65536.
  f_equal; [|f_equal]; Z.div_mod_to_equations; lia.
Qed.

Lemma blocks_to_pixels v :
  uint32 (Z.shiftl v 3) mod 2 ^ 16 = (v * 8) mod 2 ^ 16.
Proof.
  unfold uint32. rewrite Z.shiftl_mul_pow2 by lia.
  change (2 ^ 32) with 4294967296. change (2 ^ 16) with 65536.
  change (2 ^ 3) with 8.
  Z.div_mod_to_equations. lia.
Qed.

(** C3 (amended). When the buffer is large enough and [qtable] holds
    the [nb_qtable] tables, the bytes written start with the SOI marker
    [0xFF 0xD8]; the SOF0 segment follows the APP0, DRI, DQT and DHT
    segments and holds precision 8, height and width in pixels as
    16-bit fields, that is [blocks * 8] modulo 65536 (and so
    [blocks * 8] itself below 8192 blocks), and the three components:
    Y with sampling factors [(2<<4)|(type != 0 ? 2 : 1)] and table 0,
    Cb and Cr with sampling factors [(1<<4)|1] and table 1 when
    [nb_qtable] is 2, else table 0. *)
Theorem jfif_header_sof0 (buf_size type w h : Z) (qtable : list Z)
    (nb_qtable dri : Z) :
  0 <= nb_qtable -> 64 * nb_qtable <= size qtable ->
  size (header_layout 2 1 type w h qtable nb_qtable dri) <= buf_size ->
  exists bytes before,
    jpeg_create_header buf_size type w h qtable nb_qtable dri
    = Some (bytes, size bytes) /\
    before = app0_segment 2 1 ++ dri_segment dri
             ++ dqt_segment qtable nb_qtable ++ dht_segment /\
    bytes
    = [0xff; 0xd8] ++ before
      ++ sof0_segment 8 ((h * 8) mod 2 ^ 16) ((w * 8) mod 2 ^ 16)
           [ (1, Z.lor (Z.shiftl 2 4) (if decide (type <> 0) then 2 else 1),
              0);
             (2, Z.lor (Z.shiftl 1 4) 1,
              if decide (nb_qtable = 2) then 1 else 0);
             (3, Z.lor (Z.shiftl 1 4) 1,
              if decide (nb_qtable = 2) then 1 else 0) ]
      ++ sos_segment /\
    (0 <= h < 8192 -> (h * 8) mod 2 ^ 16 = h * 8) /\
    (0 <= w < 8192 -> (w * 8) mod 2 ^ 16 = w * 8).
Proof.
  intros Hnb Hqtable Hroom.
  eexists _, _. split; [by apply jpeg_create_header_layout|].
  split; [reflexivity|]. split.
  - unfold header_layout, sof0_segment, components.
    rewrite (be16_mod (uint32 (Z.shiftl h 3))), blocks_to_pixels.
    rewrite (be16_mod (uint32 (Z.shiftl w 3))), blocks_to_pixels.
    by rewrite <- !app_assoc.
  - split; intros; apply Z.mod_small; lia.
Qed.

Lemma jfif_header_sof0_witness :
  exists bytes before,
    jpeg_create_header 1024 1 80 60 annex_k_quantizers 2 0
    = Some (bytes, size bytes) /\
    before = app0_segment 2 1 ++ dri_segment 0
             ++ dqt_segment annex_k_quantizers 2 ++ dht_segment /\
    bytes
    = [0xff; 0xd8] ++ before
      ++ sof0_segment 8 ((60 * 8) mod 2 ^ 16) ((80 * 8) mod 2 ^ 16)
           [ (1, Z.lor (Z.shiftl 2 4) (if decide (1 <> 0) then 2 else 1), 0);
             (2, Z.lor (Z.shiftl 1 4) 1, if decide (2 = 2) then 1 else 0);
             (3, Z.lor (Z.shiftl 1 4) 1, if decide (2 = 2) then 1 else 0) ]
      ++ sos_segment /\
    (0 <= 60 < 8192 -> (60 * 8) mod 2 ^ 16 = 60 * 8) /\
    (0 <= 80 < 8192 -> (80 * 8) mod 2 ^ 16 = 80 * 8).
Proof.
  apply (jfif_header_sof0 1024 1 80 60 annex_k_quantizers 2 0).
  - lia.
  - by vm_compute.
  - by vm_compute.
Defined.

(** C3 (as stated, refuted). For 8192 blocks the width is 65536
    pixels; the two width bytes of the SOF0 segment (bytes 574 to 582
    of the header are the start of that segment) are 0 and 0. *)
Lemma jfif_header_width_wraps :
  exists bytes,
    jpeg_create_header 1024 1 8192 60 annex_k_quantizers 2 0
    = Some (bytes, 607) /\
    take 9 (drop 574 bytes) = [0xff; 0xc0; 0; 17; 8; 1; 224; 0; 0] /\
    0 * 256 + 0 <> 8192 * 8.
Proof.
  eexists. split; [by vm_compute|]. split; [by vm_compute|]. lia.
Qed.

(** C8 (code defect). Whatever the input, the APP0 segment is the
    marker, the length field 16, the identifier ["JFIF"] with its NUL,
    the version bytes, units 0, densities 1 and 1 and a 0 by 0
    thumbnail.  The version bytes are 2 then 1, major 2 and minor 1:
    not the 1 then 2 of version 1.2. *)
Theorem jfif_header_app0 (buf_size type w h : Z) (qtable : list Z)
    (nb_qtable dri : Z) :
  0 <= nb_qtable -> 64 * nb_qtable <= size qtable ->
  size (header_layout 2 1 type w h qtable nb_qtable dri) <= buf_size ->
  exists bytes rest,
    jpeg_create_header buf_size type w h qtable nb_qtable dri
    = Some (bytes, size bytes) /\
    bytes = soi_segment ++ app0_segment 2 1 ++ rest /\
    app0_segment 2 1
    = [0xff; 0xe0; 0; 16; 74; 70; 73; 70; 0; 2; 1; 0; 0; 1; 0; 1; 0; 0] /\
    app0_segment 2 1 <> app0_segment 1 2.
Proof.
  intros Hnb Hqtable Hroom.
  eexists _, _. split; [by apply jpeg_create_header_layout|].
  split; [reflexivity|]. split; [reflexivity|discriminate].
Qed.

Lemma jfif_header_app0_witness :
  exists bytes rest,
    jpeg_create_header 1024 1 80 60 annex_k_quantizers 2 0
    = Some (bytes, size bytes) /\
    bytes = soi_segment ++ app0_segment 2 1 ++ rest /\
    app0_segment 2 1
    = [0xff; 0xe0; 0; 16; 74; 70; 73; 70; 0; 2; 1; 0; 0; 1; 0; 1; 0; 0] /\
    app0_segment 2 1 <> app0_segment 1 2.
Proof.
  apply (jfif_header_app0 1024 1 80 60 annex_k_quantizers 2 0).
  - lia.
  - by vm_compute.
  - by vm_compute.
Defined.

End HeaderClaims.

(** ** The functions on sample inputs *)

Section Samples.

Import Huffman Jfif.

Example rtp_serialise_default :
  RtpHeader.Serialise RtpHeader.init []
  = [0x80; 0; 0; 0; 0; 0; 0; 0; 0; 0; 0; 0].
Proof. reflexivity. Qed.

Example rtp_deserialise_short :
  RtpHeader.Deserialise RtpHeader.init [0x80; 0; 0; 1] 0
  = Throws RtpHeader.init RtpHeader.truncated.
Proof. reflexivity. Qed.

Example jpeg_deserialise_fragment :
  JpegRtpHeader.Deserialise JpegRtpHeader.zero
    [0; 0; 5; 220; 1; 255; 80; 60; 1; 2; 3; 4] 0
  = Returns (JpegRtpHeader.mk 0 1500 1 255 80 60 0 0 0 []).
Proof. reflexivity. Qed.

(** The codes of the DC luminance table: 00, 010, 011, 100, 101, 110,
    1110, 11110, ... *)
Example canonical_dc_luminance :
  canonical avpriv_mjpeg_bits_dc_luminance
  = [ (2, 0); (3, 2); (3, 3); (3, 4); (3, 5); (3, 6); (4, 14); (5, 30);
      (6, 62); (7, 126); (8, 254); (9, 510) ].
Proof. reflexivity. Qed.

(** Symbol 0 keeps the length 1 and code 0 of its first occurrence;
    without the guard it would end with length 2 and code 3.  Symbol 5
    has length 2 and code 2 either way. *)
Example duplicate_zero_guarded :
  (fun r => (r.1 !! 0%nat, r.2 !! 0%nat, r.1 !! 5%nat, r.2 !! 5%nat))
  <$> ff_mjpeg_build_huffman_codes (replicate 256 7) (replicate 256 9)
        duplicate_zero_bits duplicate_zero_vals
  = Some (Some 1, Some 0, Some 2, Some 2).
Proof. by vm_compute. Qed.

Example duplicate_zero_unguarded :
  (fun r => (r.1 !! 0%nat, r.2 !! 0%nat, r.1 !! 5%nat, r.2 !! 5%nat))
  <$> build_unguarded (replicate 256 7) (replicate 256 9)
        duplicate_zero_bits duplicate_zero_vals
  = Some (Some 2, Some 3, Some 2, Some 2).
Proof. by vm_compute. Qed.

(** Quality 50 leaves the base table as it is; quality 1 saturates. *)
Example default_qtables_50 :
  create_default_qtables annex_k_quantizers 50 = Some annex_k_quantizers.
Proof. by vm_compute. Qed.

Example default_qtables_1 :
  create_default_qtables annex_k_quantizers 1 = Some (replicate 128 255).
Proof. by vm_compute. Qed.

Example default_qtables_0 :
  create_default_qtables annex_k_quantizers 0
  = create_default_qtables annex_k_quantizers 1.
Proof. by vm_compute. Qed.

Example header_length_two_tables :
  snd <$> jpeg_create_header 1024 1 80 60 annex_k_quantizers 2 0 = Some 607.
Proof. by vm_compute. Qed.

End Samples.


(** * Further properties of the code *)

(** ** RtpHeader *)

Section RtpHeaderMore.

Import RtpHeader RtpWire.

(** X1. Fewer than 12 bytes from a start position inside the buffer: the
    call throws and leaves the object as it was. *)
Theorem rtp_deserialise_truncated (this : t) (buffer : list Z) startPosn :
  0 <= startPosn <= size buffer -> size buffer < 2 ^ 64 ->
  size buffer - startPosn < 12 ->
  Deserialise this buffer startPosn = Throws this truncated.
Proof.
  intros Hpos Hsize Hshort. unfold Deserialise.
  rewrite decide_True; [done|].
  rewrite size_t_small by lia. unfold RTP_MINIMUM_HEADER_LENGTH. lia.
Qed.

Lemma rtp_deserialise_truncated_witness :
  Deserialise init [0x80; 0; 0; 1; 0; 0; 0; 0; 0; 0; 0] 0
  = Throws init truncated.
Proof.
  apply (rtp_deserialise_truncated init [0x80; 0; 0; 1; 0; 0; 0; 0; 0; 0; 0] 0);
    [by vm_compute..].
Defined.

(** X2. A start position past the end of the buffer is not rejected: the
    unsigned difference [buffer.size() - startPosn] wraps around, the
    length check passes and the first read is out of bounds.  The same
    holds for a negative start position once [size - startPosn] reaches
    12. *)
Theorem rtp_deserialise_start_outside (this : t) (buffer : list Z) startPosn :
  - 2 ^ 31 <= startPosn < 2 ^ 31 -> size buffer < 2 ^ 63 ->
  size buffer < startPosn \/ (startPosn < 0 /\ 12 <= size buffer - startPosn) ->
  Deserialise this buffer startPosn = Undefined.
Proof.
  intros Hint Hsize Hout. pose proof (size_nonneg buffer) as Hnn.
  unfold Deserialise.
  rewrite decide_False; last first.
  { unfold size_t, RTP_MINIMUM_HEADER_LENGTH.
    destruct Hout as [Hpast|[Hneg Hlong]].
    - replace (size buffer - startPosn)
        with (size buffer - startPosn + 2 ^ 64 + (-1) * 2 ^ 64) by lia.
      rewrite Z.mod_add, Z.mod_small; lia.
    - rewrite Z.mod_small; lia. }
  cbv zeta. rewrite Z.add_0_r.
  assert (Hread : byte_at buffer startPosn = None).
  { unfold byte_at. case_decide; [|done].
    apply lookup_ge_None. unfold size in *. lia. }
  by rewrite Hread.
Qed.

Lemma rtp_deserialise_start_outside_witness :
  Deserialise init [0x80; 0; 0; 1] 5 = Undefined.
Proof.
  apply (rtp_deserialise_start_outside init [0x80; 0; 0; 1] 5);
    [lia|by vm_compute|left; by vm_compute].
Defined.

(** A mask that has no bit above [k + w] only sees the low [w] bits of
    what is shifted by [k] under it. *)
Lemma land_shiftl_mod v k w m :
  0 <= k -> 0 <= w -> 0 <= m < 2 ^ (k + w) ->
  Z.land (Z.shiftl v k) m = Z.land (Z.shiftl (v mod 2 ^ w) k) m.
Proof.
  intros Hk Hw Hm. apply Z.bits_inj'. intros n Hn.
  rewrite !Z.land_spec.
  destruct (decide (n < k + w)) as [Hlow|Hhigh].
  - rewrite !Z.shiftl_spec by done.
    destruct (decide (n < k)).
    + by rewrite (Z.testbit_neg_r v), (Z.testbit_neg_r (v mod 2 ^ w)) by lia.
    + by rewrite Z.mod_pow2_bits_low by lia.
  - destruct (decide (m = 0)) as [->|Hm0].
    + by rewrite Z.bits_0, !andb_false_r.
    + rewrite (Z.bits_above_log2 m n); [by rewrite !andb_false_r|lia|].
      apply Z.log2_lt_pow2; [lia|].
      eapply Z.lt_le_trans; [apply Hm|]. apply Z.pow_le_mono_r; lia.
Qed.

Lemma land_mod v w m :
  0 <= w -> 0 <= m < 2 ^ w -> Z.land v m = Z.land (v mod 2 ^ w) m.
Proof.
  intros Hw Hm.
  pose proof (land_shiftl_mod v 0 w m ltac:(lia) Hw) as Hmask.
  rewrite !Z.shiftl_0_r in Hmask. by apply Hmask.
Qed.

Lemma uint8_shiftr_mod v k w :
  0 <= k -> k + 8 <= w ->
  uint8 (Z.shiftr v k) = uint8 (Z.shiftr (v mod 2 ^ w) k).
Proof.
  intros Hk Hw. unfold uint8.
  apply Z.bits_inj'. intros n Hn.
  destruct (decide (n < 8)).
  - rewrite !Z.mod_pow2_bits_low by lia.
    rewrite !Z.shiftr_spec by done.
    by rewrite Z.mod_pow2_bits_low by lia.
  - by rewrite !Z.mod_pow2_bits_high by lia.
Qed.

(** [Serialise] only looks at the declared bits of each field. *)
Lemma serialise_truncate (h : t) (buf : list Z) :
  Serialise h buf = Serialise (truncate h) buf.
Proof.
  unfold Serialise, write_16, write_32, truncate. cbn [Version PaddingFlag
    HeaderExtensionFlag CSRCCount MarkerBit PayloadType SeqNum Timestamp
    SyncSource].
  rewrite <- (land_shiftl_mod (Version h) 6 2) by lia.
  rewrite <- (land_shiftl_mod (PaddingFlag h) 5 1) by lia.
  rewrite <- (land_shiftl_mod (HeaderExtensionFlag h) 4 1) by lia.
  rewrite <- (land_mod (CSRCCount h) 4) by lia.
  rewrite <- (land_shiftl_mod (MarkerBit h) 7 1) by lia.
  rewrite <- (land_mod (PayloadType h) 7) by lia.
  rewrite <- (uint8_shiftr_mod (SeqNum h) 8 16) by lia.
  rewrite <- (uint8_shiftr_mod (Timestamp h) 24 32) by lia.
  rewrite <- (uint8_shiftr_mod (Timestamp h) 16 32) by lia.
  rewrite <- (uint8_shiftr_mod (Timestamp h) 8 32) by lia.
  rewrite <- (uint8_shiftr_mod (SyncSource h) 24 32) by lia.
  rewrite <- (uint8_shiftr_mod (SyncSource h) 16 32) by lia.
  rewrite <- (uint8_shiftr_mod (SyncSource h) 8 32) by lia.
  assert (Hlow : forall v w, 8 <= w -> uint8 (v mod 2 ^ w) = uint8 v).
  { intros v w Hw.
    pose proof (uint8_shiftr_mod v 0 w ltac:(lia) ltac:(lia)) as Hshift.
    by rewrite !Z.shiftr_0_r in Hshift. }
  by rewrite !Hlow by lia.
Qed.

Lemma truncate_within_widths (h : t) : within_widths (truncate h).
Proof.
  unfold within_widths, truncate; simpl.
  repeat split; apply Z.mod_pos_bound; lia.
Qed.

(** X3. Whatever the fields hold, [Deserialise] reads back from what
    [Serialise] appended the header with each field cut to its declared
    width: a bit that does not fit its field never reaches a neighbour. *)
Theorem rtp_roundtrip_truncates (this h : t) (buf : list Z) :
  Deserialise this (Serialise h buf) (size buf) = Returns (truncate h).
Proof.
  rewrite serialise_truncate.
  apply serialise_deserialise, truncate_within_widths.
Qed.

(** The bytes the reads of a header fall on. *)
Lemma byte_at_window (buffer : list Z) startPosn (n : nat) k :
  0 <= startPosn -> 0 <= k < Z.of_nat n ->
  byte_at buffer (startPosn + k)
  = take n (drop (Z.to_nat startPosn) buffer) !! Z.to_nat k.
Proof.
  intros Hpos Hk. unfold byte_at. rewrite decide_True by lia.
  rewrite lookup_take_lt, lookup_drop by lia. f_equal. lia.
Qed.

(** X4. [Deserialise] looks at the twelve bytes from [startPosn] and at
    nothing else of the buffer: two buffers that hold the same twelve
    bytes at their offsets parse alike, whatever precedes or follows
    the header. *)
Theorem rtp_deserialise_window (this : t) (buffer buffer' : list Z)
    startPosn startPosn' :
  0 <= startPosn -> startPosn + 12 <= size buffer -> size buffer < 2 ^ 64 ->
  0 <= startPosn' -> startPosn' + 12 <= size buffer' ->
  size buffer' < 2 ^ 64 ->
  take 12 (drop (Z.to_nat startPosn) buffer)
  = take 12 (drop (Z.to_nat startPosn') buffer') ->
  Deserialise this buffer startPosn = Deserialise this buffer' startPosn'.
Proof.
  intros Hpos Hrem Hsize Hpos' Hrem' Hsize' Hsame.
  pose proof (λ k, byte_at_window buffer startPosn 12 k Hpos) as Hwin.
  pose proof (λ k, byte_at_window buffer' startPosn' 12 k Hpos') as Hwin'.
  unfold Deserialise.
  rewrite !decide_False
    by (rewrite size_t_small; unfold RTP_MINIMUM_HEADER_LENGTH; lia).
  cbv zeta. unfold read_16, read_32.
  rewrite <- !Z.add_assoc, !Hwin, !Hwin' by lia.
  by rewrite Hsame.
Qed.

Lemma rtp_deserialise_window_witness :
  Deserialise init [0x80; 0x60; 0; 7; 0; 0; 0; 1; 0; 0; 0; 2; 0xff; 0xd8] 0
  = Deserialise init
      [0x47; 0x80; 0x60; 0; 7; 0; 0; 0; 1; 0; 0; 0; 2] 1.
Proof.
  apply rtp_deserialise_window; try lia; by vm_compute.
Defined.

Lemma first_byte_repacks b0 :
  is_uint8 b0 ->
  let v := uint8 (Z.land (Z.shiftr b0 6) 0x03) in
  let p := uint8 (Z.land (Z.shiftr b0 5) 0x01) in
  let x := uint8 (Z.land (Z.shiftr b0 4) 0x01) in
  let cc := uint8 (Z.land b0 0x0f) in
  (0 <= v < 2 ^ 2 /\ 0 <= p < 2 ^ 1 /\ 0 <= x < 2 ^ 1 /\ 0 <= cc < 2 ^ 4) /\
  uint8 (Z.lor (Z.lor (Z.lor
           (Z.land (Z.shiftl v 6) 0xc0)
           (Z.land (Z.shiftl p 5) 0x20))
           (Z.land (Z.shiftl x 4) 0x10))
           (Z.land cc 0x0f)) = b0.
Proof.
  intros Hb.
  pose (ok := fun b0 =>
    let v := uint8 (Z.land (Z.shiftr b0 6) 0x03) in
    let p := uint8 (Z.land (Z.shiftr b0 5) 0x01) in
    let x := uint8 (Z.land (Z.shiftr b0 4) 0x01) in
    let cc := uint8 (Z.land b0 0x0f) in
    (0 <=? v) && (v <? 4) && (0 <=? p) && (p <? 2) && (0 <=? x) && (x <? 2)
    && (0 <=? cc) && (cc <? 16)
    && (uint8 (Z.lor (Z.lor (Z.lor
           (Z.land (Z.shiftl v 6) 0xc0)
           (Z.land (Z.shiftl p 5) 0x20))
           (Z.land (Z.shiftl x 4) 0x10))
           (Z.land cc 0x0f)) =? b0)).
  assert (Hok : ok b0 = true).
  { revert b0 Hb. apply forall_below. by vm_compute. }
  unfold ok in Hok. cbv zeta in *.
  rewrite !andb_true_iff, !Z.leb_le, !Z.ltb_lt, Z.eqb_eq in Hok.
  change (2 ^ 2) with 4. change (2 ^ 1) with 2. change (2 ^ 4) with 16.
  tauto.
Qed.

Lemma second_byte_repacks b1 :
  is_uint8 b1 ->
  let m := uint8 (Z.land (Z.shiftr b1 7) 0x01) in
  let pt := uint16 (Z.land b1 0x7f) in
  (0 <= m < 2 ^ 1 /\ 0 <= pt < 2 ^ 7) /\
  uint8 (Z.lor (Z.land (Z.shiftl m 7) 0x80) (Z.land pt 0x7f)) = b1.
Proof.
  intros Hb.
  pose (ok := fun b1 =>
    let m := uint8 (Z.land (Z.shiftr b1 7) 0x01) in
    let pt := uint16 (Z.land b1 0x7f) in
    (0 <=? m) && (m <? 2) && (0 <=? pt) && (pt <? 128)
    && (uint8 (Z.lor (Z.land (Z.shiftl m 7) 0x80) (Z.land pt 0x7f)) =? b1)).
  assert (Hok : ok b1 = true).
  { revert b1 Hb. apply forall_below. by vm_compute. }
  unfold ok in Hok. cbv zeta in *.
  rewrite !andb_true_iff, !Z.leb_le, !Z.ltb_lt, Z.eqb_eq in Hok.
  change (2 ^ 1) with 2. change (2 ^ 7) with 128.
  tauto.
Qed.

Lemma be16_split b0 b1 :
  is_uint8 b0 -> is_uint8 b1 ->
  uint8 (Z.shiftr (b0 * 256 + b1) 8) = b0 /\ uint8 (b0 * 256 + b1) = b1.
Proof.
  unfold is_uint8, uint8. intros H0 H1.
  rewrite Z.shiftr_div_pow2 by lia. change (2 ^ 8) with 256 in *.
  split; Z.div_mod_to_equations; lia.
Qed.

Lemma be32_split b0 b1 b2 b3 :
  is_uint8 b0 -> is_uint8 b1 -> is_uint8 b2 -> is_uint8 b3 ->
  let v := b0 * 16777216 + b1 * 65536 + b2 * 256 + b3 in
  uint8 (Z.shiftr v 24) = b0 /\ uint8 (Z.shiftr v 16) = b1 /\
  uint8 (Z.shiftr v 8) = b2 /\ uint8 v = b3.
Proof.
  unfold is_uint8, uint8. intros H0 H1 H2 H3. cbv zeta.
  rewrite !Z.shiftr_div_pow2 by lia.
  change (2 ^ 8) with 256 in *. change (2 ^ 16) with 65536.
  change (2 ^ 24) with 16777216.
  repeat split; Z.div_mod_to_equations; lia.
Qed.

(** X5. Twelve bytes inside the buffer always parse: the call returns,
    whatever the object held before, a header whose fields are within
    their widths, and serialising that header gives the twelve bytes
    back.  No bit of the wire format is lost or altered by a parse. *)
Theorem rtp_deserialise_serialise (this : t) (buffer : list Z) startPosn :
  0 <= startPosn -> startPosn + 12 <= size buffer -> size buffer < 2 ^ 64 ->
  Forall is_uint8 buffer ->
  exists h,
    Deserialise this buffer startPosn = Returns h /\
    within_widths h /\
    Serialise h [] = take 12 (drop (Z.to_nat startPosn) buffer).
Proof.
  intros Hpos Hrem Hsize Hbytes.
  pose proof (λ k, byte_at_window buffer startPosn 12 k Hpos) as Hwin.
  assert (Hlen : length (take 12 (drop (Z.to_nat startPosn) buffer))
                 = 12%nat).
  { rewrite length_take, length_drop. unfold size in *. lia. }
  assert (Hwb : Forall is_uint8
                  (take 12 (drop (Z.to_nat startPosn) buffer)))
    by (by apply Forall_take, Forall_drop).
  destruct (take 12 (drop (Z.to_nat startPosn) buffer))
    as [|b0 [|b1 [|b2 [|b3 [|b4 [|b5 [|b6 [|b7 [|b8 [|b9 [|b10 [|b11 [|]]]]]]]]]]]]];
    try discriminate Hlen.
  repeat match goal with
         | H : Forall _ (_ :: _) |- _ => apply Forall_cons in H as [? H]
         end.
  unfold Deserialise.
  rewrite decide_False
    by (rewrite size_t_small; unfold RTP_MINIMUM_HEADER_LENGTH; lia).
  cbv zeta. unfold read_16, read_32.
  rewrite <- !Z.add_assoc, !Hwin by lia.
  simpl. rewrite be16_value, !be32_value by done.
  eexists. split; [reflexivity|].
  destruct (first_byte_repacks b0) as [(Hv & Hp & Hx & Hcc) Hb0]; [done|].
  destruct (second_byte_repacks b1) as [(Hm & Hpt) Hb1]; [done|].
  unfold is_uint8 in *. split.
  - unfold within_widths; simpl. repeat split; try tauto; lia.
  - unfold Serialise, write_16, write_32; simpl.
    rewrite Hb0, Hb1.
    destruct (be16_split b2 b3) as [-> ->]; [done..|].
    destruct (be32_split b4 b5 b6 b7) as (-> & -> & -> & ->); [done..|].
    by destruct (be32_split b8 b9 b10 b11) as (-> & -> & -> & ->).
Qed.

Lemma rtp_deserialise_serialise_witness :
  exists h,
    Deserialise init
      [9; 0x80; 0x9a; 0x12; 0x34; 0; 0; 1; 0; 0xde; 0xad; 0xbe; 0xef; 7] 1
    = Returns h /\
    within_widths h /\
    Serialise h []
    = take 12 (drop (Z.to_nat 1)
        [9; 0x80; 0x9a; 0x12; 0x34; 0; 0; 1; 0; 0xde; 0xad; 0xbe; 0xef; 7]).
Proof.
  apply (rtp_deserialise_serialise init
           [9; 0x80; 0x9a; 0x12; 0x34; 0; 0; 1; 0; 0xde; 0xad; 0xbe; 0xef; 7] 1).
  - lia.
  - by vm_compute.
  - by vm_compute.
  - unfold is_uint8. repeat (apply Forall_cons; split; [lia|]).
    apply Forall_nil_2.
Defined.

End RtpHeaderMore.

Section JpegRtpHeaderMore.

Import JpegRtpHeader.

(** What a call on a buffer that holds the base header comes to: one
    of the three failures with the base fields assigned, a return
    without extension, a failure on a short table, or a return with the
    table appended. *)
Lemma jpeg_deserialise_cases (this : t) (buffer : list Z) startPosn :
  0 <= startPosn -> startPosn + 8 <= size buffer -> size buffer < 2 ^ 64 ->
  exists ts off ty q w h,
    byte_at buffer startPosn = Some ts /\
    read_24 buffer (startPosn + 1) = Some off /\
    byte_at buffer (startPosn + 4) = Some ty /\
    byte_at buffer (startPosn + 5) = Some q /\
    byte_at buffer (startPosn + 6) = Some w /\
    byte_at buffer (startPosn + 7) = Some h /\
    ((exists e, Deserialise this buffer startPosn
                = Throws (set_base this ts off ty q w h) e) \/
     (ts = 0 /\ ~ 64 <= ty <= 127 /\ (off <> 0 \/ q < 128) /\
      Deserialise this buffer startPosn
      = Returns (set_base this ts off ty q w h)) \/
     (exists mbz prec len,
        ts = 0 /\ ~ 64 <= ty <= 127 /\ off = 0 /\ 128 <= q /\
        4 <= size buffer - startPosn - 8 /\
        byte_at buffer (startPosn + 8) = Some mbz /\
        byte_at buffer (startPosn + 9) = Some prec /\
        read_16 buffer (startPosn + 10) = Some len /\
        ((size buffer - startPosn - 12 < len /\
          Deserialise this buffer startPosn
          = Throws (set_quantization (set_base this ts off ty q w h)
                      mbz prec len) truncated_quantization) \/
         (0 <= len <= size buffer - startPosn - 12 /\
          Deserialise this buffer startPosn
          = Returns (append_QTable
                       (set_quantization (set_base this ts off ty q w h)
                          mbz prec len)
                       (take (Z.to_nat len)
                          (drop (Z.to_nat (startPosn + 12)) buffer))))))).
Proof.
  intros Hpos Hrem Hsize.
  destruct (base_reads buffer startPosn)
    as (ts & off & ty & q & w & h & Hts & Hoff & Hty & Hq & Hw & Hh);
    [done..|].
  exists ts, off, ty, q, w, h. do 6 (split; [done|]).
  destruct (decide (ts = 0)) as [Hts0|Hts0]; last first.
  { left. eexists. by eapply Deserialise_type_specifier. }
  destruct (decide (64 <= ty <= 127)) as [Hr|Hr].
  { left. eexists. by eapply Deserialise_restarts. }
  destruct (decide (off = 0 /\ 128 <= q)) as [[Hoff0 Hq128]|Hno]; last first.
  { right; left. do 3 (split; [done || lia|]).
    apply Deserialise_no_extension; done || lia. }
  destruct (decide (size buffer - startPosn - 8 < 4)) as [Hshort|Hlong].
  { left. eexists. by eapply Deserialise_truncated_extension. }
  destruct (extension_reads buffer startPosn)
    as (mbz & prec & len & Hmbz & Hprec & Hlen & Hlen16); [done|lia|].
  right; right. exists mbz, prec, len.
  do 8 (split; [done || lia|]).
  destruct (decide (size buffer - startPosn - 8 - 4 < len)).
  - left. split; [lia|].
    apply Deserialise_truncated_table; done || lia.
  - right. split; [lia|].
    apply Deserialise_extension; done || lia.
Qed.

(** X6. Called with a start position inside the buffer (or at its end)
    that leaves room in an [int] for the offsets the function adds to
    it ([startPosn + 1], [startPosn + 10] and the like), on a buffer
    that is not the object's own [QTable], the function never reads
    outside the buffer: each group of reads is preceded by a length
    check that covers it, so every call either returns or throws. *)
Theorem jpeg_deserialise_in_bounds (this : t) (buffer : list Z) startPosn :
  0 <= startPosn <= size buffer -> startPosn + 11 < 2 ^ 31 ->
  size buffer < 2 ^ 64 ->
  Deserialise this buffer startPosn <> Undefined.
Proof.
  intros [Hpos Hin] Hint Hsize.
  destruct (decide (size buffer - startPosn < 8)) as [Hshort|Hlong].
  { unfold Deserialise. rewrite decide_True; [done|].
    rewrite size_t_small; unfold JPEG_MIN_HEADER_LENGTH; lia. }
  destruct (jpeg_deserialise_cases this buffer startPosn)
    as (ts & off & ty & q & w & h & _ & _ & _ & _ & _ & _ & Hcases);
    [lia..|].
  destruct Hcases
    as [[e ->]|[(_ & _ & _ & ->)|(mbz & prec & len & _ & _ & _ & _ & _ & _
                                  & _ & _ & [[_ ->]|[_ ->]])]]; done.
Qed.

Lemma jpeg_deserialise_in_bounds_witness :
  Deserialise zero [0; 0; 0; 0; 1; 255; 40; 30; 0; 0; 0; 9; 1; 2] 0
  <> Undefined.
Proof.
  apply jpeg_deserialise_in_bounds;
    [by vm_compute|by vm_compute|by vm_compute].
Defined.

(** X7. The length checks subtract in [size_t]: a start position beyond the
    end of the buffer makes the remaining length wrap to a huge value,
    the checks pass and the first read is outside the buffer. *)
Theorem jpeg_deserialise_start_outside (this : t) (buffer : list Z)
    startPosn :
  size buffer < startPosn < 2 ^ 31 -> size buffer < 2 ^ 63 ->
  Deserialise this buffer startPosn = Undefined.
Proof.
  intros Hout Hsize. pose proof (size_nonneg buffer) as Hnn.
  unfold Deserialise.
  rewrite decide_False; last first.
  { unfold size_t, JPEG_MIN_HEADER_LENGTH.
    replace (size buffer - startPosn)
      with (size buffer - startPosn + 2 ^ 64 + (-1) * 2 ^ 64) by lia.
    rewrite Z.mod_add by lia. rewrite Z.mod_small; lia. }
  cbv zeta. unfold byte_at at 1.
  rewrite decide_True by lia.
  rewrite lookup_ge_None_2; [done|]. unfold size in *. lia.
Qed.

Lemma jpeg_deserialise_start_outside_witness :
  Deserialise zero [0; 0; 0; 0; 1; 60; 40; 30] 9 = Undefined.
Proof.
  apply jpeg_deserialise_start_outside; by vm_compute.
Defined.

(** X8. An accepted header: when the call returns, the type specifier is 0,
    the type is outside 64..127, the six base fields are those of the
    buffer, and the table of the object has only grown: by nothing when
    the fragment offset is not 0 or Q is below 128, and otherwise by
    exactly [Length] bytes, those that follow the 12 header bytes. *)
Theorem jpeg_deserialise_accepts (this this' : t) (buffer : list Z)
    startPosn :
  0 <= startPosn <= size buffer -> size buffer < 2 ^ 64 ->
  Deserialise this buffer startPosn = Returns this' ->
  startPosn + 8 <= size buffer /\
  byte_at buffer startPosn = Some (TypeSpecifier this') /\
  read_24 buffer (startPosn + 1) = Some (Offset this') /\
  byte_at buffer (startPosn + 4) = Some (Type_ this') /\
  byte_at buffer (startPosn + 5) = Some (Q this') /\
  byte_at buffer (startPosn + 6) = Some (Width this') /\
  byte_at buffer (startPosn + 7) = Some (Height this') /\
  TypeSpecifier this' = 0 /\ ~ 64 <= Type_ this' <= 127 /\
  ((Offset this' <> 0 \/ Q this' < 128) /\
   Mbz this' = Mbz this /\ Precision this' = Precision this /\
   Length this' = Length this /\ QTable this' = QTable this
   \/
   (Offset this' = 0 /\ 128 <= Q this') /\
   read_16 buffer (startPosn + 10) = Some (Length this') /\
   startPosn + 12 + Length this' <= size buffer /\
   QTable this'
   = QTable this
     ++ take (Z.to_nat (Length this'))
          (drop (Z.to_nat (startPosn + 12)) buffer)).
Proof.
  intros [Hpos Hin] Hsize Hret.
  destruct (decide (size buffer - startPosn < 8)) as [Hshort|Hlong].
  { unfold Deserialise in Hret. rewrite decide_True in Hret; [done|].
    rewrite size_t_small; unfold JPEG_MIN_HEADER_LENGTH; lia. }
  destruct (jpeg_deserialise_cases this buffer startPosn)
    as (ts & off & ty & q & w & h & Hts & Hoff & Hty & Hq & Hw & Hh & Hcases);
    [lia..|].
  split; [lia|].
  destruct Hcases
    as [[e He]|[(Hts0 & Hr & Hno & He)
               |(mbz & prec & len & Hts0 & Hr & Hoff0 & Hq128 & Hext & Hmbz
                 & Hprec & Hlen & [[_ He]|[Hfit He]])]];
    rewrite He in Hret; try done; injection Hret as <-; simpl.
  - do 8 (split; [done|]). left. by repeat split.
  - do 8 (split; [done|]). right. repeat split; try done; lia.
Qed.

Lemma jpeg_deserialise_accepts_witness :
  exists this',
    Deserialise zero [0; 0; 0; 0; 1; 255; 40; 30; 0; 0; 0; 2; 16; 11; 7] 0
    = Returns this' /\
    QTable this' = [16; 11] /\ Length this' = 2.
Proof.
  eexists. split; [reflexivity|].
  destruct (jpeg_deserialise_accepts zero
              (append_QTable (mk 0 0 1 255 40 30 0 0 2 []) [16; 11])
              [0; 0; 0; 0; 1; 255; 40; 30; 0; 0; 0; 2; 16; 11; 7] 0)
    as (_ & _ & _ & _ & _ & _ & _ & _ & _ & Hgrow);
    [by vm_compute|by vm_compute|reflexivity|].
  destruct Hgrow as [[[Hoff|Hq] _]|(_ & Hlen & _ & Htable)].
  - by contradict Hoff.
  - by vm_compute in Hq.
  - split; [exact Htable|reflexivity].
Defined.

(** X9. The table is appended to, never reset: a second call on the same
    object and buffer returns again and appends the same table bytes
    once more, leaving every other field as the first call set it. *)
Theorem jpeg_deserialise_again (this this1 : t) (buffer : list Z)
    startPosn :
  0 <= startPosn <= size buffer -> size buffer < 2 ^ 64 ->
  Deserialise this buffer startPosn = Returns this1 ->
  exists data,
    QTable this1 = QTable this ++ data /\
    Deserialise this1 buffer startPosn = Returns (append_QTable this1 data).
Proof.
  intros [Hpos Hin] Hsize Hret.
  destruct (decide (size buffer - startPosn < 8)) as [Hshort|Hlong].
  { unfold Deserialise in Hret. rewrite decide_True in Hret; [done|].
    rewrite size_t_small; unfold JPEG_MIN_HEADER_LENGTH; lia. }
  destruct (jpeg_deserialise_cases this buffer startPosn)
    as (ts & off & ty & q & w & h & Hts & Hoff & Hty & Hq & Hw & Hh & Hcases);
    [lia..|].
  destruct Hcases
    as [[e He]|[(Hts0 & Hr & Hno & He)
               |(mbz & prec & len & Hts0 & Hr & Hoff0 & Hq128 & Hext & Hmbz
                 & Hprec & Hlen & [[_ He]|[Hfit He]])]];
    rewrite He in Hret; try done; injection Hret as <-.
  - exists []. split; [by rewrite app_nil_r|].
    rewrite (Deserialise_no_extension _ buffer startPosn ts off ty q w h)
      by (done || lia).
    unfold append_QTable, set_base; simpl. by rewrite app_nil_r.
  - eexists. split; [reflexivity|].
    by rewrite (Deserialise_extension _ buffer startPosn ts off ty q w h)
      with (mbz := mbz) (prec := prec) (len := len) by (done || lia).
Qed.

Lemma jpeg_deserialise_again_witness :
  exists data,
    [16; 11] = [] ++ data /\
    Deserialise (mk 0 0 1 255 40 30 0 0 2 [16; 11])
      [0; 0; 0; 0; 1; 255; 40; 30; 0; 0; 0; 2; 16; 11; 7] 0
    = Returns (append_QTable (mk 0 0 1 255 40 30 0 0 2 [16; 11]) data).
Proof.
  apply (jpeg_deserialise_again zero (mk 0 0 1 255 40 30 0 0 2 [16; 11])
           [0; 0; 0; 0; 1; 255; 40; 30; 0; 0; 0; 2; 16; 11; 7] 0).
  - by vm_compute.
  - by vm_compute.
  - reflexivity.
Defined.

End JpegRtpHeaderMore.

Section QuantizerMore.

Import Jfif.

(** The scale factor the function computes from its argument. *)
Local Abbreviation scale q :=
  (if decide (q < 50) then 5000 `quot` av_clip q 1 99
   else 200 - av_clip q 1 99 * 2).

Lemma scale_bounds q : is_uint8 q -> 2 <= scale q <= 5000.
Proof.
  unfold is_uint8, av_clip. intros Hq. repeat case_decide; try lia.
  - by vm_compute.
  - rewrite Z.quot_div_nonneg by lia.
    split; [apply Z.div_le_lower_bound|apply Z.div_le_upper_bound]; lia.
Qed.

Lemma create_default_qtables_scaled (default_quantizers : list Z) q :
  length default_quantizers = 128%nat -> is_uint8 q ->
  create_default_qtables default_quantizers q
  = Some ((fun base => av_clip ((base * scale q + 50) `quot` 100) 1 255)
          <$> default_quantizers).
Proof.
  intros Hlen Hq. unfold create_default_qtables.
  replace 128 with (size default_quantizers)
    by (unfold size; rewrite Hlen; done).
  rewrite mapM_byte_at. f_equal.
  apply list_fmap_ext. intros _ base _.
  pose proof (scale_bounds q Hq) as HS.
  assert (HSeq : (if decide (q < 50)
                  then uint16 (5000 `quot` av_clip q 1 99)
                  else uint16 (200 - av_clip q 1 99 * 2)) = scale q).
  { case_decide; apply uint16_id; unfold is_uint16; lia. }
  rewrite HSeq. apply uint8_id.
  pose proof (av_clip_bounds ((base * scale q + 50) `quot` 100) 1 255).
  unfold is_uint8. lia.
Qed.

Lemma scale_antitone q1 q2 :
  is_uint8 q1 -> is_uint8 q2 -> q1 <= q2 -> scale q2 <= scale q1.
Proof.
  unfold is_uint8. intros H1 H2 Hle.
  pose proof (av_clip_bounds q1 1 99 ltac:(lia)) as Hc1.
  pose proof (av_clip_bounds q2 1 99 ltac:(lia)) as Hc2.
  assert (Hmono : av_clip q1 1 99 <= av_clip q2 1 99)
    by (unfold av_clip; repeat case_decide; lia).
  repeat case_decide; try lia.
  - rewrite !Z.quot_div_nonneg by lia.
    apply Z.div_le_compat_l; lia.
  - rewrite Z.quot_div_nonneg by lia.
    assert (av_clip q1 1 99 <= 49) by (unfold av_clip; repeat case_decide; lia).
    assert (50 <= av_clip q2 1 99) by (unfold av_clip; repeat case_decide; lia).
    assert (102 <= 5000 `div` av_clip q1 1 99)
      by (apply Z.div_le_lower_bound; lia).
    lia.
Qed.

(** X10. A higher quality never gives a coarser table: for [q1 <= q2] every
    entry computed for [q2] is at most the entry computed for [q1] at
    the same index. *)
Theorem default_qtables_antitone (default_quantizers : list Z) q1 q2 :
  length default_quantizers = 128%nat ->
  Forall is_uint8 default_quantizers ->
  is_uint8 q1 -> is_uint8 q2 -> q1 <= q2 ->
  exists t1 t2,
    create_default_qtables default_quantizers q1 = Some t1 /\
    create_default_qtables default_quantizers q2 = Some t2 /\
    Forall2 (fun v1 v2 => v2 <= v1) t1 t2.
Proof.
  intros Hlen Hbytes H1 H2 Hle.
  eexists _, _.
  split; [by apply create_default_qtables_scaled|].
  split; [by apply create_default_qtables_scaled|].
  apply Forall2_fmap, Forall_Forall2_diag.
  eapply Forall_impl; [apply Hbytes|].
  intros base Hbase. cbv beta. unfold is_uint8 in Hbase.
  pose proof (scale_antitone q1 q2 H1 H2 Hle) as HS.
  pose proof (scale_bounds q1 H1). pose proof (scale_bounds q2 H2).
  set (s1 := scale q1) in *. set (s2 := scale q2) in *.
  clearbody s1 s2.
  assert (Hquot : (base * s2 + 50) `quot` 100
                  <= (base * s1 + 50) `quot` 100).
  { apply Z.quot_le_mono; [lia|]. nia. }
  unfold av_clip. repeat case_decide; lia.
Qed.

Lemma default_qtables_antitone_witness :
  exists t1 t2,
    create_default_qtables annex_k_quantizers 20 = Some t1 /\
    create_default_qtables annex_k_quantizers 90 = Some t2 /\
    Forall2 (fun v1 v2 => v2 <= v1) t1 t2.
Proof.
  apply (default_qtables_antitone annex_k_quantizers 20 90).
  - reflexivity.
  - unfold annex_k_quantizers, is_uint8.
    repeat (apply Forall_cons; split; [lia|]). apply Forall_nil_2.
  - unfold is_uint8. lia.
  - unfold is_uint8. lia.
  - lia.
Defined.

(** X11. Quality 50 is the identity: a base table of 128 entries in 1..255
    comes back unchanged. *)
Theorem default_qtables_identity (default_quantizers : list Z) :
  length default_quantizers = 128%nat ->
  Forall (fun base => 1 <= base <= 255) default_quantizers ->
  create_default_qtables default_quantizers 50 = Some default_quantizers.
Proof.
  intros Hlen Hrange.
  rewrite create_default_qtables_scaled by (done || (unfold is_uint8; lia)).
  f_equal. rewrite <- (list_fmap_id default_quantizers) at 2.
  apply Forall_fmap_ext_1.
  eapply Forall_impl; [apply Hrange|].
  intros base Hbase. cbv beta in *.
  change (scale 50) with 100.
  assert ((base * 100 + 50) `quot` 100 = base) as ->.
  { rewrite Z.quot_div_nonneg by lia.
    symmetry. apply (Z.div_unique _ _ _ 50); lia. }
  unfold av_clip, id. repeat case_decide; lia.
Qed.

Lemma default_qtables_identity_witness :
  create_default_qtables annex_k_quantizers 50 = Some annex_k_quantizers.
Proof.
  apply (default_qtables_identity annex_k_quantizers).
  - reflexivity.
  - unfold annex_k_quantizers.
    repeat (apply Forall_cons; split; [lia|]). apply Forall_nil_2.
Defined.

End QuantizerMore.

Section JfifMore.

Import Jfif JpegSegment.

Local Arguments seqZ : simpl never.

(** X12. [jpeg_create_huffman_table] returns the number of bytes it wrote:
    one byte of class and id, the 16 counts, and as many symbols of the
    value table as the counts add up to. *)
Theorem jpeg_create_huffman_table_count (cap : Z) (bs : list Z)
    table_class table_id (bits_table value_table : list Z) :
  length bits_table = 17%nat -> Forall is_uint8 bits_table ->
  foldl Z.add 0 (take 16 (drop 1 bits_table)) <= size value_table ->
  size bs + 17 + foldl Z.add 0 (take 16 (drop 1 bits_table)) <= cap ->
  exists out,
    jpeg_create_huffman_table (mkctx bs cap false) table_class table_id
      bits_table value_table
    = Some (size out, mkctx (bs ++ out) cap false) /\
    size out = 17 + foldl Z.add 0 (take 16 (drop 1 bits_table)) /\
    out = [uint8 (Z.lor (Z.shiftl table_class 4) table_id)]
          ++ (uint8 <$> take 16 (drop 1 bits_table))
          ++ (uint8 <$> take (Z.to_nat
                                (foldl Z.add 0 (take 16 (drop 1 bits_table))))
                          value_table).
Proof.
  intros Hlen Hbytes Hvals Hroom.
  set (n := foldl Z.add 0 (take 16 (drop 1 bits_table))) in *.
  assert (Hn : 0 <= n).
  { apply foldl_add_nonneg; [|done]. by apply Forall_take, Forall_drop. }
  assert (Hsize : size (dht_table table_class table_id bits_table value_table)
                  = 17 + n).
  { unfold dht_table. fold n. rewrite !size_app, size_cons, size_nil.
    unfold size at 1 2.
    rewrite !length_fmap, !length_take, length_drop, Hlen.
    unfold size in Hvals. lia. }
  exists (dht_table table_class table_id bits_table value_table).
  split; [|split; [done|reflexivity]].
  rewrite jpeg_create_huffman_table_room by done.
  fold n. rewrite Hsize. do 2 f_equal. lia.
Qed.

Lemma jpeg_create_huffman_table_count_witness :
  exists out,
    jpeg_create_huffman_table (mkctx [0xff; 0xc4; 0; 0] 64 false) 0 1
      Huffman.avpriv_mjpeg_bits_dc_chrominance Huffman.avpriv_mjpeg_val_dc
    = Some (size out, mkctx ([0xff; 0xc4; 0; 0] ++ out) 64 false) /\
    size out = 29.
Proof.
  destruct (jpeg_create_huffman_table_count 64 [0xff; 0xc4; 0; 0] 0 1
              Huffman.avpriv_mjpeg_bits_dc_chrominance
              Huffman.avpriv_mjpeg_val_dc)
    as (out & Hrun & Hsize & _).
  - reflexivity.
  - unfold Huffman.avpriv_mjpeg_bits_dc_chrominance, is_uint8.
    repeat (apply Forall_cons; split; [lia|]). apply Forall_nil_2.
  - by vm_compute.
  - by vm_compute.
  - exists out. split; [exact Hrun|exact Hsize].
Defined.

(** X13. The length of the header: with room for it, the builder returns
    the number of bytes it wrote, which is 477 bytes plus 65 for each
    quantization table plus 6 when a restart interval is given (607
    for two tables and no restart interval). *)
Theorem jpeg_create_header_length (buf_size type w h : Z) (qtable : list Z)
    (nb_qtable dri : Z) :
  0 <= nb_qtable -> 64 * nb_qtable <= size qtable ->
  477 + 65 * nb_qtable + (if decide (dri <> 0) then 6 else 0) <= buf_size ->
  exists bytes,
    jpeg_create_header buf_size type w h qtable nb_qtable dri
    = Some (bytes, size bytes) /\
    size bytes = 477 + 65 * nb_qtable + (if decide (dri <> 0) then 6 else 0).
Proof.
  intros Hnb Hqtable Hroom.
  pose proof (header_size type w h qtable nb_qtable dri Hnb Hqtable) as Hsize.
  rewrite dri_segment_size in Hsize.
  eexists. split.
  - apply jpeg_create_header_layout; [done..|]. rewrite Hsize. lia.
  - rewrite Hsize. lia.
Qed.

Lemma jpeg_create_header_length_witness :
  exists bytes,
    jpeg_create_header 613 0 40 30 annex_k_quantizers 2 100
    = Some (bytes, size bytes) /\
    size bytes = 477 + 65 * 2 + (if decide (100 <> 0) then 6 else 0).
Proof.
  apply (jpeg_create_header_length 613 0 40 30 annex_k_quantizers 2 100).
  - lia.
  - by vm_compute.
  - by vm_compute.
Defined.

Lemma segments_nil : segments [] = Some [].
Proof. reflexivity. Qed.

Lemma segments_cons marker payload l :
  2 + size payload < 2 ^ 16 ->
  segments ((marker, payload) :: l)
  = (fun rest => [0xff; marker] ++ be16 (2 + size payload) ++ payload
                 ++ rest)
    <$> segments l.
Proof.
  intros Hfits. unfold segments, segment. simpl.
  rewrite decide_True by done. simpl.
  by destruct (mapM _ l) as [ss|].
Qed.

(** X14. With at most 1008 quantization tables (so that the DQT payload
    fits its 16-bit length field), the header is a start-of-image
    marker followed by marker segments whose length fields are 2 plus
    the size of their payloads: APP0 (14 bytes of payload), DRI when a
    restart interval is given, DQT (65 bytes for each table), DHT (the
    416 bytes of the four standard tables, the length being patched in
    after they are written), SOF0 (15 bytes) and SOS (10 bytes). *)
Theorem jpeg_create_header_segments (buf_size type w h : Z)
    (qtable : list Z) (nb_qtable dri : Z) :
  0 <= nb_qtable -> 65 * nb_qtable <= 65533 ->
  64 * nb_qtable <= size qtable ->
  477 + 65 * nb_qtable + (if decide (dri <> 0) then 6 else 0) <= buf_size ->
  exists bytes app0 dqt dht sof0 sos body,
    jpeg_create_header buf_size type w h qtable nb_qtable dri
    = Some (bytes, size bytes) /\
    segments ([(APP0, app0)]
              ++ (if decide (dri <> 0) then [(DRI, be16 dri)] else [])
              ++ [(DQT, dqt); (DHT, dht); (SOF0, sof0); (SOS, sos)])
    = Some body /\
    bytes = [0xff; SOI] ++ body /\
    size app0 = 14 /\ size dqt = 65 * nb_qtable /\ size dht = 416 /\
    size sof0 = 15 /\ size sos = 10.
Proof.
  intros Hnb Hfield Hqtable Hroom.
  pose proof (header_size type w h qtable nb_qtable dri Hnb Hqtable) as Hsize.
  rewrite dri_segment_size in Hsize.
  pose proof (dqt_tables_size qtable (Z.to_nat nb_qtable) 0 ltac:(lia)
                ltac:(lia)) as Hdqt.
  rewrite Z2Nat.id in Hdqt by done.
  exists (header_layout 2 1 type w h qtable nb_qtable dri),
    (JFIF_id ++ [2; 1] ++ [0] ++ be16 1 ++ be16 1 ++ [0; 0]),
    (dqt_tables qtable 0 (Z.to_nat nb_qtable)), dht_tables,
    ([8] ++ be16 (uint32 (Z.shiftl h 3)) ++ be16 (uint32 (Z.shiftl w 3))
     ++ [3] ++ concat ((fun c => [c.1.1; c.1.2; c.2])
                       <$> components type nb_qtable)),
    [3; 1; 0; 2; 17; 3; 17; 0; 63; 0],
    (drop 2 (header_layout 2 1 type w h qtable nb_qtable dri)).
  split; [|split; [|split]].
  - apply jpeg_create_header_layout; [done..|]. rewrite Hsize. lia.
  - destruct (decide (dri <> 0)) as [Hdri|Hdri]; cbn [app].
    all: rewrite !segments_cons
           by (rewrite ?Hdqt; first [lia | by vm_compute]).
    all: rewrite segments_nil; cbn [fmap option_fmap option_map].
    all: f_equal.
    all: unfold header_layout, soi_segment, app0_segment, dri_segment,
           dqt_segment, dht_segment, sof0_segment, sos_segment, components.
    all: rewrite ?(decide_True (P := dri <> 0)) by done.
    all: rewrite ?(decide_False (P := dri <> 0)) by done.
    all: rewrite Hdqt.
    all: replace (2 + nb_qtable * (1 + 64)) with (2 + 65 * nb_qtable) by lia.
    all: destruct (decide (type <> 0)), (decide (nb_qtable = 2)).
    all: unfold be16.
    all: generalize (uint8 (Z.shiftr dri 8)) (uint8 dri)
           (uint8 (Z.shiftr (2 + 65 * nb_qtable) 8))
           (uint8 (2 + 65 * nb_qtable))
           (uint8 (Z.shiftr (uint32 (Z.shiftl h 3)) 8))
           (uint8 (uint32 (Z.shiftl h 3)))
           (uint8 (Z.shiftr (uint32 (Z.shiftl w 3)) 8))
           (uint8 (uint32 (Z.shiftl w 3)))
           (dqt_tables qtable 0 (Z.to_nat nb_qtable)).
    all: intros d1 d0 l1 l0 h1 h0 w1 w0 tabs.
    all: rewrite <- ?app_assoc.
    all: vm_compute; reflexivity.
  - reflexivity.
  - split; [reflexivity|]. split; [done|].
    split; [apply dht_tables_size|]. split; reflexivity.
Qed.

Lemma jpeg_create_header_segments_witness :
  exists bytes app0 dqt dht sof0 sos body,
    jpeg_create_header 1024 1 80 60 annex_k_quantizers 2 0
    = Some (bytes, size bytes) /\
    segments ([(APP0, app0)]
              ++ (if decide (0 <> 0) then [(DRI, be16 0)] else [])
              ++ [(DQT, dqt); (DHT, dht); (SOF0, sof0); (SOS, sos)])
    = Some body /\
    bytes = [0xff; SOI] ++ body /\
    size app0 = 14 /\ size dqt = 65 * 2 /\ size dht = 416 /\
    size sof0 = 15 /\ size sos = 10.
Proof.
  apply (jpeg_create_header_segments 1024 1 80 60 annex_k_quantizers 2 0).
  - lia.
  - lia.
  - by vm_compute.
  - by vm_compute.
Defined.

Lemma dqt_loop_short (qtable : list Z) (range : list Z)
    (s : unit * PutByteContext) i :
  i ∈ range -> bytes_at qtable (64 * i) 64 = None ->
  for_each range
    (fun i '(u, pbc) =>
       let pbc := bytestream2_put_byte pbc i in
       table ← bytes_at qtable (64 * i) 64;
       Some (u, bytestream2_put_buffer pbc table))
    s = None.
Proof.
  intros Hin Hnone. revert s.
  induction range as [|j range IH]; intros [u pbc].
  { by apply elem_of_nil in Hin. }
  simpl.
  destruct (bytes_at qtable (64 * j) 64) as [table|] eqn:Hj; [|done].
  simpl. apply elem_of_cons in Hin as [->|Hin]; [congruence|].
  by apply IH.
Qed.

(** X15. The builder reads 64 bytes of [qtable] for each of the [nb_qtable]
    tables without a check: asked for more tables than [qtable] holds,
    it reads outside the array, whatever the size of the output
    buffer. *)
Theorem jpeg_create_header_short_qtable (buf_size type w h : Z)
    (qtable : list Z) (nb_qtable dri : Z) :
  0 < nb_qtable -> size qtable < 64 * nb_qtable ->
  jpeg_create_header buf_size type w h qtable nb_qtable dri = None.
Proof.
  intros Hnb Hshort.
  unfold jpeg_create_header. cbv zeta.
  rewrite (dqt_loop_short qtable _ _ (nb_qtable - 1)); [done|..].
  - apply elem_of_seqZ. lia.
  - unfold bytes_at. rewrite decide_False; [done|]. lia.
Qed.

Lemma jpeg_create_header_short_qtable_witness :
  jpeg_create_header 1024 1 80 60 (take 64 annex_k_quantizers) 2 0 = None.
Proof.
  apply jpeg_create_header_short_qtable; [lia|by vm_compute].
Defined.

End JfifMore.

Section HuffmanMore.

Import Huffman HuffmanCode.

Local Arguments assign : simpl never.

(** The call returns the arrays of [assign_all]. *)
Lemma build_codes_assign_all
    (huff_size huff_code bits_table val_table : list Z) :
  length huff_size = 256%nat -> length huff_code = 256%nat ->
  length bits_table = 17%nat -> Forall is_uint8 bits_table ->
  Forall is_uint8 val_table ->
  (length (canonical bits_table) <= length val_table)%nat ->
  ff_mjpeg_build_huffman_codes huff_size huff_code bits_table val_table
  = Some (assign_all true huff_size huff_code bits_table val_table).
Proof.
  intros Hhs Hhc Hbits Hbytes Hvals Hfit.
  unfold ff_mjpeg_build_huffman_codes.
  rewrite (build_with_assign_all val_table true); try done.
  by apply inner_body_follows.
Qed.

(** X16. The function writes the entries of the symbols it is given and
    entry 0 of the lengths, and nothing else: the two arrays keep
    their 256 entries, and a symbol that is not among the values
    counted by the bit-length table keeps the length and the code the
    caller's arrays held (for symbol 0, the length is reset to 0). *)
Theorem huffman_untouched_entries
    (huff_size huff_code bits_table val_table : list Z) :
  length huff_size = 256%nat -> length huff_code = 256%nat ->
  length bits_table = 17%nat -> Forall is_uint8 bits_table ->
  Forall is_uint8 val_table ->
  (length (canonical bits_table) <= length val_table)%nat ->
  exists hs hc,
    ff_mjpeg_build_huffman_codes huff_size huff_code bits_table val_table
    = Some (hs, hc) /\
    length hs = 256%nat /\ length hc = 256%nat /\
    forall sym,
      0 <= sym ->
      sym ∉ take (length (canonical bits_table)) val_table ->
      hs !! Z.to_nat sym = <[0%nat := 0]> huff_size !! Z.to_nat sym /\
      hc !! Z.to_nat sym = huff_code !! Z.to_nat sym.
Proof.
  intros Hhs Hhc Hbits Hbytes Hvals Hfit.
  destruct (assign_all true huff_size huff_code bits_table val_table)
    as [hs hc] eqn:Hall.
  exists hs, hc. split.
  { rewrite build_codes_assign_all by done. by rewrite Hall. }
  unfold assign_all in Hall.
  destruct (foldl_assign_length true
              (zip val_table (canonical bits_table))
              (<[0%nat := 0]> huff_size, huff_code)) as [Hl1 Hl2].
  rewrite Hall in Hl1, Hl2. simpl in Hl1, Hl2.
  rewrite length_insert in Hl1.
  split; [congruence|]. split; [congruence|].
  intros sym Hsym Habsent.
  destruct (foldl_assign_absent true
              (zip val_table (canonical bits_table))
              (<[0%nat := 0]> huff_size, huff_code) sym) as [H1 H2].
  - done.
  - by apply zip_symbols_ok.
  - apply Forall_lookup_2. intros j [sym' e] Hj. simpl. intros ->.
    apply lookup_zip_with_Some in Hj as (x & y & [= <- <-] & Hx & Hy).
    apply lookup_lt_Some in Hy.
    apply Habsent. apply (list_elem_of_lookup_2 _ j).
    by rewrite lookup_take_lt.
  - rewrite Hall in H1, H2. done.
Qed.

Lemma huffman_untouched_entries_witness :
  exists hs hc,
    ff_mjpeg_build_huffman_codes (replicate 256 7) (replicate 256 9)
      avpriv_mjpeg_bits_dc_luminance avpriv_mjpeg_val_dc = Some (hs, hc) /\
    hs !! 12%nat = Some 7 /\ hc !! 12%nat = Some 9.
Proof.
  destruct (huffman_untouched_entries (replicate 256 7) (replicate 256 9)
              avpriv_mjpeg_bits_dc_luminance avpriv_mjpeg_val_dc)
    as (hs & hc & Hrun & _ & _ & Hkeep).
  - reflexivity.
  - reflexivity.
  - reflexivity.
  - unfold avpriv_mjpeg_bits_dc_luminance, is_uint8.
    repeat (apply Forall_cons; split; [lia|]). apply Forall_nil_2.
  - unfold avpriv_mjpeg_val_dc, is_uint8.
    repeat (apply Forall_cons; split; [lia|]). apply Forall_nil_2.
  - vm_compute. lia.
  - exists hs, hc. split; [exact Hrun|].
    apply (Hkeep 12); [lia|].
    vm_compute. intros Hin.
    repeat (apply elem_of_cons in Hin as [Hin|Hin]; [discriminate Hin|]).
    by apply elem_of_nil in Hin.
Defined.

(** A code of a later length starts at or above the running code,
    shifted to that length. *)
Lemma canonical_from_lower lens i code len c :
  Forall is_uint8 lens -> 0 <= code ->
  (len, c) ∈ canonical_from i lens code ->
  i <= len /\ code * 2 ^ (len - i) <= c.
Proof.
  revert i code.
  induction lens as [|nb lens IH]; intros i code Hbytes Hcode Hin; simpl in *.
  { by apply elem_of_nil in Hin. }
  apply Forall_cons in Hbytes as [Hnb Hbytes]. unfold is_uint8 in Hnb.
  apply elem_of_app in Hin as [Hin|Hin].
  - apply list_elem_of_lookup_1 in Hin as [j Hj].
    apply consecutive_lookup in Hj as (-> & -> & _).
    rewrite Z.sub_diag. simpl. lia.
  - apply IH in Hin as [Hlen Hc]; [|done|].
    + rewrite Z.shiftl_mul_pow2 in Hc by lia.
      split; [lia|].
      replace (len - i) with (Z.succ (len - (i + 1))) by lia.
      rewrite Z.pow_succ_r by lia.
      assert (0 <= 2 ^ (len - (i + 1))) by (apply Z.pow_nonneg; lia).
      nia.
    + rewrite Z.shiftl_mul_pow2 by lia. lia.
Qed.

(** The codes are handed out in increasing order, and each later code,
    cut to the length of an earlier one, is above it. *)
Lemma canonical_from_sorted lens i code (p q : nat) l1 c1 l2 c2 :
  Forall is_uint8 lens -> 0 <= code -> (p < q)%nat ->
  canonical_from i lens code !! p = Some (l1, c1) ->
  canonical_from i lens code !! q = Some (l2, c2) ->
  l1 <= l2 /\ (c1 + 1) * 2 ^ (l2 - l1) <= c2.
Proof.
  revert i code p q.
  induction lens as [|nb lens IH]; intros i code p q Hbytes Hcode Hpq Hp Hq;
    simpl in *; [done|].
  apply Forall_cons in Hbytes as [Hnb Hbytes]. unfold is_uint8 in Hnb.
  apply lookup_app_Some in Hp as [Hp|[Hpl Hp]];
    apply lookup_app_Some in Hq as [Hq|[Hql Hq]].
  - apply consecutive_lookup in Hp as (-> & -> & _).
    apply consecutive_lookup in Hq as (-> & -> & _).
    rewrite Z.sub_diag. simpl. lia.
  - apply consecutive_lookup in Hp as (-> & -> & Hp).
    apply list_elem_of_lookup_2 in Hq.
    apply canonical_from_lower in Hq as [Hlen Hc]; [|done|].
    + rewrite Z.shiftl_mul_pow2 in Hc by lia.
      split; [lia|].
      replace (l2 - i) with (Z.succ (l2 - (i + 1))) by lia.
      rewrite Z.pow_succ_r by lia.
      assert (0 <= 2 ^ (l2 - (i + 1))) by (apply Z.pow_nonneg; lia).
      nia.
    + rewrite Z.shiftl_mul_pow2 by lia. lia.
  - apply lookup_lt_Some in Hq. lia.
  - eapply (IH (i + 1) (Z.shiftl (code + nb) 1)); [done| | |done..].
    + rewrite Z.shiftl_mul_pow2 by lia. lia.
    + lia.
Qed.

Lemma kraft_nonneg lens : Forall is_uint8 lens -> 0 <= kraft lens.
Proof.
  induction 1 as [|nb lens Hnb _ IH]; simpl; [done|].
  unfold is_uint8 in Hnb.
  assert (0 <= 2 ^ Z.of_nat (length lens)) by (apply Z.pow_nonneg; lia).
  nia.
Qed.

(** The end of the interval of a code, in units of the longest
    length, is within the Kraft sum. *)
Lemma canonical_from_upper lens i code len c e :
  Forall is_uint8 lens -> 0 <= code ->
  (len, c) ∈ canonical_from i lens code ->
  0 <= e -> len + e = i + Z.of_nat (length lens) - 1 ->
  (c + 1) * 2 ^ e <= code * 2 ^ (Z.of_nat (length lens) - 1) + kraft lens.
Proof.
  revert i code.
  induction lens as [|nb lens IH]; intros i code Hbytes Hcode Hin He Hlen;
    simpl in *.
  { by apply elem_of_nil in Hin. }
  apply Forall_cons in Hbytes as [Hnb Hbytes]. unfold is_uint8 in Hnb.
  pose proof (kraft_nonneg lens Hbytes) as Hk.
  replace (Z.of_nat (S (length lens)) - 1) with (Z.of_nat (length lens))
    by lia.
  apply elem_of_app in Hin as [Hin|Hin].
  - apply list_elem_of_lookup_1 in Hin as [j Hj].
    apply consecutive_lookup in Hj as (-> & -> & Hj).
    replace e with (Z.of_nat (length lens)) by lia.
    assert (0 < 2 ^ Z.of_nat (length lens)) by (apply Z.pow_pos_nonneg; lia).
    nia.
  - destruct lens as [|nb' lens']; [by apply elem_of_nil in Hin|].
    apply (IH (i + 1) (Z.shiftl (code + nb) 1)) in Hin; [|done|..].
    + rewrite Z.shiftl_mul_pow2 in Hin by lia.
      set (m := length (nb' :: lens')) in *.
      assert (Hm : Z.of_nat m = Z.succ (Z.of_nat m - 1))
        by (subst m; simpl; lia).
      rewrite Hm at 1 2. rewrite Z.pow_succ_r by (subst m; simpl; lia).
      lia.
    + rewrite Z.shiftl_mul_pow2 by lia. lia.
    + done.
    + simpl in *. lia.
Qed.

(** With the Kraft sum of the counts at most [2 ^ 16], a code fits its
    length. *)
Lemma canonical_fits bits_table len c :
  length bits_table = 17%nat -> Forall is_uint8 bits_table ->
  kraft (take 16 (drop 1 bits_table)) <= 2 ^ 16 ->
  (len, c) ∈ canonical bits_table ->
  1 <= len <= 16 /\ 0 <= c < 2 ^ len.
Proof.
  intros Hbits Hbytes Hkraft Hin.
  destruct (canonical_bound bits_table len c) as [Hlen Hc]; [done..|].
  split; [done|]. split; [lia|].
  unfold canonical in Hin.
  apply (canonical_from_upper _ _ _ _ _ (16 - len)) in Hin;
    [|by apply Forall_take, Forall_drop|lia|lia|].
  - rewrite Z.mul_0_l, Z.add_0_l in Hin.
    assert (Hsplit : 2 ^ 16 = 2 ^ len * 2 ^ (16 - len)).
    { rewrite <- Z.pow_add_r by lia. f_equal. lia. }
    assert (0 < 2 ^ (16 - len)) by (apply Z.pow_pos_nonneg; lia).
    assert (0 < 2 ^ len) by (apply Z.pow_pos_nonneg; lia).
    nia.
  - rewrite length_take, length_drop, Hbits. lia.
Qed.

(** The entry of a symbol that occurs once among the values counted. *)
Lemma build_codes_position
    (huff_size huff_code bits_table val_table : list Z) (p : nat) sym len c :
  length huff_size = 256%nat -> length huff_code = 256%nat ->
  Forall is_uint8 bits_table -> Forall is_uint8 val_table ->
  NoDup (take (length (canonical bits_table)) val_table) ->
  val_table !! p = Some sym ->
  canonical bits_table !! p = Some (len, c) ->
  let r := assign_all true huff_size huff_code bits_table val_table in
  r.1 !! Z.to_nat sym = Some len /\ r.2 !! Z.to_nat sym = Some (uint16 c).
Proof.
  intros Hhs Hhc Hbytes Hvals Hnodup Hsym Hcode r. subst r.
  destruct (canonical_bound bits_table len c) as [Hlen Hc]; [done|..].
  { by eapply list_elem_of_lookup_2. }
  pose proof (Forall_lookup_1 _ _ _ _ Hvals Hsym) as Hb.
  unfold is_uint8 in Hb.
  pose proof (lookup_lt_Some _ _ _ Hcode) as Hp.
  assert (Hother : forall p', (p' < length (canonical bits_table))%nat ->
                     val_table !! p' = Some sym -> p' = p).
  { intros p' Hp' Hsym'.
    apply (NoDup_lookup _ p' p sym Hnodup); by rewrite lookup_take_lt. }
  pose proof (zip_lookup _ _ _ _ _ _ Hsym Hcode) as Hzip.
  pose proof (take_drop_middle _ _ _ Hzip) as Hsplit.
  pose proof (zip_symbols_ok val_table (canonical bits_table) Hvals) as Hok.
  unfold assign_all. rewrite <- Hsplit. rewrite <- Hsplit in Hok.
  apply Forall_app in Hok as [Hok1 Hok2].
  apply Forall_cons in Hok2 as [_ Hok2].
  assert (Hlen8 : uint8 len = len) by (apply uint8_id; unfold is_uint8; lia).
  destruct (decide (sym = 0)) as [->|Hne].
  - destruct (foldl_assign_first
                (take p (zip val_table (canonical bits_table)))
                (drop (S p) (zip val_table (canonical bits_table)))
                (<[0%nat := 0]> huff_size, huff_code) len c)
      as [H1 H2]; simpl; rewrite ?length_insert; try lia; try done.
    + by rewrite list_lookup_insert_eq by lia.
    + apply Forall_lookup_2. intros j [sym' e] Hj. simpl. intros ->.
      apply lookup_take_Some in Hj as [Hj Hjp].
      apply lookup_zip_with_Some in Hj as (x & y & [= <- <-] & Hx & Hy).
      apply (Hother j) in Hx; lia.
    + rewrite Hlen8 in H1. exact (conj H1 H2).
  - destruct (foldl_assign_last true
                (take p (zip val_table (canonical bits_table)))
                (drop (S p) (zip val_table (canonical bits_table)))
                (<[0%nat := 0]> huff_size, huff_code) sym len c)
      as [H1 H2]; simpl; rewrite ?length_insert; try lia; try done.
    + apply Forall_lookup_2. intros j [sym' e] Hj. simpl. intros ->.
      rewrite lookup_drop in Hj.
      apply lookup_zip_with_Some in Hj as (x & y & [= <- <-] & Hx & Hy).
      apply lookup_lt_Some in Hy.
      apply (Hother (S p + j)%nat) in Hx; lia.
    + rewrite Hlen8 in H1. exact (conj H1 H2).
Qed.

(** X17. The codes built from a table of distinct symbols whose counts
    satisfy the Kraft inequality form a prefix code.  Each symbol gets
    a length in 1..16 and a code that fits that length (so nothing is
    lost when it is stored in 16 bits); and of two symbols, the one
    that comes later in the value table has a length at least as long,
    and its code cut to the length of the earlier one is a greater
    number: no code is the beginning of another. *)
Theorem huffman_codes_prefix_free
    (huff_size huff_code bits_table val_table : list Z) :
  length huff_size = 256%nat -> length huff_code = 256%nat ->
  length bits_table = 17%nat -> Forall is_uint8 bits_table ->
  Forall is_uint8 val_table ->
  (length (canonical bits_table) <= length val_table)%nat ->
  NoDup (take (length (canonical bits_table)) val_table) ->
  kraft (take 16 (drop 1 bits_table)) <= 2 ^ 16 ->
  exists hs hc,
    ff_mjpeg_build_huffman_codes huff_size huff_code bits_table val_table
    = Some (hs, hc) /\
    (forall (p : nat) sym,
       (p < length (canonical bits_table))%nat ->
       val_table !! p = Some sym ->
       exists len c,
         hs !! Z.to_nat sym = Some len /\ hc !! Z.to_nat sym = Some c /\
         1 <= len <= 16 /\ 0 <= c < 2 ^ len) /\
    (forall (p q : nat) s1 s2 l1 c1 l2 c2,
       (p < q < length (canonical bits_table))%nat ->
       val_table !! p = Some s1 -> val_table !! q = Some s2 ->
       hs !! Z.to_nat s1 = Some l1 -> hc !! Z.to_nat s1 = Some c1 ->
       hs !! Z.to_nat s2 = Some l2 -> hc !! Z.to_nat s2 = Some c2 ->
       l1 <= l2 /\ c1 < Z.shiftr c2 (l2 - l1)).
Proof.
  intros Hhs Hhc Hbits Hbytes Hvals Hfit Hnodup Hkraft.
  destruct (assign_all true huff_size huff_code bits_table val_table)
    as [hs hc] eqn:Hall.
  exists hs, hc. split.
  { rewrite build_codes_assign_all by done. by rewrite Hall. }
  assert (Hentry : forall (p : nat) sym,
            (p < length (canonical bits_table))%nat ->
            val_table !! p = Some sym ->
            exists len c,
              canonical bits_table !! p = Some (len, c) /\
              hs !! Z.to_nat sym = Some len /\
              hc !! Z.to_nat sym = Some c /\
              1 <= len <= 16 /\ 0 <= c < 2 ^ len).
  { intros p sym Hp Hsym.
    destruct (lookup_lt_is_Some_2 _ _ Hp) as [[len c] Hcode].
    destruct (canonical_fits bits_table len c) as [Hlen Hc]; [done..| |].
    { by eapply list_elem_of_lookup_2. }
    destruct (build_codes_position huff_size huff_code bits_table val_table
                p sym len c) as [H1 H2]; [done..|].
    rewrite Hall in H1, H2. simpl in H1, H2.
    exists len, c. split; [done|]. split; [done|]. split; [|done].
    rewrite H2. f_equal. apply uint16_id. unfold is_uint16.
    assert (2 ^ len <= 2 ^ 16) by (apply Z.pow_le_mono_r; lia). lia. }
  split.
  - intros p sym Hp Hsym.
    destruct (Hentry p sym Hp Hsym) as (len & c & _ & H); by exists len, c.
  - intros p q s1 s2 l1 c1 l2 c2 [Hpq Hq] Hs1 Hs2 Hl1 Hc1 Hl2 Hc2.
    destruct (Hentry p s1 ltac:(lia) Hs1)
      as (l1' & c1' & Hp' & Hl1' & Hc1' & Hlen1 & Hfit1).
    destruct (Hentry q s2 Hq Hs2)
      as (l2' & c2' & Hq' & Hl2' & Hc2' & Hlen2 & Hfit2).
    assert (l1' = l1) as -> by congruence.
    assert (c1' = c1) as -> by congruence.
    assert (l2' = l2) as -> by congruence.
    assert (c2' = c2) as -> by congruence.
    unfold canonical in Hp', Hq'.
    destruct (canonical_from_sorted (take 16 (drop 1 bits_table)) 1 0
                p q l1 c1 l2 c2
                ltac:(by apply Forall_take, Forall_drop) ltac:(lia) Hpq
                Hp' Hq') as [Hle Hgap].
    split; [done|].
    rewrite Z.shiftr_div_pow2 by lia.
    assert (c1 + 1 <= c2 `div` 2 ^ (l2 - l1)); [|lia].
    apply Z.div_le_lower_bound; [apply Z.pow_pos_nonneg; lia|lia].
Qed.

Lemma huffman_codes_prefix_free_witness :
  exists hs hc,
    ff_mjpeg_build_huffman_codes (replicate 256 0) (replicate 256 0)
      avpriv_mjpeg_bits_dc_luminance avpriv_mjpeg_val_dc = Some (hs, hc) /\
    (forall (p : nat) sym,
       (p < length (canonical avpriv_mjpeg_bits_dc_luminance))%nat ->
       avpriv_mjpeg_val_dc !! p = Some sym ->
       exists len c,
         hs !! Z.to_nat sym = Some len /\ hc !! Z.to_nat sym = Some c /\
         1 <= len <= 16 /\ 0 <= c < 2 ^ len) /\
    (forall (p q : nat) s1 s2 l1 c1 l2 c2,
       (p < q < length (canonical avpriv_mjpeg_bits_dc_luminance))%nat ->
       avpriv_mjpeg_val_dc !! p = Some s1 ->
       avpriv_mjpeg_val_dc !! q = Some s2 ->
       hs !! Z.to_nat s1 = Some l1 -> hc !! Z.to_nat s1 = Some c1 ->
       hs !! Z.to_nat s2 = Some l2 -> hc !! Z.to_nat s2 = Some c2 ->
       l1 <= l2 /\ c1 < Z.shiftr c2 (l2 - l1)).
Proof.
  apply (huffman_codes_prefix_free (replicate 256 0) (replicate 256 0)
           avpriv_mjpeg_bits_dc_luminance avpriv_mjpeg_val_dc).
  - reflexivity.
  - reflexivity.
  - reflexivity.
  - unfold avpriv_mjpeg_bits_dc_luminance, is_uint8.
    repeat (apply Forall_cons; split; [lia|]). apply Forall_nil_2.
  - unfold avpriv_mjpeg_val_dc, is_uint8.
    repeat (apply Forall_cons; split; [lia|]). apply Forall_nil_2.
  - vm_compute. lia.
  - apply (bool_decide_unpack _). by vm_compute.
  - by vm_compute.
Defined.

Lemma canonical_from_length i i' lens code code' :
  length (canonical_from i lens code)
  = length (canonical_from i' lens code').
Proof.
  revert i i' code code'.
  induction lens as [|nb lens IH]; intros i i' code code'; simpl; [done|].
  rewrite !length_app, !consecutive_length. f_equal. apply IH.
Qed.

(** The inner loop runs off the end of a value table that holds fewer
    symbols than it is to take. *)
Lemma repeat_body_short (val_table : list Z) i nb v :
  Forall is_uint8 val_table -> 0 <= k v ->
  (Z.to_nat (k v) <= length val_table < Z.to_nat (k v) + nb)%nat ->
  length (huff_size v) = 256%nat -> length (huff_code v) = 256%nat ->
  repeat_body (inner_body val_table i) nb v = None.
Proof.
  intros Hvals. revert v.
  induction nb as [|nb IH]; intros v Hk Hshort Hhs Hhc; [lia|]. simpl.
  destruct (decide (Z.to_nat (k v) = length val_table)) as [Hend|Hin].
  - unfold inner_body, byte_at. rewrite decide_True by done.
    rewrite lookup_ge_None_2 by lia. done.
  - destruct (byte_at_is_Some val_table (k v)) as [sym Hsym];
      [unfold size; lia|].
    rewrite (inner_body_follows val_table Hvals i v sym) by done. simpl.
    destruct (assign_length true (arrays v) (sym, (i, code v))) as [Hl1 Hl2].
    apply IH; simpl; try lia.
    + by rewrite Hl1.
    + by rewrite Hl2.
Qed.

Lemma for_each_short (bits_table val_table lens : list Z) i v :
  Forall is_uint8 val_table ->
  0 <= i -> Forall is_uint8 lens ->
  (forall (j : nat) nb,
     lens !! j = Some nb -> byte_at bits_table (i + Z.of_nat j) = Some nb) ->
  0 <= k v ->
  (Z.to_nat (k v) <= length val_table
   < Z.to_nat (k v) + length (canonical_from i lens (code v)))%nat ->
  length (huff_size v) = 256%nat -> length (huff_code v) = 256%nat ->
  for_each (seqZ i (Z.of_nat (length lens)))
    (outer_body bits_table (inner_body val_table)) v = None.
Proof.
  intros Hvals. revert i v.
  induction lens as [|nb lens IH];
    intros i v Hi Hbytes Hbits Hk Hshort Hhs Hhc; simpl in Hshort; [lia|].
  apply Forall_cons in Hbytes as [Hnb Hbytes]. unfold is_uint8 in Hnb.
  rewrite length_app, consecutive_length in Hshort.
  specialize (Hbits 0%nat nb eq_refl) as Hnb_at.
  rewrite Z.add_0_r in Hnb_at.
  change (length (nb :: lens)) with (S (length lens)).
  rewrite Nat2Z.inj_succ, seqZ_cons by lia.
  rewrite for_each_cons.
  destruct (decide (Z.to_nat (k v) + Z.to_nat nb <= length val_table)%nat)
    as [Hfit|Hrun].
  - set (a1 := foldl (assign true) (arrays v)
                 (zip (take (Z.to_nat nb) (drop (Z.to_nat (k v)) val_table))
                      (consecutive i (code v) (Z.to_nat nb)))).
    assert (Hstep : outer_body bits_table (inner_body val_table) i v
                    = Some (mkvars a1.1 a1.2 (k v + nb)
                              (Z.shiftl (code v + nb) 1))).
    { unfold outer_body. rewrite Hnb_at. simpl.
      rewrite (repeat_body_assign val_table true (inner_body val_table)
                 (inner_body_follows val_table Hvals)) by (done || lia).
      simpl. by rewrite Z2Nat.id by lia. }
    rewrite Hstep. simpl. rewrite Z.pred_succ.
    destruct (foldl_assign_length true
                (zip (take (Z.to_nat nb) (drop (Z.to_nat (k v)) val_table))
                     (consecutive i (code v) (Z.to_nat nb)))
                (arrays v)) as [Hl1 Hl2].
    fold a1 in Hl1, Hl2. simpl in Hl1, Hl2.
    apply IH; simpl; try lia; try congruence.
    + intros j nb' Hj.
      replace (Z.succ i + Z.of_nat j) with (i + Z.of_nat (S j)) by lia.
      by apply Hbits.
    + rewrite (canonical_from_length _ (Z.succ i) _ _
                 (Z.shiftl (code v + nb) 1)) in Hshort.
      lia.
  - assert (Hstep : outer_body bits_table (inner_body val_table) i v = None).
    { unfold outer_body. rewrite Hnb_at. simpl.
      rewrite repeat_body_short; [done..|lia|done|done]. }
    by rewrite Hstep.
Qed.

(** X18. The function takes as many symbols from the value table as the
    bit-length table counts, without looking at how many there are: a
    value table that holds fewer is read past its end. *)
Theorem huffman_short_value_table
    (huff_size huff_code bits_table val_table : list Z) :
  length huff_size = 256%nat -> length huff_code = 256%nat ->
  length bits_table = 17%nat -> Forall is_uint8 bits_table ->
  Forall is_uint8 val_table ->
  (length val_table < length (canonical bits_table))%nat ->
  ff_mjpeg_build_huffman_codes huff_size huff_code bits_table val_table
  = None.
Proof.
  intros Hhs Hhc Hbits Hbytes Hvals Hshort.
  unfold ff_mjpeg_build_huffman_codes, build_with.
  rewrite store_in_range by (unfold size; lia).
  cbn [mbind option_bind]. change (Z.to_nat 0) with 0%nat.
  pose proof (for_each_short bits_table val_table
                (take 16 (drop 1 bits_table)) 1
                (mkvars (<[0%nat := 0]> huff_size) huff_code 0 0)) as Hrun.
  rewrite length_take, length_drop, Hbits in Hrun.
  change (Z.of_nat (16 `min` (17 - 1))) with 16 in Hrun.
  rewrite Hrun; [done|done|lia|by apply Forall_take, Forall_drop| |done| |..].
  - intros j nb Hj. apply lookup_take_Some in Hj as [Hj _].
    rewrite lookup_drop in Hj.
    replace (1 + Z.of_nat j) with (Z.of_nat (1 + j)) by lia.
    by rewrite byte_at_lookup.
  - simpl. unfold canonical in Hshort. lia.
  - simpl. by rewrite length_insert.
  - done.
Qed.

Lemma huffman_short_value_table_witness :
  ff_mjpeg_build_huffman_codes (replicate 256 0) (replicate 256 0)
    avpriv_mjpeg_bits_dc_luminance (take 11 avpriv_mjpeg_val_dc) = None.
Proof.
  apply huffman_short_value_table.
  - reflexivity.
  - reflexivity.
  - reflexivity.
  - unfold avpriv_mjpeg_bits_dc_luminance, is_uint8.
    repeat (apply Forall_cons; split; [lia|]). apply Forall_nil_2.
  - apply Forall_take. unfold avpriv_mjpeg_val_dc, is_uint8.
    repeat (apply Forall_cons; split; [lia|]). apply Forall_nil_2.
  - vm_compute. lia.
Defined.

End HuffmanMore.
